(** * TruthShield backend: content-threat scoring, helpers, game sessions,
      users and families, request guards and field encryption

    A shallow embedding of the parts of the backend that carry logic:
    - [src/utils/ai-detection.js]: the [AIDetectionEngine] and, in the same
      file, the [HelperUtils];
    - [src/models/GameProgress.js], the user model and [src/models/family.js]:
      the methods of the game session, the user and the family;
    - the game routes, as far as they run these methods;
    - [src/middleware/validation.js] and [src/middleware/auth.js];
    - [src/utils/encryption.js].

    Conventions.  A JavaScript string is the list of its UTF-16 code units
    ([Z]).  A JavaScript number is a rational ([Q]) or, where the code only
    handles integers, an integer ([Z]): a quotient is exact here where the
    code rounds it to a double.  The comparisons of the analysis do not feel
    the difference where it matters: a match count over 12, 13 or 17 is
    never 7/10, and is further from it than a double is from the quotient it
    rounds.  Where a result does turn on the rounding, in the sum that
    [determineRiskLevel] compares with 1, 2 and 3, the function is also given
    on binary64 floats (module [RiskLevel]).  Third-party packages (natural,
    express-validator, jsonwebtoken, mongoose, node:crypto) are not part of
    the repository: what the code needs from them is a [Variable] of the
    section that embeds the code. *)

From Stdlib Require Import ZArith QArith Qround Qabs String Ascii Bool List Lia Lqa.
From Stdlib Require Import Permutation.
From Stdlib Require PrimFloat.
Import ListNotations.

Local Open Scope Z_scope.

(* ================================================================== *)
(** * JavaScript strings *)
(* ================================================================== *)

Module JS.

(** A string is the sequence of its UTF-16 code units. *)
Definition jsstring : Type := list Z.

Definition unit_of_ascii (c : ascii) : Z := Z.of_N (N_of_ascii c).

(** The string a source literal of ASCII characters denotes. *)
Fixpoint u (s : string) : jsstring :=
  match s with
  | EmptyString => []
  | String c s' => unit_of_ascii c :: u s'
  end.

Arguments u s%_string.

Fixpoint eqb (s t : jsstring) : bool :=
  match s, t with
  | [], [] => true
  | c :: s', d :: t' => (c =? d) && eqb s' t'
  | _, _ => false
  end.

(** [s.startsWith(p)]. *)
Fixpoint startsWith (s p : jsstring) : bool :=
  match p, s with
  | [], _ => true
  | c :: p', d :: s' => (c =? d) && startsWith s' p'
  | _ :: _, [] => false
  end.

(** [s.includes(search)]: [search] occurs at some index of [s]. *)
Fixpoint includes (s search : jsstring) : bool :=
  startsWith s search
  || match s with
     | [] => false
     | _ :: s' => includes s' search
     end.

(** [String.prototype.toLowerCase], one code unit at a time.  The mapping is
    the Unicode one on every code unit below 128 and on the two code units
    above that lower-case into ASCII (KELVIN SIGN to k, LATIN CAPITAL LETTER I
    WITH DOT ABOVE to i followed by COMBINING DOT ABOVE).  Every other code
    unit is kept: Unicode maps it to code units of 128 and above, so nothing
    changes for a search of the ASCII keywords of this file. *)
Definition lowerUnit (c : Z) : jsstring :=
  if (65 <=? c) && (c <=? 90) then [c + 32]
  else if c =? 8490 then [107]
  else if c =? 304 then [105; 775]
  else [c].

Definition toLowerCase (s : jsstring) : jsstring := flat_map lowerUnit s.

(** The decimal digits of a natural number, as [String(n)] prints them. *)
Fixpoint digits (d : Decimal.uint) : jsstring :=
  match d with
  | Decimal.Nil => []
  | Decimal.D0 d' => 48 :: digits d'
  | Decimal.D1 d' => 49 :: digits d'
  | Decimal.D2 d' => 50 :: digits d'
  | Decimal.D3 d' => 51 :: digits d'
  | Decimal.D4 d' => 52 :: digits d'
  | Decimal.D5 d' => 53 :: digits d'
  | Decimal.D6 d' => 54 :: digits d'
  | Decimal.D7 d' => 55 :: digits d'
  | Decimal.D8 d' => 56 :: digits d'
  | Decimal.D9 d' => 57 :: digits d'
  end.

Definition ofNat (n : nat) : jsstring := digits (Nat.to_uint n).

(** How a call ends: it returns, it throws, or the model's loop budget ran
    out before it did either. *)
Inductive result (A : Type) : Type :=
| Returns (a : A)
| Throws
| OutOfFuel.

Arguments Returns {A}.
Arguments Throws {A}.
Arguments OutOfFuel {A}.

Definition bind {A B : Type} (r : result A) (k : A -> result B) : result B :=
  match r with
  | Returns a => k a
  | Throws => Throws
  | OutOfFuel => OutOfFuel
  end.

End JS.

(* ================================================================== *)
(** * Regular expressions *)
(* ================================================================== *)

Module Regex.
Import JS.

(** The fragment of the regular-expression syntax the sources use: a sequence
    of single-character terms, each taken once or under [?], [*] or [+], with
    at most one capture group. *)
Inductive classItem : Type :=
| CChar (c : Z)
| CSpace.

Inductive atom : Type :=
| Chr (c : Z)
| AnyChar
| NotIn (members : list classItem).

Inductive item : Type :=
| One (a : atom)
| Opt (a : atom)
| Star (a : atom)
| Plus (a : atom)
| GroupOpen
| GroupClose.

Record regex : Type := mkRegex {
  items : list item;
  ignoreCase : bool
}.

(** Line terminators: what [.] does not match. *)
Definition isLineTerminator (c : Z) : bool :=
  (c =? 10) || (c =? 13) || (c =? 8232) || (c =? 8233).

(** [\s]: white space and line terminators. *)
Definition isSpace (c : Z) : bool :=
  (c =? 9) || (c =? 11) || (c =? 12) || (c =? 32) || (c =? 160)
  || (c =? 5760) || ((8192 <=? c) && (c <=? 8202)) || (c =? 8239)
  || (c =? 8287) || (c =? 12288) || (c =? 65279) || isLineTerminator c.

(** Canonicalisation under the [i] flag (no [u] flag).  ECMAScript compares
    upper-cased code units and leaves a code unit of 128 or above alone when
    its upper case is below 128; a code unit of 128 or above therefore never
    equals a canonicalised ASCII character, whatever its own upper case is,
    and is kept here. *)
Definition canonicalize (c : Z) : Z :=
  if (97 <=? c) && (c <=? 122) then c - 32 else c.

Definition sameChar (ic : bool) (p c : Z) : bool :=
  if ic then canonicalize p =? canonicalize c else p =? c.

Definition inClass (ic : bool) (m : classItem) (c : Z) : bool :=
  match m with
  | CChar p => sameChar ic p c
  | CSpace => isSpace c
  end.

Definition accepts (ic : bool) (a : atom) (c : Z) : bool :=
  match a with
  | Chr p => sameChar ic p c
  | AnyChar => negb (isLineTerminator c)
  | NotIn members => negb (existsb (fun m => inClass ic m c) members)
  end.

(** A greedy repetition of one-character steps: take as many as possible,
    give them back one by one while the continuation [k] fails. *)
Fixpoint greedy {R : Type} (p : Z -> bool) (k : jsstring -> option R)
    (s : jsstring) : option R :=
  match s with
  | c :: s' =>
      if p c then
        match greedy p k s' with
        | Some r => Some r
        | None => k s
        end
      else k s
  | [] => k []
  end.

(** The backtracking matcher at one start position.  [opened] is the input
    left when the capture group was entered, [cap] the text of the group.
    The result is the input left after the match, and the group. *)
Fixpoint run (ic : bool) (its : list item) (s opened : jsstring)
    (cap : option jsstring) : option (jsstring * option jsstring) :=
  match its with
  | [] => Some (s, cap)
  | GroupOpen :: r => run ic r s s cap
  | GroupClose :: r =>
      run ic r s opened
        (Some (firstn (List.length opened - List.length s) opened))
  | One a :: r =>
      match s with
      | c :: s' => if accepts ic a c then run ic r s' opened cap else None
      | [] => None
      end
  | Opt a :: r =>
      match s with
      | c :: s' =>
          if accepts ic a c then
            match run ic r s' opened cap with
            | Some m => Some m
            | None => run ic r s opened cap
            end
          else run ic r s opened cap
      | [] => run ic r s opened cap
      end
  | Star a :: r =>
      greedy (accepts ic a) (fun s' => run ic r s' opened cap) s
  | Plus a :: r =>
      match s with
      | c :: s' =>
          if accepts ic a c
          then greedy (accepts ic a) (fun s' => run ic r s' opened cap) s'
          else None
      | [] => None
      end
  end.

Record matchResult : Type := mkMatch {
  m_index : nat;
  m_end : nat;
  m_group1 : option jsstring
}.

(** The first start position at or after index [i] (where the suffix [s]
    begins) at which the expression matches. *)
Fixpoint searchFrom (re : regex) (s : jsstring) (i : nat) : option matchResult :=
  match run (ignoreCase re) (items re) s s None with
  | Some (rest, cap) =>
      Some (mkMatch i (i + (List.length s - List.length rest)) cap)
  | None =>
      match s with
      | [] => None
      | _ :: s' => searchFrom re s' (S i)
      end
  end.

(** [re.test(s)] for an expression without the [g] and [y] flags. *)
Definition test (re : regex) (s : jsstring) : bool :=
  match searchFrom re s 0 with
  | Some _ => true
  | None => false
  end.

(** [re.exec(s)] for an expression with the [g] flag whose [lastIndex] is
    [lastIndex]: the match, if any, and the new [lastIndex]. *)
Definition exec (re : regex) (s : jsstring) (lastIndex : nat)
    : option matchResult * nat :=
  if (List.length s <? lastIndex)%nat then (None, 0%nat)
  else
    match searchFrom re (skipn lastIndex s) lastIndex with
    | Some m => (Some m, m_end m)
    | None => (None, 0%nat)
    end.

(** A literal of pattern characters, each matched once. *)
Definition lit (s : string) : list item := map (fun c => One (Chr c)) (u s).

Arguments lit s%_string.

End Regex.

(* ================================================================== *)
(** * The content-threat classifier ([AIDetectionEngine]) *)
(* ================================================================== *)

Module Detection.
Import JS Regex.

Record patternSet : Type := mkPatternSet {
  keywords : list jsstring;
  domains : option (list jsstring);
  patterns : list regex
}.

(** [/a.*b/i] and [/a.*b.*c/i]. *)
Definition thenLater (a b : string) : regex :=
  mkRegex (lit a ++ [Star AnyChar] ++ lit b) true.

Definition thenLater3 (a b c : string) : regex :=
  mkRegex (lit a ++ [Star AnyChar] ++ lit b ++ [Star AnyChar] ++ lit c) true.

Arguments thenLater (a b)%_string.
Arguments thenLater3 (a b c)%_string.

Definition phishing : patternSet :=
  {| keywords :=
       [ u "verify your account"; u "password expiration"; u "suspended account";
         u "urgent action required"; u "click here"; u "limited time offer";
         u "free gift"; u "account verification"; u "security alert";
         u "unauthorized login attempt"; u "update your information" ];
     domains :=
       Some [ u "paypal-security.com"; u "apple-verify.net"; u "amazon-update.com" ];
     patterns :=
       [ thenLater "verify" "account"; thenLater "password" "expir";
         thenLater "suspended" "account"; thenLater "urgent" "action";
         thenLater "click" "here"; thenLater "free" "gift" ] |}.

Definition malware : patternSet :=
  {| keywords :=
       [ u "virus detected"; u "system infected"; u "download now";
         u "install update"; u "security patch"; u "anti-virus";
         u "pc scan"; u "remove threats"; u "system cleaner" ];
     domains := None;
     patterns :=
       [ thenLater "virus" "detected"; thenLater "system" "infected";
         thenLater "download" "now"; thenLater "install" "update" ] |}.

Definition social_engineering : patternSet :=
  {| keywords :=
       [ u "trust me"; u "emergency"; u "quick money";
         u "guaranteed profit"; u "no risk"; u "limited spots";
         u "exclusive offer"; u "once in a lifetime" ];
     domains := None;
     patterns :=
       [ thenLater "trust" "me"; thenLater "emergency" "need";
         thenLater "quick" "money"; thenLater "guaranteed" "profit" ] |}.

Definition financial_scam : patternSet :=
  {| keywords :=
       [ u "investment opportunity"; u "bitcoin"; u "crypto";
         u "double your money"; u "risk-free"; u "get rich quick";
         u "stock tips"; u "forex trading"; u "binary options" ];
     domains := None;
     patterns :=
       [ thenLater "investment" "opportunity"; thenLater "double" "money";
         mkRegex (lit "risk-free") true; thenLater3 "get" "rich" "quick" ] |}.

Definition predator_behavior : patternSet :=
  {| keywords :=
       [ u "where do you live"; u "how old are you"; u "send picture";
         u "meet in person"; u "keep this secret"; u "your parents";
         u "alone tonight"; u "private chat" ];
     domains := None;
     patterns :=
       [ thenLater "where" "live"; thenLater "how" "old";
         thenLater "send" "picture"; thenLater "meet" "person";
         thenLater "keep" "secret" ] |}.

(** [Object.entries(THREAT_PATTERNS)], in the order of the literal. *)
Definition THREAT_PATTERNS : list (jsstring * patternSet) :=
  [ (u "phishing", phishing);
    (u "malware", malware);
    (u "social_engineering", social_engineering);
    (u "financial_scam", financial_scam);
    (u "predator_behavior", predator_behavior) ].

(** [/https?:\/\/([^\/\s]+)/g] *)
Definition urlRegex : regex :=
  mkRegex (lit "http" ++ [Opt (Chr 115)] ++ lit "://"
           ++ [GroupOpen; Plus (NotIn [CChar 47; CSpace]); GroupClose]) false.

Record detection : Type := mkDetection {
  detected : bool;
  confidence : Q;
  indicators : list jsstring
}.

(** [x > y] on numbers. *)
Definition Qgtb (x y : Q) : bool := negb (Qle_bool x y).

(** The two mutable locals of [detectThreatType]: [matchCount] and
    [result.indicators]. *)
Definition tally : Type := (Z * list jsstring)%type.

Definition checkKeyword (lowerContent : jsstring) (st : tally) (keyword : jsstring)
    : tally :=
  if includes lowerContent (toLowerCase keyword)
  then (fst st + 1, snd st ++ [u "keyword: " ++ keyword])
  else st.

Definition checkPattern (content : jsstring) (st : tally) (pi : regex * nat)
    : tally :=
  if test (fst pi) content
  then (fst st + 1, snd st ++ [u "pattern_" ++ ofNat (snd pi + 1)])
  else st.

Definition suspicious (badDomains : list jsstring) (domain : jsstring) : bool :=
  existsb (fun badDomain => includes domain badDomain) badDomains.

(** The [while ((match = urlRegex.exec(content)) !== null)] loop; [lastIndex]
    is the state of the expression object, [fuel] bounds the iterations. *)
Fixpoint checkDomains (fuel : nat) (content : jsstring) (badDomains : list jsstring)
    (lastIndex : nat) (st : tally) : result tally :=
  match fuel with
  | O => OutOfFuel
  | S fuel' =>
      match exec urlRegex content lastIndex with
      | (None, _) => Returns st
      | (Some m, lastIndex') =>
          match m_group1 m with
          | None => Throws
          | Some domain =>
              checkDomains fuel' content badDomains lastIndex'
                (if suspicious badDomains domain
                 then (fst st + 2, snd st ++ [u "suspicious_domain: " ++ domain])
                 else st)
          end
      end
  end.

Definition detectThreatType (fuel : nat) (threshold : Q) (content threatType : jsstring)
    (pats : patternSet) : result detection :=
  let lowerContent := toLowerCase content in
  let totalPatterns := Z.of_nat (List.length (keywords pats) + List.length (patterns pats)) in
  let st0 : tally := (0, []) in
  let st1 := fold_left (checkKeyword lowerContent) (keywords pats) st0 in
  let st2 :=
    fold_left (checkPattern content)
      (combine (patterns pats) (seq 0 (List.length (patterns pats)))) st1 in
  bind (match domains pats with
        | Some badDomains => checkDomains fuel content badDomains 0 st2
        | None => Returns st2
        end)
    (fun st3 =>
       let matchCount := fst st3 in
       if 0 <? totalPatterns then
         let c := (inject_Z matchCount / inject_Z totalPatterns)%Q in
         Returns (mkDetection (Qgtb c threshold) c (snd st3))
       else Returns (mkDetection false 0%Q (snd st3))).

Inductive severity : Type := low | medium | high | critical.

Record threat : Type := mkThreat {
  type : option jsstring;
  t_confidence : Q;
  t_indicators : list jsstring;
  t_severity : severity
}.

Definition isType (t : option jsstring) (name : string) : bool :=
  match t with
  | Some k => JS.eqb k (u name)
  | None => false
  end.

Arguments isType t name%_string.

Definition calculateSeverity (threatType : option jsstring) (c : Q) : severity :=
  let baseSeverity :=
    if isType threatType "phishing" then high
    else if isType threatType "malware" then high
    else if isType threatType "financial_scam" then medium
    else if isType threatType "social_engineering" then medium
    else if isType threatType "predator_behavior" then critical
    else low in
  if Qgtb c (9 # 10) then
    match baseSeverity with
    | medium => high
    | high => critical
    | other => other
    end
  else baseSeverity.

Definition calculateOverallConfidence (threats : list threat) : Q :=
  match threats with
  | [] => 0%Q
  | _ =>
      let totalConfidence :=
        fold_left (fun sum t => (sum + t_confidence t)%Q) threats 0%Q in
      (totalConfidence / inject_Z (Z.of_nat (List.length threats)))%Q
  end.

Definition severityWeights (s : severity) : Q :=
  match s with
  | low => 1%Q
  | medium => 2%Q
  | high => 3%Q
  | critical => 4%Q
  end.

(** [determineRiskLevel] on the exact quotients the analysis carries as
    confidences; on the floats the engine adds up it is
    [RiskLevel.determineRiskLevel]. *)
Definition determineRiskLevel (threats : list threat) : severity :=
  match threats with
  | [] => low
  | _ =>
      let weightedScore :=
        fold_left
          (fun score t => (score + t_confidence t * severityWeights (t_severity t))%Q)
          threats 0%Q in
      if Qle_bool 3 weightedScore then critical
      else if Qle_bool 2 weightedScore then high
      else if Qle_bool 1 weightedScore then medium
      else low
  end.

Definition recommendationsFor (t : threat) : list jsstring :=
  if isType (type t) "phishing" then
    [ u "Do not click any links in this message";
      u "Verify the sender through official channels";
      u "Report this as phishing to the platform" ]
  else if isType (type t) "malware" then
    [ u "Do not download any attachments";
      u "Run a security scan on your device";
      u "Keep your antivirus software updated" ]
  else if isType (type t) "predator_behavior" then
    [ u "Do not share personal information";
      u "Block and report this user immediately";
      u "Inform a trusted adult about this interaction" ]
  else if isType (type t) "financial_scam" then
    [ u "Be cautious of investment opportunities";
      u "Research the company through official sources";
      u "Never send money to unknown individuals" ]
  else [].

(** [[...new Set(xs)]]: the first occurrence of every element, in order. *)
Fixpoint unique (seen xs : list jsstring) : list jsstring :=
  match xs with
  | [] => []
  | x :: r =>
      if existsb (JS.eqb x) seen then unique seen r
      else x :: unique (x :: seen) r
  end.

Definition generateRecommendations (threats : list threat) : list jsstring :=
  unique [] (flat_map recommendationsFor threats).

Record analysis : Type := mkAnalysis {
  threats : list threat;
  a_confidence : Q;
  riskLevel : severity;
  a_indicators : list jsstring;
  recommendations : list jsstring
}.

Record classification : Type := mkClassification {
  category : option jsstring;
  c_confidence : Q;
  scores : list (jsstring * Q)
}.

(** [scores[category] = (scores[category] || 0) + measure] on an object whose
    properties are kept in insertion order. *)
Fixpoint addScore (sc : list (jsstring * Q)) (cat : jsstring) (measure : Q)
    : list (jsstring * Q) :=
  match sc with
  | [] => [(cat, (0 + measure)%Q)]
  | (k, v) :: r =>
      if JS.eqb k cat then (k, (v + measure)%Q) :: r
      else (k, v) :: addScore r cat measure
  end.

(** The loop over [Object.entries(scores)]. *)
Definition pickBest (best : Q * option jsstring) (entry : jsstring * Q)
    : Q * option jsstring :=
  if Qgtb (snd entry) (fst best) then (snd entry, Some (fst entry)) else best.

Definition trainingData : list (jsstring * jsstring) :=
  [ (u "verify your account now urgent action required", u "phishing");
    (u "your password will expire soon click here", u "phishing");
    (u "virus detected on your computer download antivirus", u "malware");
    (u "system infected install security update now", u "malware");
    (u "investment opportunity double your money fast", u "financial_scam");
    (u "bitcoin trading guaranteed profits no risk", u "financial_scam");
    (u "where do you live can we meet alone", u "predator_behavior");
    (u "how old are you send me your picture", u "predator_behavior") ].

Section Engine.

(** The [natural] package's [TfIdf], as far as the engine uses it:
    - [Document] is an element of its [documents] array, and
      [buildDocument text key] the element [addDocument(text, key)] appends;
    - [categoryKey d] is the property key that [scores[d.category]]
      addresses, for such an element [d];
    - [tfidf docs content i] is the measure [tfidfs(content, callback)]
      passes to its callback for document [i] of the corpus [docs]: a
      function of the corpus, the text and the index.
    The [scores] object is kept in insertion order, the order of
    [Object.entries] for keys that are not array indices (the keys met
    below, "undefined" and the training categories, are not). *)
Variable Document : Type.
Variable buildDocument : jsstring -> jsstring -> Document.
Variable categoryKey : Document -> jsstring.
Variable tfidf : list Document -> jsstring -> nat -> Q.

(** The engine object together with the module-level [tfidf] corpus it
    trains. *)
Record engine : Type := mkEngine {
  confidenceThreshold : Q;
  initialized : bool;
  documents : list Document
}.

Definition init (e : engine) : engine :=
  {| confidenceThreshold := confidenceThreshold e;
     initialized := true;
     documents :=
       fold_left (fun docs item => docs ++ [buildDocument (fst item) (snd item)])
         trainingData (documents e) |}.

(** [new AIDetectionEngine()]: the body of [init] has no [await], so the call
    in the constructor has run to its end when the constructor returns. *)
Definition newEngine : engine :=
  init {| confidenceThreshold := 7 # 10; initialized := false; documents := [] |}.

(** [if (!this.initialized) { await this.init(); }] *)
Definition ensureInit (e : engine) : engine :=
  if initialized e then e else init e.

(** The callback given to [tfidf.tfidfs]. *)
Definition tfidfCallback (docs : list Document) (content : jsstring)
    (acc : result (list (jsstring * Q) * Q)) (i : nat)
    : result (list (jsstring * Q) * Q) :=
  bind acc (fun st =>
    match nth_error docs i with
    | None => Throws
    | Some d =>
        let measure := tfidf docs content i in
        Returns (addScore (fst st) (categoryKey d) measure,
                 (snd st + Qabs measure)%Q)
    end).

Definition classifyWithTFIDF (e : engine) (content : jsstring) : result classification :=
  let docs := documents e in
  bind (fold_left (tfidfCallback docs content) (seq 0 (List.length docs))
          (Returns ([], 0%Q)))
    (fun st =>
       let sc := fst st in
       let totalScore := snd st in
       let best := fold_left pickBest sc (0%Q, None) in
       let c := if Qgtb totalScore 0 then (fst best / totalScore)%Q else 0%Q in
       Returns (mkClassification (snd best) c sc)).

(** The loop of [analyzeContent] over the threat types. *)
Definition checkThreatType (fuel : nat) (e : engine) (content : jsstring)
    (acc : result (list threat)) (entry : jsstring * patternSet)
    : result (list threat) :=
  bind acc (fun ths =>
    bind (detectThreatType fuel (confidenceThreshold e) content (fst entry) (snd entry))
      (fun threatResult =>
         if detected threatResult then
           Returns (ths ++ [mkThreat (Some (fst entry)) (confidence threatResult)
                              (indicators threatResult)
                              (calculateSeverity (Some (fst entry))
                                 (confidence threatResult))])
         else Returns ths)).

Definition analyzeContent (fuel : nat) (e : engine) (content : jsstring)
    : result (analysis * engine) :=
  let e1 := ensureInit e in
  bind (fold_left (checkThreatType fuel e1 content) THREAT_PATTERNS (Returns []))
    (fun ths =>
       bind (classifyWithTFIDF e1 content) (fun tfidfResults =>
         let ths' :=
           if Qgtb (c_confidence tfidfResults) (confidenceThreshold e1)
           then ths ++ [mkThreat (category tfidfResults) (c_confidence tfidfResults)
                          [u "AI-pattern-detected"]
                          (calculateSeverity (category tfidfResults)
                             (c_confidence tfidfResults))]
           else ths in
         Returns (mkAnalysis ths' (calculateOverallConfidence ths')
                    (determineRiskLevel ths') []
                    (generateRecommendations ths'),
                  e1))).

(** A call with a loop budget that suffices for its content. *)
Definition analyze (e : engine) (content : jsstring) : result (analysis * engine) :=
  analyzeContent (S (List.length content)) e content.

(** The engine after a call, and after a sequence of calls. *)
Definition stateAfterCall (e : engine) (content : jsstring) : engine :=
  match analyze e content with
  | Returns (_, e') => e'
  | _ => ensureInit e
  end.

Definition engineAfter (e : engine) (history : list jsstring) : engine :=
  fold_left stateAfterCall history e.

Definition analysisOf (r : result (analysis * engine)) : option analysis :=
  match r with
  | Returns (a, _) => Some a
  | _ => None
  end.

(** What [tfidfs] hands to the callback, document by document: the key the
    callback files the measure under, and the measure. *)
Definition measures (e : engine) (content : jsstring) : list (jsstring * Q) :=
  map (fun id => (categoryKey (snd id), tfidf (documents e) content (fst id)))
    (combine (seq 0 (List.length (documents e))) (documents e)).

(** The sum of the absolute values of all measures. *)
Definition totalMeasure (e : engine) (content : jsstring) : Q :=
  fold_right Qplus 0%Q (map (fun km => Qabs (snd km)) (measures e content)).

(** The sum of the measures filed under one key. *)
Definition categorySum (e : engine) (content cat : jsstring) : Q :=
  fold_right Qplus 0%Q
    (map snd (filter (fun km => JS.eqb (fst km) cat) (measures e content))).

(** One call of the callback, on the two locals it updates. *)
Definition scoreStep (st : list (jsstring * Q) * Q) (km : jsstring * Q)
    : list (jsstring * Q) * Q :=
  (addScore (fst st) (fst km) (snd km), (snd st + Qabs (snd km))%Q).

End Engine.

Arguments mkEngine {Document}.
Arguments confidenceThreshold {Document}.
Arguments initialized {Document}.
Arguments documents {Document}.
Arguments init {Document}.
Arguments newEngine {Document}.
Arguments ensureInit {Document}.
Arguments tfidfCallback {Document}.
Arguments classifyWithTFIDF {Document}.
Arguments checkThreatType {Document}.
Arguments analyzeContent {Document}.
Arguments analyze {Document}.
Arguments stateAfterCall {Document}.
Arguments engineAfter {Document}.
Arguments analysisOf {Document}.
Arguments measures {Document}.
Arguments totalMeasure {Document}.
Arguments categorySum {Document}.

(** ** What the claims speak of, in their own words *)

(** The hosts of the URLs of a text: the capture groups of the successive
    matches of [urlRegex], each search resuming where the last match ended.
    [skip] counts the code units still covered by the last match. *)
Fixpoint hostsFrom (skip : nat) (s : jsstring) : list jsstring :=
  match s with
  | [] => []
  | _ :: s' =>
      match skip with
      | S k => hostsFrom k s'
      | O =>
          match run (ignoreCase urlRegex) (items urlRegex) s s None with
          | Some (rest, Some host) =>
              host :: hostsFrom (List.length s - List.length rest - 1) s'
          | _ => hostsFrom 0 s'
          end
      end
  end.

Definition urlHosts (content : jsstring) : list jsstring := hostsFrom 0 content.

(** Keywords found in the text, case-insensitively. *)
Definition keywordMatches (content : jsstring) (pats : patternSet) : nat :=
  List.length
    (filter (fun keyword => includes (toLowerCase content) (toLowerCase keyword))
       (keywords pats)).

(** Regular expressions of the category that match the text. *)
Definition patternMatches (content : jsstring) (pats : patternSet) : nat :=
  List.length (filter (fun re => test re content) (patterns pats)).

(** URLs of the text whose host contains a listed domain. *)
Definition suspiciousUrls (content : jsstring) (pats : patternSet) : nat :=
  match domains pats with
  | Some badDomains => List.length (filter (suspicious badDomains) (urlHosts content))
  | None => 0
  end.

Definition matchCountOf (content : jsstring) (pats : patternSet) : Z :=
  Z.of_nat (keywordMatches content pats) + Z.of_nat (patternMatches content pats)
  + 2 * Z.of_nat (suspiciousUrls content pats).

Definition totalPatternsOf (pats : patternSet) : Z :=
  Z.of_nat (List.length (keywords pats)) + Z.of_nat (List.length (patterns pats)).

(** One round of the URL loop, as a step over the hosts. *)
Definition domainStep (badDomains : list jsstring) (st : tally) (domain : jsstring) : tally :=
  if suspicious badDomains domain
  then (fst st + 2, snd st ++ [u "suspicious_domain: " ++ domain])
  else st.

(** Sample inputs. *)
Definition nineSuspiciousUrls : jsstring :=
  concat (repeat (u "http://paypal-security.com ") 9).

Definition samplePhish : jsstring :=
  u "Please VERIFY your Account: click here for a free gift https://x.apple-verify.net/foo".

(** The weighted sum of a list of threats: confidence times severity
    weight, summed. *)
Definition weightedScore (threats : list threat) : Q :=
  fold_right Qplus 0%Q
    (map (fun t => (t_confidence t * severityWeights (t_severity t))%Q) threats).

(** The categories of the training data, in the order they first occur. *)
Definition trainingCategories : list jsstring :=
  [ u "phishing"; u "malware"; u "financial_scam"; u "predator_behavior" ].

(** A stand-in for the package, to run the engine on examples: a document is
    the pair it was added as, and the measure of a text against a document
    is 1 when the document contains the text and 0 otherwise. *)
Definition pairDocument : Type := (jsstring * jsstring)%type.

Definition containsMeasure (docs : list pairDocument) (content : jsstring) (i : nat) : Q :=
  match nth_error docs i with
  | Some (text, _) => if includes text content then 1%Q else 0%Q
  | None => 0%Q
  end.

(** A stored document without a [category] property: the key is the string
    that [undefined] converts to. *)
Definition noCategory (d : pairDocument) : jsstring := u "undefined".

End Detection.

(* ================================================================== *)
(** * Facts about strings *)
(* ================================================================== *)

Module JSFacts.
Import JS.

Lemma eqb_refl (s : jsstring) : JS.eqb s s = true.
Proof. induction s as [|c s IH]; cbn; [reflexivity|]. now rewrite Z.eqb_refl. Qed.

Lemma eqb_eq (s t : jsstring) : JS.eqb s t = true <-> s = t.
Proof.
  revert t; induction s as [|c s IH]; intros [|d t]; cbn; split; intros H;
    try reflexivity; try discriminate.
  - apply andb_true_iff in H. destruct H as [H1 H2].
    apply Z.eqb_eq in H1. apply IH in H2. congruence.
  - inversion H; subst. rewrite Z.eqb_refl. cbn. now apply IH.
Qed.

End JSFacts.

(* ================================================================== *)
(** * Facts about the matcher *)
(* ================================================================== *)

Module RegexFacts.
Import JS Regex.

Lemma greedy_inv {R : Type} (p : Z -> bool) (k : jsstring -> option R) (s : jsstring) (r : R) :
  greedy p k s = Some r ->
  exists s', k s' = Some r /\ (List.length s' <= List.length s)%nat.
Proof.
  induction s as [|c s IH]; simpl; intros H.
  - exists []. auto.
  - destruct (p c).
    + destruct (greedy p k s) as [r'|] eqn:G.
      * inversion H; subst r'. destruct (IH eq_refl) as (s' & Hk & Hl).
        exists s'. split; [exact Hk | lia].
      * exists (c :: s). auto.
    + exists (c :: s). auto.
Qed.

Lemma run_length (ic : bool) (its : list item) :
  forall s opened cap rest cap',
    run ic its s opened cap = Some (rest, cap') ->
    (List.length rest <= List.length s)%nat.
Proof.
  induction its as [|it its IH]; intros s opened cap rest cap' H.
  - simpl in H. inversion H; subst. lia.
  - destruct it as [a|a|a|a| |]; simpl in H.
    + destruct s as [|c s]; [discriminate|].
      destruct (accepts ic a c); [|discriminate].
      apply IH in H. simpl. lia.
    + destruct s as [|c s]; [now apply IH in H|].
      destruct (accepts ic a c).
      * destruct (run ic its s opened cap) as [m|] eqn:E.
        -- inversion H; subst m. apply IH in E. simpl. lia.
        -- now apply IH in H.
      * now apply IH in H.
    + apply greedy_inv in H. destruct H as (s' & Hk & Hl).
      apply IH in Hk. lia.
    + destruct s as [|c s]; [discriminate|].
      destruct (accepts ic a c); [|discriminate].
      apply greedy_inv in H. destruct H as (s' & Hk & Hl).
      apply IH in Hk. simpl. lia.
    + now apply IH in H.
    + now apply IH in H.
Qed.

Lemma run_one_consumes (ic : bool) (a : atom) (its : list item) s opened cap rest cap' :
  run ic (One a :: its) s opened cap = Some (rest, cap') ->
  (List.length rest < List.length s)%nat.
Proof.
  simpl. destruct s as [|c s]; [discriminate|].
  destruct (accepts ic a c); [|discriminate].
  intros H. apply run_length in H. simpl. lia.
Qed.

Lemma run_closes_group (ic : bool) (its : list item) :
  forall s opened cap rest cap',
    run ic (its ++ [GroupClose]) s opened cap = Some (rest, cap') ->
    exists g, cap' = Some g.
Proof.
  induction its as [|it its IH]; intros s opened cap rest cap' H.
  - simpl in H. inversion H. eauto.
  - destruct it as [a|a|a|a| |]; simpl in H.
    + destruct s as [|c s]; [discriminate|].
      destruct (accepts ic a c); [|discriminate]. eauto.
    + destruct s as [|c s]; [eauto|].
      destruct (accepts ic a c); [|eauto].
      destruct (run ic (its ++ [GroupClose]) s opened cap) as [m|] eqn:E; [|eauto].
      inversion H; subst m. eauto.
    + apply greedy_inv in H. destruct H as (s' & Hk & _). eauto.
    + destruct s as [|c s]; [discriminate|].
      destruct (accepts ic a c); [|discriminate].
      apply greedy_inv in H. destruct H as (s' & Hk & _). eauto.
    + eauto.
    + eauto.
Qed.


End RegexFacts.

(* ================================================================== *)
(** * Facts about the classifier *)
(* ================================================================== *)

Module DetectionFacts.
Import JS JSFacts Regex RegexFacts Detection.

Lemma url_items_shape :
  exists a its, items urlRegex = One a :: its ++ [GroupClose].
Proof. exists (Chr 104), (removelast (tl (items urlRegex))). reflexivity. Qed.

Lemma url_run_inv s rest cap :
  run (ignoreCase urlRegex) (items urlRegex) s s None = Some (rest, cap) ->
  (exists host, cap = Some host) /\ (List.length rest < List.length s)%nat.
Proof.
  intros H. destruct url_items_shape as (a & its & E). rewrite E in H. split.
  - change (One a :: its ++ [GroupClose]) with ((One a :: its) ++ [GroupClose]) in H.
    eapply run_closes_group; eauto.
  - eapply run_one_consumes; eauto.
Qed.

Lemma url_run_nil : run (ignoreCase urlRegex) (items urlRegex) [] [] None = None.
Proof. reflexivity. Qed.

Lemma searchFrom_eq re s i :
  searchFrom re s i =
  match run (ignoreCase re) (items re) s s None with
  | Some (rest, cap) => Some (mkMatch i (i + (List.length s - List.length rest)) cap)
  | None => match s with [] => None | _ :: s' => searchFrom re s' (S i) end
  end.
Proof. destruct s; reflexivity. Qed.

Lemma hostsFrom_cons skip c s' :
  hostsFrom skip (c :: s') =
  match skip with
  | S k => hostsFrom k s'
  | O =>
      match run (ignoreCase urlRegex) (items urlRegex) (c :: s') (c :: s') None with
      | Some (rest, Some host) =>
          host :: hostsFrom (List.length (c :: s') - List.length rest - 1) s'
      | _ => hostsFrom 0 s'
      end
  end.
Proof. reflexivity. Qed.

Lemma hostsFrom_skip : forall s k, hostsFrom k s = hostsFrom 0 (skipn k s).
Proof.
  induction s as [|c s IH]; intros k.
  - now rewrite skipn_nil.
  - destruct k as [|k]; [reflexivity|].
    rewrite hostsFrom_cons. cbn [skipn]. apply IH.
Qed.

Lemma search_hosts : forall s i,
  match searchFrom urlRegex s i with
  | None => hostsFrom 0 s = []
  | Some m =>
      exists host, m_group1 m = Some host
        /\ (i < m_end m <= i + List.length s)%nat
        /\ hostsFrom 0 s = host :: hostsFrom 0 (skipn (m_end m - i) s)
  end.
Proof.
  induction s as [|c s IH]; intros i.
  - rewrite searchFrom_eq, url_run_nil. reflexivity.
  - rewrite searchFrom_eq, hostsFrom_cons.
    destruct (run (ignoreCase urlRegex) (items urlRegex) (c :: s) (c :: s) None)
      as [[rest cap]|] eqn:E.
    + destruct (url_run_inv _ _ _ E) as ((host & ->) & Hl).
      pose proof (run_length _ _ _ _ _ _ _ E) as Hle.
      exists host. cbn [m_group1 m_end]. split; [reflexivity|]. split; [lia|].
      f_equal. rewrite hostsFrom_skip.
      replace (i + (List.length (c :: s) - List.length rest) - i)%nat
        with (S (List.length (c :: s) - List.length rest - 1)) by lia.
      reflexivity.
    + specialize (IH (S i)). destruct (searchFrom urlRegex s (S i)) as [m|].
      * destruct IH as (host & Hg & Hb & Hh). exists host.
        split; [exact Hg|]. split; [cbn [List.length]; lia|].
        rewrite Hh. replace (m_end m - i)%nat with (S (m_end m - S i)) by lia.
        reflexivity.
      * exact IH.
Qed.

Lemma checkDomains_hosts badDomains content : forall fuel i st,
  (i <= List.length content)%nat ->
  (List.length content - i < fuel)%nat ->
  checkDomains fuel content badDomains i st
  = Returns (fold_left (domainStep badDomains) (hostsFrom 0 (skipn i content)) st).
Proof.
  induction fuel as [|fuel IH]; intros i st Hi Hf; [lia|].
  cbn [checkDomains]. unfold exec.
  destruct (Nat.ltb_spec (List.length content) i) as [?|_]; [lia|].
  pose proof (search_hosts (skipn i content) i) as Hs.
  destruct (searchFrom urlRegex (skipn i content) i) as [m|].
  - destruct Hs as (host & Hg & Hb & Hh). rewrite Hg.
    rewrite length_skipn in Hb.
    rewrite IH by lia. rewrite Hh. cbn [fold_left].
    rewrite skipn_skipn.
    replace (m_end m - i + i)%nat with (m_end m) by lia.
    reflexivity.
  - rewrite Hs. reflexivity.
Qed.

Lemma fold_checkKeyword lc kws : forall st,
  fst (fold_left (checkKeyword lc) kws st)
  = fst st + Z.of_nat (List.length (filter (fun k => includes lc (toLowerCase k)) kws)).
Proof.
  induction kws as [|k kws IH]; intros st; cbn [fold_left filter].
  - cbn. lia.
  - rewrite IH. unfold checkKeyword.
    destruct (includes lc (toLowerCase k)); cbn [fst List.length]; lia.
Qed.

Lemma fold_checkPattern content res : forall n st,
  fst (fold_left (checkPattern content) (combine res (seq n (List.length res))) st)
  = fst st + Z.of_nat (List.length (filter (fun re => test re content) res)).
Proof.
  induction res as [|re res IH]; intros n st; cbn [fold_left filter combine seq List.length].
  - lia.
  - rewrite IH. unfold checkPattern. cbn [fst snd].
    destruct (test re content); cbn [fst List.length]; lia.
Qed.

Lemma fold_domainStep bad hosts : forall st,
  fst (fold_left (domainStep bad) hosts st)
  = fst st + 2 * Z.of_nat (List.length (filter (suspicious bad) hosts)).
Proof.
  induction hosts as [|h hosts IH]; intros st; cbn [fold_left filter].
  - cbn. lia.
  - rewrite IH. unfold domainStep.
    destruct (suspicious bad h); cbn [fst List.length]; lia.
Qed.

Lemma Qdiv_Z_nonneg (m t : Z) :
  0 <= m -> 0 < t -> (0 <= inject_Z m / inject_Z t)%Q.
Proof.
  intros Hm Ht. destruct t as [|p|p]; try lia.
  unfold Qdiv, Qinv, Qmult, Qle, inject_Z; simpl. lia.
Qed.

Lemma Qdiv_Z_le_1 (m t : Z) :
  m <= t -> 0 < t -> (inject_Z m / inject_Z t <= 1)%Q.
Proof.
  intros Hm Ht. destruct t as [|p|p]; try lia.
  unfold Qdiv, Qinv, Qmult, Qle, inject_Z; simpl. lia.
Qed.

Lemma Qgtb_lt (x y : Q) : Qgtb x y = true <-> (y < x)%Q.
Proof.
  unfold Qgtb. rewrite negb_true_iff. split; intros H.
  - apply Qnot_le_lt. intros Hle. apply Qle_bool_iff in Hle. congruence.
  - destruct (Qle_bool x y) eqn:E; [|reflexivity].
    apply Qle_bool_iff in E. exfalso. exact (Qlt_not_le _ _ H E).
Qed.

Lemma table_total_pos ty pats :
  In (ty, pats) THREAT_PATTERNS -> 0 < totalPatternsOf pats.
Proof.
  unfold THREAT_PATTERNS. cbn [In].
  intros [H|[H|[H|[H|[H|[]]]]]]; inversion H; subst pats; reflexivity.
Qed.

Lemma detect_tally fuel content pats :
  (List.length content < fuel)%nat ->
  exists st,
    match domains pats with
    | Some badDomains =>
        checkDomains fuel content badDomains 0
          (fold_left (checkPattern content)
             (combine (patterns pats) (seq 0 (List.length (patterns pats))))
             (fold_left (checkKeyword (toLowerCase content)) (keywords pats) (0, [])))
    | None =>
        Returns
          (fold_left (checkPattern content)
             (combine (patterns pats) (seq 0 (List.length (patterns pats))))
             (fold_left (checkKeyword (toLowerCase content)) (keywords pats) (0, [])))
    end = Returns st
    /\ fst st = matchCountOf content pats.
Proof.
  intros Hf. unfold matchCountOf, suspiciousUrls, keywordMatches, patternMatches, urlHosts.
  destruct (domains pats) as [bad|].
  - rewrite checkDomains_hosts by lia. eexists. split; [reflexivity|].
    rewrite fold_domainStep, fold_checkPattern, fold_checkKeyword.
    cbn [fst skipn]. lia.
  - eexists. split; [reflexivity|].
    rewrite fold_checkPattern, fold_checkKeyword. cbn [fst]. lia.
Qed.

(** C1, as the code has it.  For every text and every category of the pattern
    table, [detectThreatType] returns, and its confidence is the match count
    (one per keyword found case-insensitively, one per matching regular
    expression, two per URL whose host contains a listed domain) divided by
    the number of keywords and regular expressions of the category.  The
    confidence is never negative; it is at most 1 when no URL of the text has
    a suspicious host; and the threat is reported as detected exactly when the
    confidence is strictly above the threshold 0.7. *)
Theorem detectThreatType_confidence (fuel : nat) (content ty : jsstring) (pats : patternSet) :
  In (ty, pats) THREAT_PATTERNS ->
  (List.length content < fuel)%nat ->
  exists r,
    detectThreatType fuel (7 # 10) content ty pats = Returns r
    /\ (confidence r == inject_Z (matchCountOf content pats) / inject_Z (totalPatternsOf pats))%Q
    /\ (0 <= confidence r)%Q
    /\ (suspiciousUrls content pats = 0%nat -> (confidence r <= 1)%Q)
    /\ (detected r = true <-> (7 # 10 < confidence r)%Q).
Proof.
  intros Hin Hf.
  pose proof (table_total_pos _ _ Hin) as Hpos.
  destruct (detect_tally fuel content pats Hf) as (st & Hst & Hmc).
  unfold detectThreatType. rewrite Hst. cbn [bind].
  replace (Z.of_nat (List.length (keywords pats) + List.length (patterns pats)))
    with (totalPatternsOf pats) by (unfold totalPatternsOf; lia).
  destruct (Z.ltb_spec 0 (totalPatternsOf pats)) as [_|?]; [|lia].
  eexists. split; [reflexivity|]. cbn [confidence detected]. rewrite Hmc.
  split; [reflexivity|]. split; [|split].
  - apply Qdiv_Z_nonneg; [|exact Hpos]. unfold matchCountOf. lia.
  - intros Hsu. apply Qdiv_Z_le_1; [|exact Hpos].
    unfold matchCountOf, totalPatternsOf, keywordMatches, patternMatches.
    rewrite Hsu.
    pose proof (filter_length_le
      (fun keyword => includes (toLowerCase content) (toLowerCase keyword)) (keywords pats)).
    pose proof (filter_length_le (fun re => test re content) (patterns pats)).
    lia.
  - apply Qgtb_lt.
Qed.

(** The confidence theorem at a phishing text with one suspicious URL. *)
Lemma detectThreatType_confidence_witness :
  exists r,
    detectThreatType 100 (7 # 10) samplePhish (u "phishing") phishing = Returns r
    /\ (confidence r == inject_Z (matchCountOf samplePhish phishing)
                        / inject_Z (totalPatternsOf phishing))%Q
    /\ (0 <= confidence r)%Q
    /\ (suspiciousUrls samplePhish phishing = 0%nat -> (confidence r <= 1)%Q)
    /\ (detected r = true <-> (7 # 10 < confidence r)%Q).
Proof.
  exact (detectThreatType_confidence 100 samplePhish (u "phishing") phishing
           (or_introl eq_refl) ltac:(vm_compute; lia)).
Defined.

(** C1 at its failing input: nine URLs of a listed domain give the phishing
    category (seventeen keywords and expressions) a match count of eighteen,
    and a confidence above 1. *)
Lemma detectThreatType_confidence_above_1 :
  exists r,
    In (u "phishing", phishing) THREAT_PATTERNS
    /\ detectThreatType 244 (7 # 10) nineSuspiciousUrls (u "phishing") phishing = Returns r
    /\ (confidence r == 18 # 17)%Q
    /\ (1 < confidence r)%Q.
Proof.
  eexists. split; [left; reflexivity|].
  split; [vm_compute; reflexivity|].
  split; vm_compute; reflexivity.
Qed.

Lemma fold_left_weighted threats : forall acc,
  (fold_left (fun score t => score + t_confidence t * severityWeights (t_severity t))
     threats acc == acc + weightedScore threats)%Q.
Proof.
  induction threats as [|t threats IH]; intros acc; cbn [fold_left].
  - unfold weightedScore; cbn. ring.
  - rewrite IH. unfold weightedScore; cbn [map fold_right]. ring.
Qed.

Lemma Qle_bool_false (x y : Q) : Qle_bool x y = false <-> (y < x)%Q.
Proof.
  split; intros H.
  - apply Qnot_le_lt. intros Hle. apply Qle_bool_iff in Hle. congruence.
  - destruct (Qle_bool x y) eqn:E; [|reflexivity].
    apply Qle_bool_iff in E. exfalso. exact (Qlt_not_le _ _ H E).
Qed.

Lemma Qgtb_le (x y : Q) : Qgtb x y = false <-> (x <= y)%Q.
Proof.
  unfold Qgtb. rewrite negb_false_iff. apply Qle_bool_iff.
Qed.

Lemma pickBest_four (k1 k2 k3 k4 : jsstring) (s1 s2 s3 s4 : Q) :
  let best := fold_left pickBest [(k1, s1); (k2, s2); (k3, s3); (k4, s4)] (0%Q, None) in
  (s1 <= fst best /\ s2 <= fst best /\ s3 <= fst best /\ s4 <= fst best)%Q
  /\ ((fst best = 0%Q /\ snd best = None)
      \/ (fst best = s1 /\ snd best = Some k1 /\ (0 < s1)%Q)
      \/ (fst best = s2 /\ snd best = Some k2 /\ (0 < s2)%Q)
      \/ (fst best = s3 /\ snd best = Some k3 /\ (0 < s3)%Q)
      \/ (fst best = s4 /\ snd best = Some k4 /\ (0 < s4)%Q)).
Proof.
  cbn [fold_left]. unfold pickBest. cbn [fst snd].
  destruct (Qgtb s1 0) eqn:E1; cbn [fst snd];
  [apply Qgtb_lt in E1 | apply Qgtb_le in E1];
  (destruct (Qgtb s2 _) eqn:E2; cbn [fst snd];
   [apply Qgtb_lt in E2 | apply Qgtb_le in E2]);
  (destruct (Qgtb s3 _) eqn:E3; cbn [fst snd];
   [apply Qgtb_lt in E3 | apply Qgtb_le in E3]);
  (destruct (Qgtb s4 _) eqn:E4; cbn [fst snd];
   [apply Qgtb_lt in E4 | apply Qgtb_le in E4]);
  (split; [repeat split; lra|]);
  first [ left; split; reflexivity
        | right; left; repeat split; lra
        | right; right; left; repeat split; lra
        | right; right; right; left; repeat split; lra
        | right; right; right; right; repeat split; lra ].
Qed.

Lemma scoreStep_four (k1 k2 k3 k4 : jsstring) (m0 m1 m2 m3 m4 m5 m6 m7 : Q) :
  JS.eqb k1 k2 = false -> JS.eqb k1 k3 = false -> JS.eqb k1 k4 = false ->
  JS.eqb k2 k3 = false -> JS.eqb k2 k4 = false -> JS.eqb k3 k4 = false ->
  fold_left scoreStep
    [(k1, m0); (k1, m1); (k2, m2); (k2, m3); (k3, m4); (k3, m5); (k4, m6); (k4, m7)]
    ([], 0%Q)
  = ([(k1, (0 + m0 + m1)%Q); (k2, (0 + m2 + m3)%Q);
      (k3, (0 + m4 + m5)%Q); (k4, (0 + m6 + m7)%Q)],
     (0 + Qabs m0 + Qabs m1 + Qabs m2 + Qabs m3
      + Qabs m4 + Qabs m5 + Qabs m6 + Qabs m7)%Q).
Proof.
  intros H12 H13 H14 H23 H24 H34.
  cbn [fold_left]. unfold scoreStep. cbn [fst snd addScore].
  rewrite !eqb_refl. cbn [addScore].
  rewrite H12. cbn [addScore]. rewrite H12, !eqb_refl. cbn [addScore].
  rewrite H13, H23. cbn [addScore]. rewrite H13, H23, !eqb_refl. cbn [addScore].
  rewrite H14, H24, H34. cbn [addScore]. rewrite H14, H24, H34, !eqb_refl.
  reflexivity.
Qed.

Lemma categorySum_four (k1 k2 k3 k4 : jsstring) (m0 m1 m2 m3 m4 m5 m6 m7 : Q) :
  JS.eqb k1 k2 = false -> JS.eqb k1 k3 = false -> JS.eqb k1 k4 = false ->
  JS.eqb k2 k3 = false -> JS.eqb k2 k4 = false -> JS.eqb k3 k4 = false ->
  JS.eqb k2 k1 = false -> JS.eqb k3 k1 = false -> JS.eqb k4 k1 = false ->
  JS.eqb k3 k2 = false -> JS.eqb k4 k2 = false -> JS.eqb k4 k3 = false ->
  let ms := [(k1, m0); (k1, m1); (k2, m2); (k2, m3); (k3, m4); (k3, m5); (k4, m6); (k4, m7)] in
  let sum := fun cat =>
    fold_right Qplus 0%Q (map snd (filter (fun km => JS.eqb (fst km) cat) ms)) in
  (sum k1 == 0 + m0 + m1)%Q /\ (sum k2 == 0 + m2 + m3)%Q
  /\ (sum k3 == 0 + m4 + m5)%Q /\ (sum k4 == 0 + m6 + m7)%Q.
Proof.
  intros. subst sum ms. cbv beta. cbn [filter fst snd].
  rewrite !eqb_refl.
  repeat match goal with H : JS.eqb _ _ = false |- _ => rewrite !H; clear H end.
  cbn [map fold_right snd]. repeat split; ring.
Qed.

Section EngineFacts.

Variable Document : Type.
Variable buildDocument : jsstring -> jsstring -> Document.
Variable categoryKey : Document -> jsstring.
Variable tfidf : list Document -> jsstring -> nat -> Q.

Lemma detectThreatType_returns fuel threshold content ty pats :
  (List.length content < fuel)%nat ->
  exists r, detectThreatType fuel threshold content ty pats = Returns r.
Proof.
  intros Hf. destruct (detect_tally fuel content pats Hf) as (st & Hst & _).
  unfold detectThreatType. rewrite Hst. cbn [bind].
  destruct (0 <? _); eauto.
Qed.

Lemma tfidfs_returns docs content : forall n a st,
  (a + n <= List.length docs)%nat ->
  exists st',
    fold_left (tfidfCallback categoryKey tfidf docs content) (seq a n) (Returns st)
    = Returns st'.
Proof.
  induction n as [|n IH]; intros a st Hn; cbn [seq fold_left]; [eauto|].
  unfold tfidfCallback at 2. cbn [bind].
  destruct (nth_error docs a) as [d|] eqn:E.
  - apply IH. lia.
  - apply nth_error_None in E. lia.
Qed.

Lemma classify_returns (e : engine Document) content :
  exists cl, classifyWithTFIDF categoryKey tfidf e content = Returns cl.
Proof.
  unfold classifyWithTFIDF.
  destruct (tfidfs_returns (documents e) content (List.length (documents e)) 0 ([], 0%Q))
    as (st & ->); [lia|].
  cbn [bind]. eauto.
Qed.

Lemma checkThreatTypes_return fuel (e : engine Document) content :
  (List.length content < fuel)%nat ->
  forall table ths,
  exists ths',
    fold_left (checkThreatType fuel e content) table (Returns ths) = Returns ths'.
Proof.
  intros Hf. induction table as [|[ty pats] table IH]; intros ths; cbn [fold_left]; [eauto|].
  unfold checkThreatType at 2. cbn [bind fst snd].
  destruct (detectThreatType_returns fuel (confidenceThreshold e) content ty pats Hf)
    as (r & ->).
  cbn [bind]. destruct (detected r); apply IH.
Qed.

(** A call returns, and leaves the engine initialised and otherwise as it
    was. *)
Lemma analyzeContent_total (fuel : nat) (e : engine Document) (content : jsstring) :
  (List.length content < fuel)%nat ->
  exists a,
    analyzeContent buildDocument categoryKey tfidf fuel e content
    = Returns (a, ensureInit buildDocument e)
    /\ a_confidence a = calculateOverallConfidence (threats a)
    /\ riskLevel a = determineRiskLevel (threats a)
    /\ a_indicators a = []
    /\ recommendations a = generateRecommendations (threats a).
Proof.
  intros Hf. unfold analyzeContent.
  destruct (checkThreatTypes_return fuel (ensureInit buildDocument e) content Hf
              THREAT_PATTERNS []) as (ths & ->).
  destruct (classify_returns (ensureInit buildDocument e) content) as (cl & ->).
  cbn [bind]. eexists. split; [reflexivity|]. cbn. repeat split.
Qed.

(** C2.  For every string, [analyzeContent] (given a loop budget above the
    length of the string) returns: it neither throws nor runs on.  What it
    returns holds a list of threats, their mean confidence, one of the four
    risk levels, an (empty) indicators list and a recommendations list. *)
Theorem analyzeContent_returns (fuel : nat) (e : engine Document) (content : jsstring) :
  (List.length content < fuel)%nat ->
  exists a e',
    analyzeContent buildDocument categoryKey tfidf fuel e content = Returns (a, e')
    /\ a_confidence a = calculateOverallConfidence (threats a)
    /\ In (riskLevel a) [low; medium; high; critical]
    /\ a_indicators a = []
    /\ recommendations a = generateRecommendations (threats a).
Proof.
  intros Hf.
  destruct (analyzeContent_total fuel e content Hf) as (a & Ha & Hc & _ & Hi & Hr).
  exists a, (ensureInit buildDocument e). repeat split; trivial.
  destruct (riskLevel a); cbn; auto.
Qed.

Lemma engineAfter_fresh history :
  engineAfter buildDocument categoryKey tfidf (newEngine buildDocument) history
  = newEngine buildDocument.
Proof.
  induction history as [|c history IH]; [reflexivity|].
  unfold engineAfter in *. cbn [fold_left].
  replace (stateAfterCall buildDocument categoryKey tfidf (newEngine buildDocument) c)
    with (newEngine buildDocument); [exact IH|].
  unfold stateAfterCall, analyze.
  destruct (analyzeContent_total (S (List.length c)) (newEngine buildDocument) c
              ltac:(lia)) as (a & -> & _).
  reflexivity.
Qed.

(** C4.  Whatever was analysed before, in whatever order, two calls of
    [analyzeContent] on the same string return the same analysis: threats,
    confidence, risk level, indicators and recommendations are equal. *)
Theorem analyzeContent_deterministic (before1 before2 : list jsstring) (content : jsstring) :
  exists a,
    analysisOf
      (analyze buildDocument categoryKey tfidf
         (engineAfter buildDocument categoryKey tfidf (newEngine buildDocument) before1)
         content) = Some a
    /\ analysisOf
         (analyze buildDocument categoryKey tfidf
            (engineAfter buildDocument categoryKey tfidf (newEngine buildDocument) before2)
            content) = Some a.
Proof.
  rewrite !engineAfter_fresh. unfold analyze.
  destruct (analyzeContent_total (S (List.length content)) (newEngine buildDocument)
              content ltac:(lia)) as (a & -> & _).
  exists a. split; reflexivity.
Qed.

Lemma tfidfs_fold content : forall suf pre st,
  fold_left (tfidfCallback categoryKey tfidf (pre ++ suf) content)
    (seq (List.length pre) (List.length suf)) (Returns st)
  = Returns
      (fold_left scoreStep
         (map (fun id => (categoryKey (snd id), tfidf (pre ++ suf) content (fst id)))
            (combine (seq (List.length pre) (List.length suf)) suf))
         st).
Proof.
  induction suf as [|d suf IH]; intros pre st; [reflexivity|].
  cbn [List.length seq combine map fold_left].
  unfold tfidfCallback at 2. cbn [bind].
  rewrite nth_error_app2, Nat.sub_diag by lia. cbn [nth_error fst snd].
  specialize (IH (pre ++ [d])). rewrite <- app_assoc in IH. cbn [app] in IH.
  rewrite length_app in IH. cbn [List.length] in IH.
  replace (List.length pre + 1)%nat with (S (List.length pre)) in IH by lia.
  rewrite IH. reflexivity.
Qed.

Lemma classify_by_measures (e : engine Document) content :
  classifyWithTFIDF categoryKey tfidf e content
  = let st := fold_left scoreStep (measures categoryKey tfidf e content) ([], 0%Q) in
    let best := fold_left pickBest (fst st) (0%Q, None) in
    Returns (mkClassification (snd best)
               (if Qgtb (snd st) 0 then (fst best / snd st)%Q else 0%Q)
               (fst st)).
Proof.
  unfold classifyWithTFIDF, measures.
  pose proof (tfidfs_fold content (documents e) [] ([], 0%Q)) as H.
  cbn [app List.length] in H. rewrite H. reflexivity.
Qed.

Lemma scoreStep_one_bucket (K : jsstring) : forall ms st,
  (forall km, In km ms -> fst km = K /\ (0 <= snd km)%Q) ->
  (exists v, fst st = [(K, v)] /\ (v == snd st)%Q) ->
  exists v, fst (fold_left scoreStep ms st) = [(K, v)]
            /\ (v == snd (fold_left scoreStep ms st))%Q
            /\ (snd (fold_left scoreStep ms st)
                == snd st + fold_right Qplus 0 (map (fun km => Qabs (snd km)) ms))%Q.
Proof.
  induction ms as [|[k m] ms IH]; intros st Hms (v & Hsc & Hv); cbn [fold_left map fold_right].
  - exists v. repeat split; trivial. ring.
  - destruct (Hms (k, m) (or_introl eq_refl)) as [Hk Hm]. cbn [fst snd] in Hk, Hm. subst k.
    assert (Habs : (Qabs m == m)%Q) by (apply Qabs_pos; exact Hm).
    destruct (IH (scoreStep st (K, m))) as (v' & Hsc' & Hv' & Ht').
    + intros km Hin. apply Hms. now right.
    + unfold scoreStep. cbn [fst snd]. rewrite Hsc. cbn [addScore].
      rewrite eqb_refl. eexists. split; [reflexivity|]. rewrite Hv, Habs. ring.
    + exists v'. split; [exact Hsc'|]. split; [exact Hv'|].
      rewrite Ht'. unfold scoreStep. cbn [fst snd]. ring.
Qed.

Lemma measures_fresh content :
  measures categoryKey tfidf (newEngine buildDocument) content
  = map (fun id => (categoryKey (buildDocument (fst (snd id)) (snd (snd id))),
                    tfidf (documents (newEngine buildDocument)) content (fst id)))
      (combine (seq 0 8) trainingData).
Proof. reflexivity. Qed.

(** The threats of an analysis are those of the keyword and pattern rules,
    followed by the TF-IDF one exactly when the confidence of the
    classification is strictly above the threshold of the engine. *)
Lemma analyzeContent_threats (fuel : nat) (e : engine Document) (content : jsstring) :
  (List.length content < fuel)%nat ->
  exists ths cl a,
    fold_left (checkThreatType fuel (ensureInit buildDocument e) content)
      THREAT_PATTERNS (Returns []) = Returns ths
    /\ classifyWithTFIDF categoryKey tfidf (ensureInit buildDocument e) content = Returns cl
    /\ analyzeContent buildDocument categoryKey tfidf fuel e content
       = Returns (a, ensureInit buildDocument e)
    /\ threats a =
       if Qgtb (c_confidence cl) (confidenceThreshold (ensureInit buildDocument e))
       then ths ++ [mkThreat (category cl) (c_confidence cl) [u "AI-pattern-detected"]
                      (calculateSeverity (category cl) (c_confidence cl))]
       else ths.
Proof.
  intros Hf. unfold analyzeContent.
  destruct (checkThreatTypes_return fuel (ensureInit buildDocument e) content Hf
              THREAT_PATTERNS []) as (ths & Hths).
  destruct (classify_returns (ensureInit buildDocument e) content) as (cl & Hcl).
  rewrite Hths, Hcl. cbn [bind].
  eexists ths, cl, _. split; [reflexivity|]. split; [reflexivity|].
  split; reflexivity.
Qed.

Lemma calculateSeverity_undefined (c : Q) :
  calculateSeverity (Some (u "undefined")) c = low.
Proof.
  unfold calculateSeverity.
  change (isType (Some (u "undefined")) "phishing") with false.
  change (isType (Some (u "undefined")) "malware") with false.
  change (isType (Some (u "undefined")) "financial_scam") with false.
  change (isType (Some (u "undefined")) "social_engineering") with false.
  change (isType (Some (u "undefined")) "predator_behavior") with false.
  destruct (Qgtb c (9 # 10)); reflexivity.
Qed.

(** C5, on the engine as it runs when the stored documents have no
    [category] property (every measure is then filed under the one key
    "undefined") and no measure is negative: for every text with a positive
    total, whatever the split of the measures over the training categories,
    [classifyWithTFIDF] answers the category "undefined" with confidence 1,
    and [analyzeContent] ends its threats with one of that type. *)
Theorem classifyWithTFIDF_single_bucket (content : jsstring) :
  (forall text key, categoryKey (buildDocument text key) = u "undefined") ->
  (forall i, (0 <= tfidf (documents (newEngine buildDocument)) content i)%Q) ->
  (0 < totalMeasure categoryKey tfidf (newEngine buildDocument) content)%Q ->
  exists cl a ths,
    classifyWithTFIDF categoryKey tfidf (newEngine buildDocument) content = Returns cl
    /\ category cl = Some (u "undefined")
    /\ (c_confidence cl == 1)%Q
    /\ analysisOf (analyze buildDocument categoryKey tfidf (newEngine buildDocument) content)
       = Some a
    /\ threats a = ths ++ [mkThreat (Some (u "undefined")) (c_confidence cl)
                             [u "AI-pattern-detected"] low].
Proof.
  intros Hkey Hm Htot.
  assert (Hcl : exists cl,
             classifyWithTFIDF categoryKey tfidf (newEngine buildDocument) content
             = Returns cl
             /\ category cl = Some (u "undefined") /\ (c_confidence cl == 1)%Q).
  { rewrite classify_by_measures. cbv zeta. unfold totalMeasure in Htot.
    set (ms := measures categoryKey tfidf (newEngine buildDocument) content) in *.
    assert (Hms : forall km, In km ms -> fst km = u "undefined" /\ (0 <= snd km)%Q).
    { intros km Hin. unfold ms in Hin. rewrite measures_fresh in Hin.
      apply in_map_iff in Hin. destruct Hin as (id & <- & _). cbn [fst snd].
      split; [apply Hkey | apply Hm]. }
    destruct ms as [|[k0 m0] ms'] eqn:Ems; [discriminate|].
    cbn [fold_left].
    destruct (Hms (k0, m0) (or_introl eq_refl)) as [Hk0 Hm0]. cbn [fst snd] in Hk0, Hm0.
    subst k0.
    assert (Habs : (Qabs m0 == m0)%Q) by (apply Qabs_pos; exact Hm0).
    destruct (scoreStep_one_bucket (u "undefined") ms'
                (scoreStep ([], 0%Q) (u "undefined", m0))) as (v & Hsc & Hv & Ht).
    - intros km Hin. apply Hms. now right.
    - unfold scoreStep. cbn [fst snd addScore]. eexists. split; [reflexivity|].
      rewrite Habs. ring.
    - set (st := fold_left scoreStep ms' (scoreStep ([], 0%Q) (u "undefined", m0))) in *.
      assert (Hpos : (0 < snd st)%Q).
      { rewrite Ht. unfold scoreStep. cbn [fst snd].
        cbn [map fold_right snd] in Htot. lra. }
      rewrite Hsc. cbn [fold_left]. unfold pickBest. cbn [fst snd].
      assert (Hgv : Qgtb v 0 = true) by (apply Qgtb_lt; lra).
      assert (Hgt : Qgtb (snd st) 0 = true) by (apply Qgtb_lt; exact Hpos).
      rewrite Hgv, Hgt. eexists. split; [reflexivity|]. cbn [category c_confidence fst snd].
      split; [reflexivity|]. rewrite Hv. field. lra. }
  destruct Hcl as (cl & Hcl & Hcat & Hconf).
  destruct (analyzeContent_threats (S (List.length content)) (newEngine buildDocument)
              content ltac:(lia)) as (ths & cl' & a & _ & Hcl' & Ha & Hths).
  change (ensureInit buildDocument (newEngine buildDocument))
    with (newEngine buildDocument) in *.
  rewrite Hcl in Hcl'. inversion Hcl'; subst cl'.
  exists cl, a, ths. repeat split; trivial.
  - unfold analyze. rewrite Ha. reflexivity.
  - rewrite Hths.
    assert (Hg : Qgtb (c_confidence cl) (confidenceThreshold (newEngine buildDocument))
                 = true).
    { apply Qgtb_lt. change (confidenceThreshold (newEngine buildDocument)) with (7 # 10).
      rewrite Hconf. reflexivity. }
    rewrite Hg, Hcat, calculateSeverity_undefined. reflexivity.
Qed.
(** What [classifyWithTFIDF] computes when the stored documents do carry
    their key under [category], and no measure is negative: the scores are
    the per-category sums of the measures; with a positive total, the
    category returned has the greatest sum and the confidence is that sum
    over the total; with a zero total, no category and confidence 0. *)
Lemma classifyWithTFIDF_per_category (content : jsstring) :
  (forall text key, categoryKey (buildDocument text key) = key) ->
  (forall i, (0 <= tfidf (documents (newEngine buildDocument)) content i)%Q) ->
  let e := newEngine buildDocument in
  let total := totalMeasure categoryKey tfidf e content in
  let sum := categorySum categoryKey tfidf e content in
  exists cl,
    classifyWithTFIDF categoryKey tfidf e content = Returns cl
    /\ map fst (scores cl) = trainingCategories
    /\ (forall k v, In (k, v) (scores cl) -> (v == sum k)%Q)
    /\ ((0 < total)%Q ->
        exists k, category cl = Some k
          /\ In k trainingCategories
          /\ (forall k', In k' trainingCategories -> (sum k' <= sum k)%Q)
          /\ (c_confidence cl == sum k / total)%Q)
    /\ (~ (0 < total)%Q -> category cl = None /\ (c_confidence cl == 0)%Q).
Proof.
  intros Hkey Hm e total sum.
  rewrite classify_by_measures. cbv zeta.
  unfold total, sum, totalMeasure, categorySum, e.
  rewrite measures_fresh.
  cbn [combine seq trainingData map fst snd]. rewrite !Hkey.
  set (docs := documents (newEngine buildDocument)) in *.
  pose proof (Hm 0%nat) as H0. pose proof (Hm 1%nat) as H1.
  pose proof (Hm 2%nat) as H2. pose proof (Hm 3%nat) as H3.
  pose proof (Hm 4%nat) as H4. pose proof (Hm 5%nat) as H5.
  pose proof (Hm 6%nat) as H6. pose proof (Hm 7%nat) as H7.
  generalize dependent (tfidf docs content 0). intros m0 H0.
  generalize dependent (tfidf docs content 1). intros m1 H1.
  generalize dependent (tfidf docs content 2). intros m2 H2.
  generalize dependent (tfidf docs content 3). intros m3 H3.
  generalize dependent (tfidf docs content 4). intros m4 H4.
  generalize dependent (tfidf docs content 5). intros m5 H5.
  generalize dependent (tfidf docs content 6). intros m6 H6.
  generalize dependent (tfidf docs content 7). intros m7 H7.
  clear Hm docs.
  pose proof (Qabs_pos _ H0) as A0. pose proof (Qabs_pos _ H1) as A1.
  pose proof (Qabs_pos _ H2) as A2. pose proof (Qabs_pos _ H3) as A3.
  pose proof (Qabs_pos _ H4) as A4. pose proof (Qabs_pos _ H5) as A5.
  pose proof (Qabs_pos _ H6) as A6. pose proof (Qabs_pos _ H7) as A7.
  rewrite scoreStep_four by reflexivity.
  destruct (categorySum_four (u "phishing") (u "malware") (u "financial_scam")
              (u "predator_behavior") m0 m1 m2 m3 m4 m5 m6 m7)
    as (S1 & S2 & S3 & S4); try reflexivity.
  cbv beta in S1, S2, S3, S4.
  cbn [fst snd map fold_right].
  destruct (pickBest_four (u "phishing") (u "malware") (u "financial_scam")
              (u "predator_behavior") (0 + m0 + m1) (0 + m2 + m3) (0 + m4 + m5)
              (0 + m6 + m7)) as ((B1 & B2 & B3 & B4) & Hbest).
  set (best := fold_left pickBest _ _) in *.
  eexists. split; [reflexivity|]. cbn [scores category c_confidence].
  split; [reflexivity|]. split.
  { intros k v [E|[E|[E|[E|[]]]]]; inversion E; subst k v; symmetry; assumption. }
  split.
  - intros Htot.
    assert (Hg : Qgtb (0 + Qabs m0 + Qabs m1 + Qabs m2 + Qabs m3 + Qabs m4 + Qabs m5
                       + Qabs m6 + Qabs m7) 0 = true) by (apply Qgtb_lt; lra).
    rewrite Hg.
    destruct Hbest as [[Hb _]|[(Hb & Hc & _)|[(Hb & Hc & _)|[(Hb & Hc & _)|(Hb & Hc & _)]]]];
      rewrite Hb in *; [exfalso; lra| | | |].
    + exists (u "phishing"). rewrite Hc. split; [reflexivity|].
      split; [cbn; auto|]. split.
      * intros k' [<-|[<-|[<-|[<-|[]]]]]; lra.
      * rewrite S1. apply Qdiv_comp; [reflexivity | ring].
    + exists (u "malware"). rewrite Hc. split; [reflexivity|].
      split; [cbn; auto|]. split.
      * intros k' [<-|[<-|[<-|[<-|[]]]]]; lra.
      * rewrite S2. apply Qdiv_comp; [reflexivity | ring].
    + exists (u "financial_scam"). rewrite Hc. split; [reflexivity|].
      split; [cbn; auto|]. split.
      * intros k' [<-|[<-|[<-|[<-|[]]]]]; lra.
      * rewrite S3. apply Qdiv_comp; [reflexivity | ring].
    + exists (u "predator_behavior"). rewrite Hc. split; [reflexivity|].
      split; [cbn; auto 6|]. split.
      * intros k' [<-|[<-|[<-|[<-|[]]]]]; lra.
      * rewrite S4. apply Qdiv_comp; [reflexivity | ring].
  - intros Htot.
    assert (Hg : Qgtb (0 + Qabs m0 + Qabs m1 + Qabs m2 + Qabs m3 + Qabs m4 + Qabs m5
                       + Qabs m6 + Qabs m7) 0 = false) by (apply Qgtb_le; lra).
    rewrite Hg. split; [|reflexivity].
    destruct Hbest as [[_ Hc]|[(_ & _ & Hp)|[(_ & _ & Hp)|[(_ & _ & Hp)|(_ & _ & Hp)]]]];
      [exact Hc | exfalso; lra ..].
Qed.

End EngineFacts.

(** The totality theorem on the sample text, with the stand-in package. *)
Lemma analyzeContent_returns_witness :
  exists a e',
    analyzeContent pair snd containsMeasure 100 (newEngine pair) samplePhish
    = Returns (a, e')
    /\ a_confidence a = calculateOverallConfidence (threats a)
    /\ In (riskLevel a) [low; medium; high; critical]
    /\ a_indicators a = []
    /\ recommendations a = generateRecommendations (threats a).
Proof.
  exact (analyzeContent_returns pairDocument pair snd containsMeasure 100
           (newEngine pair) samplePhish ltac:(vm_compute; lia)).
Defined.

Lemma containsMeasure_nonneg docs content i : (0 <= containsMeasure docs content i)%Q.
Proof.
  unfold containsMeasure. destruct (nth_error docs i) as [[text key]|]; [|lra].
  destruct (includes text content); lra.
Qed.

(** The single-key theorem on the text "virus", with the stand-in package
    and documents without a [category] property. *)
Lemma classifyWithTFIDF_single_bucket_witness :
  exists cl a ths,
    classifyWithTFIDF noCategory containsMeasure (newEngine pair) (u "virus") = Returns cl
    /\ category cl = Some (u "undefined")
    /\ (c_confidence cl == 1)%Q
    /\ analysisOf (analyze pair noCategory containsMeasure (newEngine pair) (u "virus"))
       = Some a
    /\ threats a = ths ++ [mkThreat (Some (u "undefined")) (c_confidence cl)
                             [u "AI-pattern-detected"] low].
Proof.
  exact (classifyWithTFIDF_single_bucket pairDocument pair noCategory containsMeasure
           (u "virus") (fun _ _ => eq_refl)
           (containsMeasure_nonneg _ _) ltac:(vm_compute; reflexivity)).
Defined.

End DetectionFacts.

(* ================================================================== *)
(** * Pagination ([HelperUtils.paginate]) *)
(* ================================================================== *)

Module Helpers.

(** What [Math.ceil(array.length / limit)] can be: an integer, or one of the
    two special values a division by zero produces. *)
Inductive jsnum : Type :=
| Int (z : Z)
| Infinity
| NaN.

(** [Math.ceil(len / limit)] for an array length [len >= 0] and an integral
    [limit]. *)
Definition ceil_div (len limit : Z) : jsnum :=
  if limit =? 0 then (if len =? 0 then NaN else Infinity)
  else Int (Qceiling (inject_Z len / inject_Z limit)).

(** [Array.prototype.slice(start, end)] on integral arguments: a negative
    index counts from the end, every index is clamped to [0 .. length]. *)
Definition slice {A : Type} (array : list A) (start finish : Z) : list A :=
  let len := Z.of_nat (length array) in
  let k := if start <? 0 then Z.max (len + start) 0 else Z.min start len in
  let final := if finish <? 0 then Z.max (len + finish) 0 else Z.min finish len in
  firstn (Z.to_nat (final - k)) (skipn (Z.to_nat k) array).

Record pageRef : Type := mkPageRef { ref_page : Z; ref_limit : Z }.

(** The [results] object; an absent [next]/[previous] property is [None]. *)
Record pageResult (A : Type) : Type := mkPageResult {
  next : option pageRef;
  previous : option pageRef;
  total : Z;
  totalPages : jsnum;
  currentPage : Z;
  data : list A
}.

Arguments mkPageResult {A}.
Arguments next {A}.
Arguments previous {A}.
Arguments total {A}.
Arguments totalPages {A}.
Arguments currentPage {A}.
Arguments data {A}.

Definition paginate {A : Type} (array : list A) (page limit : Z) : pageResult A :=
  let startIndex := (page - 1) * limit in
  let endIndex := page * limit in
  let len := Z.of_nat (length array) in
  {| next := if endIndex <? len then Some (mkPageRef (page + 1) limit) else None;
     previous := if 0 <? startIndex then Some (mkPageRef (page - 1) limit) else None;
     total := len;
     totalPages := ceil_div len limit;
     currentPage := page;
     data := slice array startIndex endIndex |}.

(** The pages [1 .. n], as the caller would request them. *)
Definition pageNumbers (n : Z) : list Z :=
  map Z.of_nat (seq 1 (Z.to_nat n)).

(** ** Proofs *)

Lemma firstn_plus {A : Type} (n m : nat) (l : list A) :
  firstn (n + m) l = firstn n l ++ firstn m (skipn n l).
Proof.
  revert l; induction n as [|n IH]; intros l; simpl.
  - reflexivity.
  - destruct l as [|x l]; simpl.
    + now rewrite firstn_nil.
    + now rewrite IH.
Qed.

Lemma Qceiling_div_bounds (len limit : Z) :
  0 < limit ->
  let c := Qceiling (inject_Z len / inject_Z limit) in
  (c - 1) * limit < len <= c * limit.
Proof.
  intros Hl c.
  assert (Hq : (inject_Z len / inject_Z limit == len # Z.to_pos limit)%Q).
  { unfold Qdiv, Qinv, inject_Z, Qeq, Qmult; simpl.
    destruct limit as [|p|p]; try lia; simpl. lia. }
  assert (Hc : c = Qceiling (len # Z.to_pos limit)).
  { unfold c. now rewrite Hq. }
  rewrite Hc. unfold Qceiling, Qfloor. simpl.
  rewrite Z2Pos.id by lia.
  pose proof (Z.div_mod (- len) limit ltac:(lia)) as Hd.
  pose proof (Z.mod_pos_bound (- len) limit Hl) as Hm.
  nia.
Qed.

Lemma slice_in_range {A : Type} (array : list A) (s e : Z) :
  0 <= s <= e ->
  slice array s e = firstn (Z.to_nat (e - s)) (skipn (Z.to_nat s) array).
Proof.
  intros H. unfold slice.
  destruct (Z.ltb_spec s 0) as [?|_]; [lia|].
  destruct (Z.ltb_spec e 0) as [?|_]; [lia|].
  set (len := Z.of_nat (length array)).
  destruct (Z.le_gt_cases len s) as [Hs|Hs].
  - rewrite (Z.min_r s len) by lia.
    rewrite (skipn_all2 (n := Z.to_nat len) array) by (subst len; lia).
    rewrite (skipn_all2 (n := Z.to_nat s) array) by (subst len; lia).
    now rewrite !firstn_nil.
  - rewrite (Z.min_l s len) by lia.
    destruct (Z.le_gt_cases e len) as [He|He].
    + now rewrite (Z.min_l e len) by lia.
    + rewrite (Z.min_r e len) by lia.
      rewrite !firstn_all2; trivial; rewrite length_skipn; subst len; lia.
Qed.

Lemma pages_cover {A : Type} (array : list A) (limit : Z) (n : nat) :
  0 < limit ->
  concat (map (fun p => data (paginate array p limit)) (map Z.of_nat (seq 1 n)))
  = firstn (n * Z.to_nat limit) array.
Proof.
  intros Hl. induction n as [|n IH].
  - reflexivity.
  - rewrite seq_S, !map_app, concat_app, IH.
    cbn [map concat]. unfold paginate at 1. cbn [data].
    rewrite app_nil_r, slice_in_range by nia.
    replace (Z.to_nat (Z.of_nat (1 + n) * limit - (Z.of_nat (1 + n) - 1) * limit))
      with (Z.to_nat limit) by nia.
    replace (Z.to_nat ((Z.of_nat (1 + n) - 1) * limit))
      with (n * Z.to_nat limit)%nat by nia.
    rewrite <- firstn_plus. f_equal. lia.
Qed.

(** C10.  For an integral [limit >= 1] and a [page] between 1 and the reported
    [totalPages], [paginate] reports the array's length as [total], the
    ceiling of [length / limit] as [totalPages], the elements from index
    [(page-1)*limit] up to (excluding) [page*limit] as [data], a [next] marker
    exactly when [page*limit < length] and a [previous] marker exactly when
    [page > 1]; and the [data] of the pages [1 .. totalPages], concatenated,
    are the array. *)
Theorem paginate_pages {A : Type} (array : list A) (page limit pages : Z) :
  1 <= limit ->
  totalPages (paginate array page limit) = Int pages ->
  1 <= page <= pages ->
  let r := paginate array page limit in
  let len := Z.of_nat (length array) in
  total r = len
  /\ (pages - 1) * limit < len <= pages * limit
  /\ data r = firstn (Z.to_nat limit) (skipn (Z.to_nat ((page - 1) * limit)) array)
  /\ (next r = Some (mkPageRef (page + 1) limit) <-> page * limit < len)
  /\ (next r = None <-> len <= page * limit)
  /\ (previous r = Some (mkPageRef (page - 1) limit) <-> 1 < page)
  /\ (previous r = None <-> page = 1)
  /\ concat (map (fun p => data (paginate array p limit)) (pageNumbers pages)) = array.
Proof.
  intros Hl Htp Hp r len.
  assert (Hpages : pages = Qceiling (inject_Z len / inject_Z limit)).
  { unfold paginate, ceil_div in Htp; simpl in Htp.
    destruct (Z.eqb_spec limit 0) as [?|_]; [lia|]. now inversion Htp. }
  pose proof (Qceiling_div_bounds len limit ltac:(lia)) as Hb.
  simpl in Hb. rewrite <- Hpages in Hb.
  repeat split.
  - exact (proj1 Hb).
  - exact (proj2 Hb).
  - unfold r, paginate; simpl. rewrite slice_in_range by nia.
    f_equal. f_equal. nia.
  - unfold r, paginate; simpl. fold len.
    destruct (Z.ltb_spec (page * limit) len); [trivial | discriminate].
  - unfold r, paginate; simpl. fold len.
    destruct (Z.ltb_spec (page * limit) len); [trivial | lia].
  - unfold r, paginate; simpl. fold len.
    destruct (Z.ltb_spec (page * limit) len); [discriminate | lia].
  - unfold r, paginate; simpl. fold len.
    destruct (Z.ltb_spec (page * limit) len); [lia | trivial].
  - unfold r, paginate; simpl.
    destruct (Z.ltb_spec 0 ((page - 1) * limit)); [nia | discriminate].
  - unfold r, paginate; simpl.
    destruct (Z.ltb_spec 0 ((page - 1) * limit)); [trivial | nia].
  - unfold r, paginate; simpl.
    destruct (Z.ltb_spec 0 ((page - 1) * limit)); [discriminate | nia].
  - unfold r, paginate; simpl.
    destruct (Z.ltb_spec 0 ((page - 1) * limit)); [nia | trivial].
  - unfold pageNumbers. rewrite pages_cover by lia.
    apply firstn_all2. subst len. nia.
Qed.

(** The pagination theorem at the second of the three pages of a
    five-element array. *)
Lemma paginate_pages_witness :
  let array := [10; 20; 30; 40; 50] in
  let r := paginate array 2 2 in
  total r = 5
  /\ (3 - 1) * 2 < 5 <= 3 * 2
  /\ data r = [30; 40]
  /\ (next r = Some (mkPageRef 3 2) <-> 2 * 2 < 5)
  /\ (next r = None <-> 5 <= 2 * 2)
  /\ (previous r = Some (mkPageRef 1 2) <-> 1 < 2)
  /\ (previous r = None <-> 2 = 1)
  /\ concat (map (fun p => data (paginate array p 2)) (pageNumbers 3)) = array.
Proof.
  exact (paginate_pages [10; 20; 30; 40; 50] 2 2 3
           ltac:(lia) eq_refl ltac:(lia)).
Defined.

End Helpers.

(* ================================================================== *)
(** * Game sessions ([gameSessionSchema]) *)
(* ================================================================== *)

Module GameSession.
Import JS.

Inductive difficulty : Type := easy | medium | hard | expert.

(** An element of [sessionData.questions]. *)
Record questionData : Type := mkQuestion {
  questionId : jsstring;
  userAnswer : jsstring;
  isCorrect : bool;
  timeTaken : Z
}.

(** The fields of a session document that its methods read or write.  Times
    are in milliseconds; [endTime] is absent until the session is completed. *)
Record session : Type := mkSession {
  s_difficulty : difficulty;
  score : Q;
  timeSpent : Z;
  correctAnswers : Z;
  totalQuestions : Z;
  accuracy : Z;
  completed : bool;
  questions : list questionData;
  startTime : Z;
  endTime : option Z
}.

(** The schema's ranges for [score] and [accuracy]. *)
Definition scoreMin : Q := 0.
Definition scoreMax : Q := 1000.
Definition accuracyMin : Z := 0.
Definition accuracyMax : Z := 100.

(** [Math.round] of a rational. *)
Definition round (x : Q) : Z := Qfloor (x + (1 # 2)).

(** [Math.max] of two rationals. *)
Definition Qmax (x y : Q) : Q := if Qle_bool x y then y else x.

(** [GameSession.create({ gameType, difficulty, ..., sessionData: { startTime:
    new Date(), questions: [] } })]: the other fields take their defaults. *)
Definition create (d : difficulty) (now : Z) : session :=
  {| s_difficulty := d; score := 0; timeSpent := 0; correctAnswers := 0;
     totalQuestions := 0; accuracy := 0; completed := false; questions := [];
     startTime := now; endTime := None |}.

Definition difficultyMultiplier (d : difficulty) : Q :=
  match d with
  | easy => 1
  | medium => 3 # 2
  | hard => 2
  | expert => 3
  end.

Definition calculateScore (s : session) : session :=
  let baseScore := inject_Z (correctAnswers s * 10) in
  let accuracyBonus := inject_Z (accuracy s * 2) in
  let timePenalty := Qmax 0 (inject_Z (timeSpent s - 300) / 10) in
  {| s_difficulty := s_difficulty s;
     score :=
       Qmax 0 ((baseScore + accuracyBonus) * difficultyMultiplier (s_difficulty s)
               - timePenalty);
     timeSpent := timeSpent s; correctAnswers := correctAnswers s;
     totalQuestions := totalQuestions s; accuracy := accuracy s;
     completed := completed s; questions := questions s;
     startTime := startTime s; endTime := endTime s |}.

Definition addQuestionResult (s : session) (q : questionData) : session :=
  calculateScore
    {| s_difficulty := s_difficulty s; score := score s; timeSpent := timeSpent s;
       correctAnswers := if isCorrect q then correctAnswers s + 1 else correctAnswers s;
       totalQuestions := totalQuestions s + 1;
       accuracy := accuracy s; completed := completed s;
       questions := questions s ++ [q];
       startTime := startTime s; endTime := endTime s |}.

(** [completeSession], with the clock reading [now] of its [new Date()]. *)
Definition completeSession (s : session) (now : Z) : session :=
  calculateScore
    {| s_difficulty := s_difficulty s; score := score s;
       timeSpent := round (inject_Z (now - startTime s) / 1000);
       correctAnswers := correctAnswers s; totalQuestions := totalQuestions s;
       accuracy := accuracy s; completed := true; questions := questions s;
       startTime := startTime s; endTime := Some now |}.

(** The [pre('save')] hook. *)
Definition preSave (s : session) : session :=
  if 0 <? totalQuestions s then
    {| s_difficulty := s_difficulty s; score := score s; timeSpent := timeSpent s;
       correctAnswers := correctAnswers s; totalQuestions := totalQuestions s;
       accuracy :=
         round (inject_Z (correctAnswers s) / inject_Z (totalQuestions s) * 100);
       completed := completed s; questions := questions s;
       startTime := startTime s; endTime := endTime s |}
  else s.

(** What can happen to a session document. *)
Inductive call : Type :=
| AddQuestionResult (q : questionData)
| CompleteSession (now : Z)
| Save.

Definition step (s : session) (c : call) : session :=
  match c with
  | AddQuestionResult q => addQuestionResult s q
  | CompleteSession now => completeSession s now
  | Save => preSave s
  end.

Definition after (s : session) (calls : list call) : session := fold_left step calls s.

(** The part of the schema's ranges that the methods keep: the score is not
    negative, the accuracy is within its range, and the correct answers are
    among the questions asked. *)
Definition sound (s : session) : Prop :=
  (scoreMin <= score s)%Q
  /\ accuracyMin <= accuracy s <= accuracyMax
  /\ 0 <= correctAnswers s <= totalQuestions s.

(** A correct answer, and thirty-four of them in a row. *)
Definition rightAnswer : questionData :=
  mkQuestion (u "ss_easy_1") (u "Ignore and delete the email") true 5.

Definition thirtyFourRight : list call := repeat (AddQuestionResult rightAnswer) 34.

(** Fourteen correct answers, each saved as the answer route does. *)
Definition fourteenRightSaved : list call :=
  concat (repeat [AddQuestionResult rightAnswer; Save] 14).

(** ** Proofs *)

Lemma Qmax_lower (x y : Q) : (x <= Qmax x y)%Q.
Proof.
  unfold Qmax. destruct (Qle_bool x y) eqn:E; [now apply Qle_bool_iff | apply Qle_refl].
Qed.

Lemma round_bounds (c t : Z) :
  0 <= c <= t -> 0 < t -> 0 <= round (inject_Z c / inject_Z t * 100) <= 100.
Proof.
  intros Hc Ht. unfold round.
  set (x := (inject_Z c / inject_Z t * 100 + (1 # 2))%Q).
  assert (Hq : (inject_Z c / inject_Z t == c # Z.to_pos t)%Q).
  { destruct t as [|p|p]; try lia.
    unfold Qdiv, Qinv, Qmult, Qeq, inject_Z; simpl. lia. }
  assert (H0 : (0 <= inject_Z c / inject_Z t)%Q).
  { rewrite Hq. unfold Qle; simpl. lia. }
  assert (H1 : (inject_Z c / inject_Z t <= 1)%Q).
  { rewrite Hq. unfold Qle; simpl. rewrite Z2Pos.id by lia. lia. }
  split.
  - change 0 with (Qfloor 0). apply Qfloor_resp_le. unfold x. lra.
  - assert (Hlt : (inject_Z (Qfloor x) < inject_Z 101)%Q).
    { eapply Qle_lt_trans; [apply Qfloor_le|]. unfold x.
      change (inject_Z 101) with 101%Q. lra. }
    rewrite <- Zlt_Qlt in Hlt. lia.
Qed.

Lemma step_sound (s : session) (c : call) : sound s -> sound (step s c).
Proof.
  unfold sound, scoreMin, accuracyMin, accuracyMax. intros (Hs & Ha & Hc).
  destruct c as [q|now|]; cbn [step].
  - unfold addQuestionResult, calculateScore;
      cbn [score accuracy correctAnswers totalQuestions].
    split; [apply Qmax_lower|]. split; [exact Ha|].
    destruct (isCorrect q); lia.
  - unfold completeSession, calculateScore;
      cbn [score accuracy correctAnswers totalQuestions].
    split; [apply Qmax_lower|]. split; [exact Ha | exact Hc].
  - unfold preSave. destruct (Z.ltb_spec 0 (totalQuestions s)) as [Ht|Ht];
      cbn [score accuracy correctAnswers totalQuestions].
    + split; [exact Hs|]. split; [|exact Hc]. apply round_bounds; lia.
    + split; [exact Hs|]. split; [exact Ha | exact Hc].
Qed.

(** Every session reachable from a fresh one by [addQuestionResult],
    [completeSession] and saves keeps its score at or above 0, its accuracy
    within 0 .. 100, and its correct answers among the questions asked. *)
Theorem reachable_sound (d : difficulty) (now : Z) (calls : list call) :
  sound (after (create d now) calls).
Proof.
  unfold after.
  assert (H : sound (create d now)).
  { unfold sound, create, scoreMin, accuracyMin, accuracyMax; cbn.
    repeat split; try lia. apply Qle_refl. }
  revert H. generalize (create d now) as s.
  induction calls as [|c calls IH]; intros s H; cbn [fold_left]; [exact H|].
  apply IH. now apply step_sound.
Qed.

(** C6 at its failing inputs: after thirty-four correct answers an expert
    session has the score 1020, above the schema's maximum of 1000 (its
    accuracy, never saved, is still 0); with a save after every answer, as
    the answer route does, fourteen correct answers give the same score. *)
Theorem score_exceeds_schema_maximum :
  let s := after (create expert 0) thirtyFourRight in
  let s' := after (create expert 0) fourteenRightSaved in
  ((score s == 1020)%Q /\ (scoreMax < score s)%Q /\ accuracy s = 0)
  /\ ((score s' == 1020)%Q /\ (scoreMax < score s')%Q /\ accuracy s' = 100).
Proof.
  cbv zeta. repeat split; vm_compute; reflexivity.
Qed.

End GameSession.

(* ================================================================== *)
(** * Request validation ([handleValidationErrors]) *)
(* ================================================================== *)

Module Validation.
Import JS.

(** An entry of [validationResult(req).array()]. *)
Record fieldError : Type := mkFieldError {
  param : jsstring;
  msg : jsstring
}.

(** A request: its payload, and the errors the validation chains that ran
    before have recorded on it (what [validationResult(req)] reads). *)
Record request (Payload : Type) : Type := mkRequest {
  payload : Payload;
  recorded : list fieldError
}.

Arguments mkRequest {Payload}.
Arguments payload {Payload}.
Arguments recorded {Payload}.

Record errorBody : Type := mkErrorBody {
  status : jsstring;
  message : jsstring;
  errors : list fieldError
}.

(** What a middleware does with a request: it sends a response, or it calls
    [next()]. *)
Inductive outcome (Payload Body : Type) : Type :=
| Responds (code : Z) (body : Body)
| Next (req : request Payload).

Arguments Responds {Payload Body}.
Arguments Next {Payload Body}.

Section Routes.

Variable Payload : Type.

(** [errors.isEmpty()] *)
Definition isEmpty (errs : list fieldError) : bool :=
  match errs with
  | [] => true
  | _ :: _ => false
  end.

Definition handleValidationErrors (req : request Payload) : outcome Payload errorBody :=
  let errs := recorded req in
  if negb (isEmpty errs)
  then Responds 400 (mkErrorBody (u "error") (u "Validation failed") errs)
  else Next req.

(** A declared rule: what its validation chain does to a payload.  It may
    sanitise the field it names ([trim], [normalizeEmail]), and it reports
    the errors it finds (none when the field passes).  As a middleware, the
    chain records these errors on the request and always calls [next()]. *)
Definition rule : Type := Payload -> Payload * list fieldError.

Definition runRule (r : rule) (req : request Payload) : request Payload :=
  mkRequest (fst (r (payload req))) (recorded req ++ snd (r (payload req))).

(** How a guarded route ends: with the response of the guard, or in the
    route handler, with the request it was handed. *)
Inductive routeResult : Type :=
| Rejected (code : Z) (body : errorBody)
| Handled (req : request Payload).

(** A route declared as [[...rules, handleValidationErrors], handler]. *)
Definition runRoute (rules : list rule) (req : request Payload) : routeResult :=
  match handleValidationErrors (fold_left (fun rq r => runRule r rq) rules req) with
  | Responds code body => Rejected code body
  | Next req' => Handled req'
  end.

(** All that the rules find in a payload, in the order of the rules, each
    rule seeing the payload as the rules before it left it; and the payload
    as the last rule leaves it. *)
Fixpoint findings (rules : list rule) (p : Payload) : list fieldError :=
  match rules with
  | [] => []
  | r :: rest => snd (r p) ++ findings rest (fst (r p))
  end.

Fixpoint sanitized (rules : list rule) (p : Payload) : Payload :=
  match rules with
  | [] => p
  | r :: rest => sanitized rest (fst (r p))
  end.

End Routes.

Arguments handleValidationErrors {Payload}.
Arguments runRule {Payload}.
Arguments runRoute {Payload}.
Arguments findings {Payload}.
Arguments sanitized {Payload}.
Arguments Rejected {Payload}.
Arguments Handled {Payload}.

(** ** Proofs *)

Lemma rules_record {Payload : Type} (rules : list (rule Payload)) :
  forall req : request Payload,
    fold_left (fun rq r => runRule r rq) rules req
    = mkRequest (sanitized rules (payload req))
        (recorded req ++ findings rules (payload req)).
Proof.
  induction rules as [|r rules IH]; intros [p errs]; cbn [fold_left findings sanitized].
  - cbn. now rewrite app_nil_r.
  - rewrite IH. unfold runRule. cbn [payload recorded]. now rewrite app_assoc.
Qed.

(** C7.  On an incoming request (nothing recorded yet): when some declared
    rule fails, that is when the rules find an error, the route answers 400
    with status "error" and the array of the field errors, and the handler is
    not reached; when every rule passes, the handler is reached, with the
    request as the rules left it.  The guard itself answers 400 with the
    recorded errors exactly when there are any, and otherwise calls [next]
    on the request it was given, unchanged, and sends nothing. *)
Theorem handleValidationErrors_guard {Payload : Type}
    (rules : list (rule Payload)) (p : Payload) :
  let req := mkRequest p [] in
  (findings rules p <> [] ->
     runRoute rules req
     = Rejected 400 (mkErrorBody (u "error") (u "Validation failed") (findings rules p)))
  /\ (findings rules p = [] ->
        runRoute rules req = Handled (mkRequest (sanitized rules p) []))
  /\ (forall rq : request Payload,
        (recorded rq <> [] ->
           handleValidationErrors rq
           = Responds 400 (mkErrorBody (u "error") (u "Validation failed") (recorded rq)))
        /\ (recorded rq = [] -> handleValidationErrors rq = Next rq)).
Proof.
  cbv zeta. unfold runRoute. rewrite rules_record. cbn [payload recorded app].
  split; [|split].
  - intros Hne. unfold handleValidationErrors. cbn [recorded].
    destruct (findings rules p) as [|e errs]; [congruence | reflexivity].
  - intros ->. reflexivity.
  - intros rq. unfold handleValidationErrors.
    destruct (recorded rq) as [|e errs] eqn:E; cbn [isEmpty negb]; split; intros H;
      try reflexivity; try congruence.
Qed.

End Validation.

(* ================================================================== *)
(** * Bearer-token guard ([protect]) *)
(* ================================================================== *)

Module Auth.
Import JS.

(** The two request headers [protect] reads; an absent header is [None]. *)
Record headers : Type := mkHeaders {
  authorization : option jsstring;
  x_truthshield_token : option jsstring
}.

(** The payload [jwt.verify] returns. *)
Record decoded : Type := mkDecoded {
  id : jsstring;
  iat : Z
}.

Record errorBody : Type := mkErrorBody {
  status : jsstring;
  message : jsstring
}.

(** A value used as a condition: [undefined] and the empty string are
    falsy. *)
Definition truthy (v : option jsstring) : bool :=
  match v with
  | Some (_ :: _) => true
  | _ => false
  end.

(** [s.split(sep)] for a separator of one code unit. *)
Fixpoint split (sep : Z) (s : jsstring) : list jsstring :=
  match s with
  | [] => [[]]
  | c :: r =>
      if c =? sep then [] :: split sep r
      else
        match split sep r with
        | h :: t => (c :: h) :: t
        | [] => [[c]]
        end
  end.

(** The token of an [Authorization: Bearer ...] header, if the request
    carries one. *)
Definition bearerToken (h : headers) : option jsstring :=
  match authorization h with
  | Some auth =>
      if truthy (Some auth) && startsWith auth (u "Bearer")
      then nth_error (split 32 auth) 1
      else None
  | None => None
  end.

(** The [let token; if ... else if ...] at the head of [protect]. *)
Definition extractToken (h : headers) : option jsstring :=
  match authorization h with
  | Some auth =>
      if truthy (Some auth) && startsWith auth (u "Bearer")
      then nth_error (split 32 auth) 1
      else if truthy (x_truthshield_token h) then x_truthshield_token h else None
  | None =>
      if truthy (x_truthshield_token h) then x_truthshield_token h else None
  end.

Section Protect.

(** The packages and the model behind the guard:
    - [verify token secret] is [jwt.verify], [None] when it throws;
    - [findById] is the user lookup: it resolves with a document or with
      [null], or it rejects;
    - [changedPasswordAfter] is the method of the user document, for a user
      model that defines one.  The user model of the repository defines
      none: [protect] as it runs on that model is [AuthGuards.protectOn]
      below, and this definition is what it comes to on a model with the
      method. *)
Variable User : Type.
Variable JWT_SECRET : jsstring.
Variable verify : jsstring -> jsstring -> option decoded.

Inductive lookup : Type :=
| Found (usr : User)
| Missing
| Rejects.

Variable findById : jsstring -> lookup.
Variable changedPasswordAfter : User -> Z -> bool.

Record request : Type := mkRequest {
  req_headers : headers;
  user : option User
}.

(** What the middleware does: it sends a response, or it calls [next()]
    (after it has set [req.user]). *)
Inductive outcome : Type :=
| Responds (code : Z) (body : errorBody)
| Next (req : request).

Definition notAuthorized : outcome :=
  Responds 401 (mkErrorBody (u "error") (u "Not authorized to access this route")).

Definition protect (req : request) : outcome :=
  match extractToken (req_headers req) with
  | Some token =>
      if negb (truthy (Some token)) then notAuthorized
      else
        match verify token JWT_SECRET with
        | None => notAuthorized
        | Some d =>
            match findById (id d) with
            | Rejects => notAuthorized
            | Missing =>
                Responds 401 (mkErrorBody (u "error") (u "User no longer exists"))
            | Found usr =>
                if changedPasswordAfter usr (iat d) then
                  Responds 401
                    (mkErrorBody (u "error")
                       (u "User recently changed password. Please log in again."))
                else Next (mkRequest (req_headers req) (Some usr))
            end
        end
  | None => notAuthorized
  end.

Definition responseCode (o : outcome) : option Z :=
  match o with
  | Responds code _ => Some code
  | Next _ => None
  end.

End Protect.

Arguments Found {User}.
Arguments Missing {User}.
Arguments Rejects {User}.
Arguments mkRequest {User}.
Arguments req_headers {User}.
Arguments user {User}.
Arguments Responds {User}.
Arguments Next {User}.
Arguments protect {User}.
Arguments responseCode {User}.

End Auth.

(* ================================================================== *)
(** * Field encryption ([EncryptionUtils]) *)
(* ================================================================== *)

Module Encryption.
Import JS.

(** A byte is an integer from 0 to 255. *)
Definition isByte (b : Z) : Prop := 0 <= b < 256.

(** ** The encodings of [Buffer] *)

Definition hexDigit (d : Z) : Z := if d <? 10 then 48 + d else 87 + d.

(** [buf.toString('hex')] *)
Definition toHex (bytes : list Z) : jsstring :=
  flat_map (fun b => [hexDigit (b / 16); hexDigit (b mod 16)]) bytes.

Definition hexValue (c : Z) : option Z :=
  if (48 <=? c) && (c <=? 57) then Some (c - 48)
  else if (97 <=? c) && (c <=? 102) then Some (c - 87)
  else if (65 <=? c) && (c <=? 70) then Some (c - 55)
  else None.

(** [Buffer.from(s, 'hex')]: pairs of digits, up to the first that is not
    one. *)
Fixpoint fromHex (s : jsstring) : list Z :=
  match s with
  | c1 :: c2 :: r =>
      match hexValue c1, hexValue c2 with
      | Some h, Some l => (h * 16 + l) :: fromHex r
      | _, _ => []
      end
  | _ => []
  end.

Definition isHigh (c : Z) : bool := (55296 <=? c) && (c <=? 56319).
Definition isLow (c : Z) : bool := (56320 <=? c) && (c <=? 57343).

(** [Buffer.from(s, 'utf8')]: a surrogate pair is one code point of four
    bytes; a surrogate without its partner is written as U+FFFD. *)
Fixpoint utf8Encode (s : jsstring) : list Z :=
  match s with
  | [] => []
  | c :: r =>
      if c <? 128 then c :: utf8Encode r
      else if c <? 2048 then (192 + c / 64) :: (128 + c mod 64) :: utf8Encode r
      else if isHigh c then
        match r with
        | d :: r' =>
            if isLow d then
              let cp := 65536 + (c - 55296) * 1024 + (d - 56320) in
              (240 + cp / 262144) :: (128 + (cp / 4096) mod 64)
                :: (128 + (cp / 64) mod 64) :: (128 + cp mod 64) :: utf8Encode r'
            else 239 :: 191 :: 189 :: utf8Encode r
        | [] => [239; 191; 189]
        end
      else if isLow c then 239 :: 191 :: 189 :: utf8Encode r
      else (224 + c / 4096) :: (128 + (c / 64) mod 64) :: (128 + c mod 64)
             :: utf8Encode r
  end.

(** A continuation byte. *)
Definition cont (b : Z) : bool := (128 <=? b) && (b <=? 191).

(** The second byte allowed after the lead byte of a three-byte and of a
    four-byte sequence. *)
Definition second3 (b1 b2 : Z) : bool :=
  if b1 =? 224 then (160 <=? b2) && (b2 <=? 191)
  else if b1 =? 237 then (128 <=? b2) && (b2 <=? 159)
  else cont b2.

Definition second4 (b1 b2 : Z) : bool :=
  if b1 =? 240 then (144 <=? b2) && (b2 <=? 191)
  else if b1 =? 244 then (128 <=? b2) && (b2 <=? 143)
  else cont b2.

(** [buf.toString('utf8')]: every maximal ill-formed part is read as
    U+FFFD; a code point above U+FFFF becomes a surrogate pair. *)
Fixpoint utf8Decode (bytes : list Z) : jsstring :=
  match bytes with
  | [] => []
  | b1 :: t1 =>
      if b1 <? 128 then b1 :: utf8Decode t1
      else if (194 <=? b1) && (b1 <=? 223) then
        match t1 with
        | b2 :: t2 =>
            if cont b2 then ((b1 - 192) * 64 + (b2 - 128)) :: utf8Decode t2
            else 65533 :: utf8Decode t1
        | [] => [65533]
        end
      else if (224 <=? b1) && (b1 <=? 239) then
        match t1 with
        | b2 :: t2 =>
            if second3 b1 b2 then
              match t2 with
              | b3 :: t3 =>
                  if cont b3 then
                    ((b1 - 224) * 4096 + (b2 - 128) * 64 + (b3 - 128)) :: utf8Decode t3
                  else 65533 :: utf8Decode t2
              | [] => [65533]
              end
            else 65533 :: utf8Decode t1
        | [] => [65533]
        end
      else if (240 <=? b1) && (b1 <=? 244) then
        match t1 with
        | b2 :: t2 =>
            if second4 b1 b2 then
              match t2 with
              | b3 :: t3 =>
                  if cont b3 then
                    match t3 with
                    | b4 :: t4 =>
                        if cont b4 then
                          let v := (b1 - 240) * 262144 + (b2 - 128) * 4096
                                   + (b3 - 128) * 64 + (b4 - 128) - 65536 in
                          (55296 + v / 1024) :: (56320 + v mod 1024) :: utf8Decode t4
                        else 65533 :: utf8Decode t3
                    | [] => [65533]
                    end
                  else 65533 :: utf8Decode t2
              | [] => [65533]
              end
            else 65533 :: utf8Decode t1
        | [] => [65533]
        end
      else 65533 :: utf8Decode t1
  end.

(** [s.isWellFormed()]: code units of sixteen bits, every surrogate in a
    pair. *)
Fixpoint wellFormed (s : jsstring) : bool :=
  match s with
  | [] => true
  | c :: r =>
      if isHigh c then
        match r with
        | d :: r' => isLow d && wellFormed r'
        | [] => false
        end
      else (0 <=? c) && (c <? 65536) && negb (isLow c) && wellFormed r
  end.

(** ** [encrypt] and [decrypt] *)

Record encrypted : Type := mkEncrypted {
  iv : jsstring;
  data : jsstring;
  authTag : jsstring
}.

Section Cipher.

(** The [aes-256-gcm] cipher of [node:crypto], as [createCipher] sets it up
    from a password alone:
    - [gcmEncrypt password plaintext] is the output of [update] and [final],
      and the tag of [getAuthTag];
    - [gcmDecrypt password ciphertext tag] is the output of [update] and
      [final] after [setAuthTag], and [None] when one of them throws. *)
Variable gcmEncrypt : list Z -> list Z -> list Z * list Z.
Variable gcmDecrypt : list Z -> list Z -> list Z -> option (list Z).

(** [encrypt(text)] for the key [this.key]; [randomIv] are the sixteen bytes
    [crypto.randomBytes(16)] drew. *)
Definition encrypt (key : jsstring) (randomIv : list Z) (text : jsstring) : encrypted :=
  let out := gcmEncrypt (fromHex key) (utf8Encode text) in
  {| iv := toHex randomIv; data := toHex (fst out); authTag := toHex (snd out) |}.

(** [decrypt(encryptedData)]; [Throws] is the [Failed to decrypt data]
    error. *)
Definition decrypt (key : jsstring) (e : encrypted) : result jsstring :=
  match gcmDecrypt (fromHex key) (fromHex (data e)) (fromHex (authTag e)) with
  | Some plain => Returns (utf8Decode plain)
  | None => Throws
  end.

(** The cipher puts out bytes, and deciphers what it enciphered under the
    same password. *)
Definition cipherCorrect : Prop :=
  forall password plain,
    Forall isByte plain ->
    Forall isByte (fst (gcmEncrypt password plain))
    /\ Forall isByte (snd (gcmEncrypt password plain))
    /\ gcmDecrypt password (fst (gcmEncrypt password plain))
         (snd (gcmEncrypt password plain)) = Some plain.

End Cipher.

(** A toy cipher, to run [encrypt] and [decrypt] on examples: the text
    reversed, under a tag of one byte. *)
Definition toyEncrypt (password plain : list Z) : list Z * list Z := (rev plain, [42]).

Definition toyDecrypt (password cipher tag : list Z) : option (list Z) :=
  match tag with
  | [42] => Some (rev cipher)
  | _ => None
  end.

End Encryption.

Module EncryptionFacts.
Import JS Encryption.

(** Linear arithmetic with divisions by constants. *)
Ltac dlia := Z.div_mod_to_equations; lia.

Lemma hexValue_hexDigit (d : Z) : 0 <= d < 16 -> hexValue (hexDigit d) = Some d.
Proof.
  intros Hd. unfold hexDigit, hexValue.
  destruct (Z.ltb_spec d 10).
  - replace ((48 <=? 48 + d) && (48 + d <=? 57)) with true; [f_equal; lia|].
    symmetry. apply andb_true_iff. split; apply Z.leb_le; lia.
  - replace ((48 <=? 87 + d) && (87 + d <=? 57)) with false.
    + replace ((97 <=? 87 + d) && (87 + d <=? 102)) with true; [f_equal; lia|].
      symmetry. apply andb_true_iff. split; apply Z.leb_le; lia.
    + symmetry. apply andb_false_iff. right. apply Z.leb_gt. lia.
Qed.

Lemma fromHex_toHex (bytes : list Z) : Forall isByte bytes -> fromHex (toHex bytes) = bytes.
Proof.
  induction 1 as [|b bytes Hb _ IH]; [reflexivity|].
  unfold isByte in Hb. cbn [toHex flat_map app fromHex].
  rewrite !hexValue_hexDigit by dlia. fold (toHex bytes). rewrite IH.
  f_equal. dlia.
Qed.

Lemma test_true (b : bool) : b = true -> forall A (x y : A), (if b then x else y) = x.
Proof. now intros ->. Qed.

Lemma test_false (b : bool) : b = false -> forall A (x y : A), (if b then x else y) = y.
Proof. now intros ->. Qed.

(** Decide a comparison of integers from the hypotheses. *)
Ltac decide_test :=
  repeat match goal with
         | |- context [if ?b then _ else _] =>
             first [ rewrite (test_true b) by
                       (repeat (apply andb_true_iff; split);
                        first [apply Z.leb_le | apply Z.ltb_lt | apply Z.eqb_eq]; dlia)
                   | rewrite (test_false b) by
                       (first [ apply Z.ltb_ge; dlia | apply Z.eqb_neq; dlia
                              | apply andb_false_iff;
                                first [ left; first [apply Z.leb_gt | apply Z.ltb_ge]; dlia
                                      | right; first [apply Z.leb_gt | apply Z.ltb_ge]; dlia ] ]) ]
         end.

Lemma decode_one (c : Z) (t : list Z) :
  0 <= c < 128 -> utf8Decode (c :: t) = c :: utf8Decode t.
Proof. intros H. cbn [utf8Decode]. decide_test. reflexivity. Qed.

Lemma decode_two (c : Z) (t : list Z) :
  128 <= c < 2048 ->
  utf8Decode ((192 + c / 64) :: (128 + c mod 64) :: t) = c :: utf8Decode t.
Proof.
  intros H. cbn [utf8Decode]. unfold cont. decide_test. f_equal. dlia.
Qed.

Lemma decode_three (c : Z) (t : list Z) :
  2048 <= c < 65536 -> ~ (55296 <= c <= 57343) ->
  utf8Decode ((224 + c / 4096) :: (128 + (c / 64) mod 64) :: (128 + c mod 64) :: t)
  = c :: utf8Decode t.
Proof.
  intros H Hs. cbn [utf8Decode].
  assert (Hsec : second3 (224 + c / 4096) (128 + (c / 64) mod 64) = true).
  { unfold second3, cont.
    destruct (Z.eqb_spec (224 + c / 4096) 224) as [E|E].
    - apply andb_true_iff; split; apply Z.leb_le; dlia.
    - destruct (Z.eqb_spec (224 + c / 4096) 237) as [E'|E'];
        apply andb_true_iff; split; apply Z.leb_le; dlia. }
  rewrite Hsec. unfold cont. decide_test. f_equal. dlia.
Qed.

Lemma decode_four (c d : Z) (t : list Z) :
  55296 <= c <= 56319 -> 56320 <= d <= 57343 ->
  let cp := 65536 + (c - 55296) * 1024 + (d - 56320) in
  utf8Decode ((240 + cp / 262144) :: (128 + (cp / 4096) mod 64)
                :: (128 + (cp / 64) mod 64) :: (128 + cp mod 64) :: t)
  = c :: d :: utf8Decode t.
Proof.
  intros Hc Hd cp.
  assert (Hcp : 65536 <= cp < 1114112) by (unfold cp; lia).
  assert (Hv : (240 + cp / 262144 - 240) * 262144 + (128 + (cp / 4096) mod 64 - 128) * 4096
               + (128 + (cp / 64) mod 64 - 128) * 64 + (128 + cp mod 64 - 128) - 65536
               = (c - 55296) * 1024 + (d - 56320)).
  { replace ((c - 55296) * 1024 + (d - 56320)) with (cp - 65536) by (unfold cp; lia).
    clearbody cp. dlia. }
  cbn [utf8Decode].
  assert (Hsec : second4 (240 + cp / 262144) (128 + (cp / 4096) mod 64) = true).
  { clear Hv. clearbody cp. unfold second4, cont.
    destruct (Z.eqb_spec (240 + cp / 262144) 240) as [E|E].
    - apply andb_true_iff; split; apply Z.leb_le; dlia.
    - destruct (Z.eqb_spec (240 + cp / 262144) 244) as [E'|E'];
        apply andb_true_iff; split; apply Z.leb_le; dlia. }
  rewrite Hsec. unfold cont.
  assert (H1 : (240 + cp / 262144 <? 128) = false)
    by (clear Hv; clearbody cp; apply Z.ltb_ge; dlia).
  assert (H2 : (194 <=? 240 + cp / 262144) && (240 + cp / 262144 <=? 223) = false)
    by (clear Hv; clearbody cp; apply andb_false_iff; right; apply Z.leb_gt; dlia).
  assert (H3 : (224 <=? 240 + cp / 262144) && (240 + cp / 262144 <=? 239) = false)
    by (clear Hv; clearbody cp; apply andb_false_iff; right; apply Z.leb_gt; dlia).
  assert (H4 : (240 <=? 240 + cp / 262144) && (240 + cp / 262144 <=? 244) = true)
    by (clear Hv; clearbody cp; apply andb_true_iff; split; apply Z.leb_le; dlia).
  assert (H5 : (128 <=? 128 + (cp / 64) mod 64) && (128 + (cp / 64) mod 64 <=? 191) = true)
    by (clear Hv; clearbody cp; apply andb_true_iff; split; apply Z.leb_le; dlia).
  assert (H6 : (128 <=? 128 + cp mod 64) && (128 + cp mod 64 <=? 191) = true)
    by (clear Hv; clearbody cp; apply andb_true_iff; split; apply Z.leb_le; dlia).
  rewrite H1, H2, H3, H4, H5, H6. cbv zeta. rewrite Hv.
  f_equal; [dlia|]. f_equal. dlia.
Qed.

(** Induction on strings, two code units at a time where needed. *)
Lemma pair_induction (P : jsstring -> Prop) :
  P [] ->
  (forall c r, P r -> (forall d r', r = d :: r' -> P r') -> P (c :: r)) ->
  forall s, P s.
Proof.
  intros Hnil Hstep s.
  assert (H : P s /\ (forall d r', s = d :: r' -> P r')); [|exact (proj1 H)].
  induction s as [|c r [IH1 IH2]].
  - split; [exact Hnil | discriminate].
  - split; [now apply Hstep|]. intros d r' E. inversion E; subst. exact IH1.
Qed.

Lemma surrogate_tests (c : Z) :
  (isHigh c = true <-> 55296 <= c <= 56319) /\ (isLow c = true <-> 56320 <= c <= 57343).
Proof.
  unfold isHigh, isLow. rewrite !andb_true_iff, !Z.leb_le. tauto.
Qed.

Lemma utf8Encode_bytes : forall s, wellFormed s = true -> Forall isByte (utf8Encode s).
Proof.
  apply (pair_induction (fun s => wellFormed s = true -> Forall isByte (utf8Encode s))).
  - constructor.
  - intros c r IH1 IH2 Hwf. cbn [wellFormed utf8Encode] in *.
    destruct (isHigh c) eqn:Hh.
    + apply surrogate_tests in Hh.
      destruct r as [|d r']; [discriminate|].
      apply andb_true_iff in Hwf. destruct Hwf as [Hl Hwf]. rewrite Hl.
      apply surrogate_tests in Hl.
      destruct (Z.ltb_spec c 128); [lia|]. destruct (Z.ltb_spec c 2048); [lia|].
      cbv zeta. repeat constructor; try (unfold isByte; dlia).
      exact (IH2 d r' eq_refl Hwf).
    + repeat (apply andb_true_iff in Hwf; destruct Hwf as [Hwf ?]).
      apply Z.leb_le in Hwf.
      match goal with H : (c <? 65536) = true |- _ => apply Z.ltb_lt in H end.
      match goal with H : negb (isLow c) = true |- _ =>
        apply negb_true_iff in H; rewrite H end.
      destruct (Z.ltb_spec c 128); [|destruct (Z.ltb_spec c 2048)];
        repeat constructor; try (unfold isByte; dlia); auto.
Qed.

Lemma utf8_round_trip : forall s, wellFormed s = true -> utf8Decode (utf8Encode s) = s.
Proof.
  apply (pair_induction (fun s => wellFormed s = true -> utf8Decode (utf8Encode s) = s)).
  - reflexivity.
  - intros c r IH1 IH2 Hwf. cbn [wellFormed utf8Encode] in *.
    destruct (isHigh c) eqn:Hh.
    + apply surrogate_tests in Hh.
      destruct r as [|d r']; [discriminate|].
      apply andb_true_iff in Hwf. destruct Hwf as [Hl Hwf]. rewrite Hl.
      apply surrogate_tests in Hl.
      destruct (Z.ltb_spec c 128); [lia|]. destruct (Z.ltb_spec c 2048); [lia|].
      cbv zeta. rewrite decode_four by lia. now rewrite (IH2 d r' eq_refl Hwf).
    + repeat (apply andb_true_iff in Hwf; destruct Hwf as [Hwf ?]).
      apply Z.leb_le in Hwf.
      match goal with H : (c <? 65536) = true |- _ => apply Z.ltb_lt in H end.
      match goal with H : negb (isLow c) = true |- _ =>
        apply negb_true_iff in H; rewrite H; rename H into Hlow end.
      assert (Hns : ~ (55296 <= c <= 57343)).
      { intros Hs. destruct (Z.le_gt_cases c 56319).
        - assert (isHigh c = true) by (apply surrogate_tests; lia). congruence.
        - assert (isLow c = true) by (apply surrogate_tests; lia). congruence. }
      destruct (Z.ltb_spec c 128); [|destruct (Z.ltb_spec c 2048)].
      * rewrite decode_one by lia. f_equal; auto.
      * rewrite decode_two by lia. f_equal; auto.
      * rewrite decode_three by lia. f_equal; auto.
Qed.

Section CipherFacts.

Variable gcmEncrypt : list Z -> list Z -> list Z * list Z.
Variable gcmDecrypt : list Z -> list Z -> list Z -> option (list Z).

(** C9, as the code has it.  With a cipher that deciphers what it
    enciphered, [decrypt] returns the text [encrypt] was given, for every
    well-formed text: one whose surrogate code units all come in pairs. *)
Theorem decrypt_encrypt (key : jsstring) (randomIv : list Z) (text : jsstring) :
  cipherCorrect gcmEncrypt gcmDecrypt ->
  wellFormed text = true ->
  decrypt gcmDecrypt key (encrypt gcmEncrypt key randomIv text) = Returns text.
Proof.
  intros Hcipher Hwf. unfold decrypt, encrypt. cbn [data authTag].
  destruct (Hcipher (fromHex key) (utf8Encode text) (utf8Encode_bytes text Hwf))
    as (Hc & Ht & Hd).
  rewrite !fromHex_toHex by assumption. rewrite Hd.
  now rewrite utf8_round_trip.
Qed.

End CipherFacts.

Lemma toy_cipher_correct : cipherCorrect toyEncrypt toyDecrypt.
Proof.
  intros password plain Hp. unfold toyEncrypt, toyDecrypt. cbn [fst snd].
  split; [|split].
  - apply Forall_rev. exact Hp.
  - repeat constructor; unfold isByte; lia.
  - now rewrite rev_involutive.
Qed.

(** The round trip of a text with an accent and a surrogate pair, under the
    toy cipher. *)
Lemma decrypt_encrypt_witness :
  decrypt toyDecrypt (u "00ff")
    (encrypt toyEncrypt (u "00ff") [1; 2; 3] [104; 233; 8364; 55357; 56832])
  = Returns [104; 233; 8364; 55357; 56832].
Proof.
  exact (decrypt_encrypt toyEncrypt toyDecrypt (u "00ff") [1; 2; 3]
           [104; 233; 8364; 55357; 56832] toy_cipher_correct eq_refl).
Defined.

(** C9, as stated, fails: a text that is one unpaired surrogate comes back
    as U+FFFD, whatever the cipher, if it deciphers what it enciphered. *)
Lemma decrypt_encrypt_lone_surrogate :
  wellFormed [55296] = false
  /\ JS.eqb [65533] [55296] = false
  /\ forall gcmEncrypt gcmDecrypt key randomIv,
       cipherCorrect gcmEncrypt gcmDecrypt ->
       decrypt gcmDecrypt key (encrypt gcmEncrypt key randomIv [55296])
       = Returns [65533].
Proof.
  split; [reflexivity|]. split; [reflexivity|].
  intros gcmEncrypt gcmDecrypt key randomIv Hcipher.
  unfold decrypt, encrypt. cbn [data authTag].
  assert (Hb : Forall isByte (utf8Encode [55296]))
    by (repeat constructor; unfold isByte; lia).
  destruct (Hcipher (fromHex key) (utf8Encode [55296]) Hb) as (Hc & Ht & Hd).
  rewrite !fromHex_toHex by assumption. rewrite Hd. reflexivity.
Qed.

End EncryptionFacts.
(* ================================================================== *)
(** * More on the classifier: what an analysis holds *)
(* ================================================================== *)

Module AnalysisFacts.
Import JS JSFacts Regex RegexFacts Detection DetectionFacts.

(** The threat [analyzeContent] files for a detection of the rules. *)
Definition ruleThreat (ty : jsstring) (r : detection) : threat :=
  mkThreat (Some ty) (confidence r) (indicators r)
    (calculateSeverity (Some ty) (confidence r)).

(** The threat of the rules for one entry of the pattern table: one when
    [detectThreatType] reports the type as detected, none otherwise. *)
Definition ruleThreatOf (fuel : nat) (threshold : Q) (content : jsstring)
    (entry : jsstring * patternSet) : list threat :=
  match detectThreatType fuel threshold content (fst entry) (snd entry) with
  | Returns r => if detected r then [ruleThreat (fst entry) r] else []
  | _ => []
  end.

(** The threats of the rules: those of the entries of the pattern table, in
    the order of the table. *)
Definition ruleThreats (fuel : nat) (threshold : Q) (content : jsstring) : list threat :=
  flat_map (ruleThreatOf fuel threshold content) THREAT_PATTERNS.

(** A list with every text kept where it first occurs: the head stays, and
    its later copies go. *)
Fixpoint firstOccurrences (l : list jsstring) : list jsstring :=
  match l with
  | [] => []
  | x :: r => x :: filter (fun y => negb (JS.eqb y x)) (firstOccurrences r)
  end.

(** The twelve recommendations the engine knows. *)
Definition allRecommendations : list jsstring :=
  recommendationsFor (mkThreat (Some (u "phishing")) 0 [] low)
  ++ recommendationsFor (mkThreat (Some (u "malware")) 0 [] low)
  ++ recommendationsFor (mkThreat (Some (u "predator_behavior")) 0 [] low)
  ++ recommendationsFor (mkThreat (Some (u "financial_scam")) 0 [] low).

Lemma detected_above fuel th content ty pats r :
  detectThreatType fuel th content ty pats = Returns r ->
  detected r = true -> (th < confidence r)%Q.
Proof.
  unfold detectThreatType.
  destruct (match domains pats with
            | Some bad => checkDomains fuel content bad 0 _
            | None => Returns _
            end) as [st| |]; cbn [bind]; try discriminate.
  destruct (0 <? _); intros H; inversion H; subst r; cbn [detected confidence].
  - apply Qgtb_lt.
  - discriminate.
Qed.

Section Rules.

Variable Document : Type.
Variable fuel : nat.
Variable e : engine Document.
Variable content : jsstring.

(** What the loop over the threat types leaves in the list: what was there,
    and one threat for every type the rules detect. *)
Lemma rule_threats : forall table acc ths,
  fold_left (checkThreatType fuel e content) table (Returns acc) = Returns ths ->
  (forall t, In t ths <->
     In t acc
     \/ exists ty pats r,
          In (ty, pats) table
          /\ detectThreatType fuel (confidenceThreshold e) content ty pats = Returns r
          /\ detected r = true /\ t = ruleThreat ty r).
Proof.
  induction table as [|[ty pats] table IH]; intros acc ths H; cbn [fold_left] in H.
  - inversion H; subst. intros t. split; [now left|].
    intros [Hin|(ty & pats & r & [] & _)]. exact Hin.
  - unfold checkThreatType at 2 in H. cbn [bind fst snd] in H.
    destruct (detectThreatType fuel (confidenceThreshold e) content ty pats)
      as [r| |] eqn:Hd; cbn [bind] in H.
    + destruct (detected r) eqn:Hr.
      * intros t. rewrite (IH _ _ H). rewrite in_app_iff. cbn [In]. split.
        -- intros [[Hin|[<-|[]]]|(ty' & pats' & r' & Hin & Hrest)].
           ++ now left.
           ++ right. exists ty, pats, r. repeat split; auto.
           ++ right. exists ty', pats', r'. split; [now right | exact Hrest].
        -- intros [Hin|(ty' & pats' & r' & [Heq|Hin] & Hd' & Hr' & ->)].
           ++ now left; left.
           ++ inversion Heq; subst ty' pats'. rewrite Hd in Hd'.
              inversion Hd'; subst r'. left. right. now left.
           ++ right. exists ty', pats', r'. repeat split; auto.
      * intros t. rewrite (IH _ _ H). split.
        -- intros [Hin|(ty' & pats' & r' & Hin & Hrest)]; [now left|].
           right. exists ty', pats', r'. split; [now right | exact Hrest].
        -- intros [Hin|(ty' & pats' & r' & [Heq|Hin] & Hd' & Hr' & ->)]; [now left| |].
           ++ inversion Heq; subst ty' pats'. rewrite Hd in Hd'.
              inversion Hd'; subst r'. congruence.
           ++ right. exists ty', pats', r'. repeat split; auto.
    + exfalso. clear -H. induction table as [|x table IHt]; cbn in H; [discriminate|].
      now apply IHt.
    + exfalso. clear -H. induction table as [|x table IHt]; cbn in H; [discriminate|].
      now apply IHt.
Qed.

(** With a loop budget that suffices, the loop over the threat types
    returns what was in the list followed by the threats of the rules for the
    table, entry by entry. *)
Lemma rule_threats_list :
  (List.length content < fuel)%nat ->
  forall table acc,
    fold_left (checkThreatType fuel e content) table (Returns acc)
    = Returns (acc ++ flat_map (ruleThreatOf fuel (confidenceThreshold e) content) table).
Proof.
  intros Hf. induction table as [|[ty pats] table IH]; intros acc; cbn [fold_left flat_map].
  - now rewrite app_nil_r.
  - unfold checkThreatType at 2. cbn [bind fst snd]. unfold ruleThreatOf at 1.
    cbn [fst snd].
    destruct (detectThreatType_returns fuel (confidenceThreshold e) content ty pats Hf)
      as (r & ->).
    cbn [bind]. destruct (detected r); rewrite IH.
    + unfold ruleThreat. now rewrite <- app_assoc.
    + reflexivity.
Qed.

End Rules.

Lemma sum_confidence ths : forall acc,
  (fold_left (fun sum t => sum + t_confidence t) ths acc
   == acc + fold_right Qplus 0 (map t_confidence ths))%Q.
Proof.
  induction ths as [|t ths IH]; intros acc; cbn [fold_left map fold_right].
  - ring.
  - rewrite IH. ring.
Qed.

Lemma sum_above (th : Q) ths :
  Forall (fun t => (th < t_confidence t)%Q) ths ->
  (inject_Z (Z.of_nat (List.length ths)) * th
   <= fold_right Qplus 0 (map t_confidence ths))%Q.
Proof.
  induction 1 as [|t ths Ht _ IH]; cbn [List.length map fold_right].
  - change (inject_Z (Z.of_nat 0)) with 0%Q. lra.
  - rewrite Nat2Z.inj_succ. unfold Z.succ. rewrite inject_Z_plus.
    change (inject_Z 1) with 1%Q. lra.
Qed.

(** The mean of confidences that are all above a bound is above it. *)
Lemma mean_above (th : Q) ths :
  ths <> [] ->
  Forall (fun t => (th < t_confidence t)%Q) ths ->
  (th < calculateOverallConfidence ths)%Q.
Proof.
  intros Hne Hall. destruct ths as [|t ths]; [congruence|].
  unfold calculateOverallConfidence. rewrite sum_confidence.
  inversion Hall as [|? ? Ht Hrest]; subst.
  pose proof (sum_above th ths Hrest) as Hs.
  cbn [List.length map fold_right].
  rewrite Nat2Z.inj_succ. unfold Z.succ. rewrite inject_Z_plus.
  change (inject_Z 1) with 1%Q.
  set (n := inject_Z (Z.of_nat (List.length ths))) in *.
  assert (Hn : (0 <= n)%Q).
  { unfold n. change 0%Q with (inject_Z 0). rewrite <- Zle_Qle. lia. }
  apply Qlt_shift_div_l; lra.
Qed.

Lemma weighted_lower ths t :
  Forall (fun t' => (0 <= t_confidence t')%Q) ths ->
  In t ths ->
  (t_confidence t * severityWeights (t_severity t) <= weightedScore ths)%Q.
Proof.
  intros Hall Hin. unfold weightedScore.
  induction ths as [|t' ths IH]; [contradiction|].
  inversion Hall as [|? ? Ht' Hrest]; subst. cbn [map fold_right].
  assert (Hnn : forall l, Forall (fun t' => (0 <= t_confidence t')%Q) l ->
            (0 <= fold_right Qplus 0
                    (map (fun t0 => t_confidence t0 * severityWeights (t_severity t0)) l))%Q).
  { clear. induction 1 as [|x l Hx _ IHl]; cbn [map fold_right]; [lra|].
    assert (0 <= severityWeights (t_severity x))%Q by (destruct (t_severity x); cbn; lra).
    pose proof (Qmult_le_0_compat _ _ Hx H). lra. }
  destruct Hin as [->|Hin].
  - pose proof (Hnn ths Hrest). lra.
  - specialize (IH Hrest Hin).
    assert (0 <= severityWeights (t_severity t'))%Q by (destruct (t_severity t'); cbn; lra).
    pose proof (Qmult_le_0_compat _ _ Ht' H). lra.
Qed.

(** A list of threats, all more confident than 0.7, one of them of a given
    weight: the risk level follows the weight. *)
Lemma risk_by_weight ths t :
  Forall (fun t' => (7 # 10 < t_confidence t')%Q) ths ->
  In t ths ->
  (t_severity t <> low -> determineRiskLevel ths <> low)
  /\ (t_severity t = high \/ t_severity t = critical ->
      determineRiskLevel ths = high \/ determineRiskLevel ths = critical).
Proof.
  intros Hall Hin.
  assert (Hnn : Forall (fun t' => (0 <= t_confidence t')%Q) ths).
  { eapply Forall_impl; [|exact Hall]. cbn. intros; lra. }
  pose proof (weighted_lower ths t Hnn Hin) as Hw.
  assert (Ht : (7 # 10 < t_confidence t)%Q).
  { rewrite Forall_forall in Hall. now apply Hall. }
  destruct ths as [|t0 ths']; [contradiction|].
  unfold determineRiskLevel.
  set (ws := fold_left _ (t0 :: ths') 0%Q).
  assert (Hws : (ws == weightedScore (t0 :: ths'))%Q).
  { unfold ws. rewrite fold_left_weighted. ring. }
  rewrite <- Hws in Hw. clearbody ws.
  destruct (Qle_bool 3 ws) eqn:E3; [apply Qle_bool_iff in E3|apply Qle_bool_false in E3];
  (destruct (Qle_bool 2 ws) eqn:E2; [apply Qle_bool_iff in E2|apply Qle_bool_false in E2]);
  (destruct (Qle_bool 1 ws) eqn:E1; [apply Qle_bool_iff in E1|apply Qle_bool_false in E1]);
  (split; [intros Hsev; try discriminate | intros Hsev; auto]);
  exfalso; destruct (t_severity t); cbn [severityWeights] in Hw;
  try congruence; try (destruct Hsev; discriminate); lra.
Qed.

Lemma unique_spec : forall xs seen,
  NoDup (unique seen xs)
  /\ (forall r, In r (unique seen xs) <-> In r xs /\ ~ In r seen).
Proof.
  assert (Hex : forall x seen, existsb (JS.eqb x) seen = true <-> In x seen).
  { intros x seen. rewrite existsb_exists. split.
    - intros (y & Hy & E). apply eqb_eq in E. now subst.
    - intros H. exists x. split; [exact H | apply eqb_refl]. }
  induction xs as [|x xs IH]; intros seen; cbn [unique].
  - split; [constructor|]. intros r. cbn. tauto.
  - destruct (existsb (JS.eqb x) seen) eqn:E.
    + apply Hex in E. destruct (IH seen) as (Hnd & Hin). split; [exact Hnd|].
      intros r. rewrite Hin. cbn [In]. split; [tauto|].
      intros [[<-|H] Hn]; [contradiction | tauto].
    + assert (Hx : ~ In x seen).
      { intros H. apply Hex in H. congruence. }
      destruct (IH (x :: seen)) as (Hnd & Hin). split.
      * constructor; [|exact Hnd]. rewrite Hin. cbn [In]. tauto.
      * intros r. cbn [In]. rewrite Hin. cbn [In]. split.
        -- intros [<-|[H Hn]]; [tauto|]. split; [tauto|]. tauto.
        -- intros [[<-|H] Hn]; [now left|].
           destruct (list_eq_dec Z.eq_dec x r) as [->|Hne]; [now left|].
           right. split; [exact H|]. intros [?|?]; [congruence | contradiction].
Qed.

Lemma recommendationsFor_known t :
  incl (recommendationsFor t) allRecommendations.
Proof.
  unfold recommendationsFor.
  destruct (isType (type t) "phishing");
    [intros r Hr; unfold allRecommendations; apply in_or_app; left; exact Hr|].
  destruct (isType (type t) "malware");
    [intros r Hr; unfold allRecommendations; apply in_or_app; right;
     apply in_or_app; left; exact Hr|].
  destruct (isType (type t) "predator_behavior");
    [intros r Hr; unfold allRecommendations; do 2 (apply in_or_app; right);
     apply in_or_app; left; exact Hr|].
  destruct (isType (type t) "financial_scam");
    [intros r Hr; unfold allRecommendations; do 3 (apply in_or_app; right); exact Hr|].
  intros r [].
Qed.

Lemma filter_both {A : Type} (f g : A -> bool) (l : list A) :
  filter f (filter g l) = filter (fun x => f x && g x) l.
Proof.
  induction l as [|x l IH]; [reflexivity|]. cbn [filter].
  destruct (g x) eqn:Eg; cbn [filter]; rewrite ?andb_true_r, ?andb_false_r.
  - destruct (f x); now rewrite IH.
  - exact IH.
Qed.

Lemma filter_twice {A : Type} (f g : A -> bool) (l : list A) :
  (forall x, f x = true -> g x = true) -> filter f (filter g l) = filter f l.
Proof.
  intros H. induction l as [|x l IH]; [reflexivity|]. cbn [filter].
  destruct (g x) eqn:Eg; cbn [filter].
  - now rewrite IH.
  - destruct (f x) eqn:Ef; [|exact IH]. apply H in Ef. congruence.
Qed.

(** [unique] keeps the first occurrences that are not among [seen]. *)
Lemma unique_firstOccurrences : forall xs seen,
  unique seen xs
  = filter (fun y => negb (existsb (JS.eqb y) seen)) (firstOccurrences xs).
Proof.
  induction xs as [|x xs IH]; intros seen; [reflexivity|].
  cbn [unique firstOccurrences filter].
  destruct (existsb (JS.eqb x) seen) eqn:E; cbn [negb].
  - rewrite IH. symmetry. apply filter_twice.
    intros y Hy. apply negb_true_iff. destruct (JS.eqb y x) eqn:Eyx; [|reflexivity].
    apply eqb_eq in Eyx. subst y. rewrite E in Hy. discriminate.
  - f_equal. rewrite IH, filter_both. apply filter_ext.
    intros y. cbn [existsb]. rewrite negb_orb. apply andb_comm.
Qed.

Lemma filter_split {A : Type} (keep : A -> bool) (l a b : list A) (r : A) :
  filter keep l = a ++ r :: b ->
  exists p q, l = p ++ r :: q /\ filter keep p = a /\ filter keep q = b.
Proof.
  revert a. induction l as [|x l IH]; intros a H; cbn [filter] in H.
  - destruct a; discriminate.
  - destruct (keep x) eqn:E.
    + destruct a as [|y a]; cbn [app] in H.
      * inversion H; subst. exists [], l. cbn [filter app]. auto.
      * inversion H; subst y. destruct (IH a H2) as (p & q & -> & Hp & Hq).
        exists (x :: p), q. cbn [filter app]. rewrite E, Hp. auto.
    + destruct (IH a H) as (p & q & -> & Hp & Hq).
      exists (x :: p), q. cbn [filter app]. rewrite E. auto.
Qed.

(** What stands before a text among the first occurrences are the texts
    that stand before its first occurrence in the list. *)
Lemma firstOccurrences_order : forall l before r after,
  firstOccurrences l = before ++ r :: after ->
  exists before' after',
    l = before' ++ r :: after'
    /\ ~ In r before'
    /\ (forall x, In x before <-> In x before').
Proof.
  induction l as [|x l IH]; intros before r after H; cbn [firstOccurrences] in H.
  - destruct before; discriminate.
  - destruct before as [|y before]; cbn [app] in H.
    + inversion H; subst. exists [], l. cbn. repeat split; tauto.
    + inversion H as [[Hy Hrest]]. subst y.
      destruct (filter_split _ _ _ _ _ Hrest) as (p & q & Hfo & Hp & Hq).
      destruct (IH p r q Hfo) as (p' & q' & -> & Hnin & Hsame).
      assert (Hr : r <> x).
      { assert (Hin : In r (filter (fun y => negb (JS.eqb y x)) (firstOccurrences
                                (p' ++ r :: q')))).
        { rewrite Hrest. apply in_or_app. right. now left. }
        apply filter_In in Hin. destruct Hin as [_ Hin]. intros ->.
        rewrite eqb_refl in Hin. discriminate. }
      exists (x :: p'), q'. split; [reflexivity|]. split.
      * intros [E|Hin]; [congruence | contradiction].
      * intros z. cbn [In]. rewrite <- Hsame, <- Hp, filter_In. split.
        -- intros [E|[Hz _]]; auto.
        -- intros [E|Hz]; [now left|].
           destruct (JS.eqb z x) eqn:Ezx.
           ++ apply eqb_eq in Ezx. now left.
           ++ right. split; [exact Hz | reflexivity].
Qed.


Section EngineRules.

Variable Document : Type.
Variable buildDocument : jsstring -> jsstring -> Document.
Variable categoryKey : Document -> jsstring.
Variable tfidf : list Document -> jsstring -> nat -> Q.

Lemma threshold_kept (e : engine Document) :
  confidenceThreshold (ensureInit buildDocument e) = confidenceThreshold e.
Proof. unfold ensureInit. destruct (initialized e); reflexivity. Qed.

(** What a call returns: the engine, the threats (all above the threshold,
    one for every detection of the rules), and the fields computed from
    them. *)
Lemma analysis_shape (e : engine Document) (content : jsstring) :
  exists a,
    analyze buildDocument categoryKey tfidf e content
    = Returns (a, ensureInit buildDocument e)
    /\ Forall (fun t => (confidenceThreshold e < t_confidence t)%Q) (threats a)
    /\ (forall ty pats r,
          In (ty, pats) THREAT_PATTERNS ->
          detectThreatType (S (List.length content)) (confidenceThreshold e)
            content ty pats = Returns r ->
          detected r = true -> In (ruleThreat ty r) (threats a))
    /\ a_confidence a = calculateOverallConfidence (threats a)
    /\ riskLevel a = determineRiskLevel (threats a)
    /\ recommendations a = generateRecommendations (threats a).
Proof.
  unfold analyze.
  destruct (analyzeContent_threats Document buildDocument categoryKey tfidf
              (S (List.length content)) e content (Nat.lt_succ_diag_r _))
    as (ths & cl & a & Hths & Hcl & Ha & Hthreats).
  destruct (analyzeContent_total Document buildDocument categoryKey tfidf
              (S (List.length content)) e content (Nat.lt_succ_diag_r _))
    as (a' & Ha' & Hc & Hr & _ & Hrec).
  rewrite Ha in Ha'. inversion Ha'; subst a'.
  pose proof (rule_threats Document (S (List.length content))
                (ensureInit buildDocument e) content THREAT_PATTERNS [] ths Hths)
    as Hrule.
  rewrite threshold_kept in Hrule, Hthreats.
  assert (Hall : Forall (fun t => (confidenceThreshold e < t_confidence t)%Q) ths).
  { apply Forall_forall. intros t Ht. apply Hrule in Ht.
    destruct Ht as [[]|(ty & pats & r & _ & Hd & Hdet & ->)].
    cbn [ruleThreat t_confidence]. exact (detected_above _ _ _ _ _ _ Hd Hdet). }
  exists a. split; [exact Ha|]. split; [|split; [|repeat split; assumption]].
  - rewrite Hthreats.
    destruct (Qgtb (c_confidence cl) (confidenceThreshold e)) eqn:E; [|exact Hall].
    apply Forall_app. split; [exact Hall|]. constructor; [|constructor].
    cbn [t_confidence]. now apply Qgtb_lt.
  - intros ty pats r Hin Hd Hdet.
    assert (Hr' : In (ruleThreat ty r) ths).
    { apply Hrule. right. exists ty, pats, r. auto. }
    rewrite Hthreats.
    destruct (Qgtb (c_confidence cl) (confidenceThreshold e));
      [apply in_or_app; now left | exact Hr'].
Qed.

(** A call of [analyzeContent] (with a loop budget that suffices)
    returns an analysis in which every threat has a confidence strictly
    above the threshold of the engine.  Without threats the overall
    confidence is 0, the risk level [low] and there are no recommendations;
    with threats the overall confidence is strictly above the threshold. *)
Theorem analyze_confidence (e : engine Document) (content : jsstring) :
  exists a,
    analyze buildDocument categoryKey tfidf e content
    = Returns (a, ensureInit buildDocument e)
    /\ Forall (fun t => (confidenceThreshold e < t_confidence t)%Q) (threats a)
    /\ (threats a = [] ->
        a_confidence a = 0%Q /\ riskLevel a = low /\ recommendations a = [])
    /\ (threats a <> [] -> (confidenceThreshold e < a_confidence a)%Q).
Proof.
  destruct (analysis_shape e content) as (a & Ha & Hall & _ & Hc & Hr & Hrec).
  exists a. split; [exact Ha|]. split; [exact Hall|]. split.
  - intros Hnil. rewrite Hc, Hr, Hrec, Hnil. repeat split.
  - intros Hne. rewrite Hc. now apply mean_above.
Qed.

(** On an engine with the threshold of the constructor (0.7): when the
    rules detect a threat type in the content, the analysis lists the threat
    and its risk level is not [low]; it is [high] or [critical] when the
    type is phishing, malware or predator behaviour. *)
Theorem analyze_risk_level (e : engine Document) (content ty : jsstring)
    (pats : patternSet) (r : detection) :
  confidenceThreshold e = 7 # 10 ->
  In (ty, pats) THREAT_PATTERNS ->
  detectThreatType (S (List.length content)) (7 # 10) content ty pats = Returns r ->
  detected r = true ->
  exists a,
    analyze buildDocument categoryKey tfidf e content
    = Returns (a, ensureInit buildDocument e)
    /\ In (ruleThreat ty r) (threats a)
    /\ riskLevel a <> low
    /\ (In ty [u "phishing"; u "malware"; u "predator_behavior"] ->
        riskLevel a = high \/ riskLevel a = critical).
Proof.
  intros Hth Hin Hd Hdet.
  destruct (analysis_shape e content) as (a & Ha & Hall & Hrule & _ & Hr & _).
  rewrite Hth in Hall, Hrule.
  pose proof (Hrule ty pats r Hin Hd Hdet) as Ht.
  destruct (risk_by_weight (threats a) (ruleThreat ty r) Hall Ht) as (Hlow & Hhigh).
  exists a. split; [exact Ha|]. split; [exact Ht|]. rewrite Hr.
  assert (Hsev : t_severity (ruleThreat ty r) <> low).
  { cbn [ruleThreat t_severity].
    cbn [In] in Hin.
    destruct Hin as [E|[E|[E|[E|[E|[]]]]]]; inversion E; subst ty;
      unfold calculateSeverity; cbn [isType];
      repeat match goal with
             | |- context [JS.eqb (u ?a) (u ?b)] =>
                 let v := eval vm_compute in (JS.eqb (u a) (u b)) in
                 change (JS.eqb (u a) (u b)) with v
             end; cbv iota;
      destruct (Qgtb (confidence r) (9 # 10)); discriminate. }
  split; [exact (Hlow Hsev)|].
  intros Hty. apply Hhigh. cbn [ruleThreat t_severity].
  cbn [In] in Hty.
  destruct Hty as [E|[E|[E|[]]]]; subst ty;
    unfold calculateSeverity; cbn [isType];
    repeat match goal with
           | |- context [JS.eqb (u ?a) (u ?b)] =>
               let v := eval vm_compute in (JS.eqb (u a) (u b)) in
               change (JS.eqb (u a) (u b)) with v
           end; cbv iota;
    destruct (Qgtb (confidence r) (9 # 10)); auto.
Qed.

(** [analyzeContent] returns the threats of the rules (one for every type
    of the pattern table that [detectThreatType] reports as detected, in the
    order of the table), followed by the TF-IDF-derived threat exactly when
    the confidence of the classification is strictly above the threshold of
    the engine, and by nothing otherwise. *)
Theorem analyzeContent_tfidf_threat (fuel : nat) (e : engine Document) (content : jsstring) :
  (List.length content < fuel)%nat ->
  exists cl a,
    classifyWithTFIDF categoryKey tfidf (ensureInit buildDocument e) content = Returns cl
    /\ analyzeContent buildDocument categoryKey tfidf fuel e content
       = Returns (a, ensureInit buildDocument e)
    /\ ((confidenceThreshold e < c_confidence cl)%Q ->
        threats a =
        ruleThreats fuel (confidenceThreshold e) content
        ++ [mkThreat (category cl) (c_confidence cl) [u "AI-pattern-detected"]
              (calculateSeverity (category cl) (c_confidence cl))])
    /\ ((c_confidence cl <= confidenceThreshold e)%Q ->
        threats a = ruleThreats fuel (confidenceThreshold e) content).
Proof.
  intros Hf.
  destruct (analyzeContent_threats Document buildDocument categoryKey tfidf
              fuel e content Hf) as (ths & cl & a & Hths & Hcl & Ha & Hthreats).
  rewrite (rule_threats_list Document fuel (ensureInit buildDocument e) content Hf
             THREAT_PATTERNS []) in Hths.
  rewrite threshold_kept in Hths, Hthreats.
  cbn [app] in Hths. fold (ruleThreats fuel (confidenceThreshold e) content) in Hths.
  injection Hths as <-.
  exists cl, a. split; [exact Hcl|]. split; [exact Ha|]. rewrite Hthreats.
  split; intros H.
  - apply Qgtb_lt in H. now rewrite H.
  - apply Qgtb_le in H. now rewrite H.
Qed.

End EngineRules.

Lemma analyze_risk_level_witness :
  exists r a,
    detectThreatType (S (List.length nineSuspiciousUrls)) (7 # 10) nineSuspiciousUrls
      (u "phishing") phishing = Returns r
    /\ detected r = true
    /\ analyze pair snd containsMeasure (newEngine pair) nineSuspiciousUrls
       = Returns (a, ensureInit pair (newEngine pair))
    /\ In (ruleThreat (u "phishing") r) (threats a)
    /\ riskLevel a <> low
    /\ (In (u "phishing") [u "phishing"; u "malware"; u "predator_behavior"] ->
        riskLevel a = high \/ riskLevel a = critical).
Proof.
  assert (H : { r | detectThreatType (S (List.length nineSuspiciousUrls)) (7 # 10)
                      nineSuspiciousUrls (u "phishing") phishing = Returns r
                    /\ detected r = true }).
  { vm_compute. eexists. split; reflexivity. }
  destruct H as (r & Hd & Hdet).
  exists r.
  destruct (analyze_risk_level pairDocument pair snd containsMeasure (newEngine pair)
              nineSuspiciousUrls (u "phishing") phishing r eq_refl
              (or_introl eq_refl) Hd Hdet) as (a & Ha).
  exists a. split; [exact Hd|]. split; [exact Hdet|]. exact Ha.
Defined.

(** The threats of the sample text, with the stand-in package. *)
Lemma analyzeContent_tfidf_threat_witness :
  exists cl a,
    classifyWithTFIDF snd containsMeasure (ensureInit pair (newEngine pair)) samplePhish
    = Returns cl
    /\ analyzeContent pair snd containsMeasure 100 (newEngine pair) samplePhish
       = Returns (a, ensureInit pair (newEngine pair))
    /\ ((confidenceThreshold (newEngine pair) < c_confidence cl)%Q ->
        threats a =
        ruleThreats 100 (confidenceThreshold (newEngine pair)) samplePhish
        ++ [mkThreat (category cl) (c_confidence cl) [u "AI-pattern-detected"]
              (calculateSeverity (category cl) (c_confidence cl))])
    /\ ((c_confidence cl <= confidenceThreshold (newEngine pair))%Q ->
        threats a = ruleThreats 100 (confidenceThreshold (newEngine pair)) samplePhish).
Proof.
  exact (analyzeContent_tfidf_threat pairDocument pair snd containsMeasure 100
           (newEngine pair) samplePhish ltac:(vm_compute; lia)).
Defined.

End AnalysisFacts.

(* ================================================================== *)
(** * utils/ai-detection.js: the risk level, on the numbers of the engine *)
(* ================================================================== *)

Module RiskLevel.
Import JS PrimFloat.

(** A threat as [determineRiskLevel] meets it.  The confidence is a
    JavaScript number, that is an IEEE 754 binary64 float: the sums,
    products and comparisons below are those of the floats of the kernel
    (round to nearest, ties to even; a comparison with NaN is false), which
    are the ones the engine computes with. *)
Record threat : Type := mkThreat {
  type : option jsstring;
  confidence : float;
  indicators : list jsstring;
  severity : Detection.severity
}.

Definition severityWeights (s : Detection.severity) : float :=
  match s with
  | Detection.low => 1
  | Detection.medium => 2
  | Detection.high => 3
  | Detection.critical => 4
  end%float.

Definition determineRiskLevel (threats : list threat) : Detection.severity :=
  match threats with
  | [] => Detection.low
  | _ =>
      let weightedScore :=
        fold_left
          (fun score t => (score + confidence t * severityWeights (severity t))%float)
          threats 0%float in
      if (3 <=? weightedScore)%float then Detection.critical
      else if (2 <=? weightedScore)%float then Detection.high
      else if (1 <=? weightedScore)%float then Detection.medium
      else Detection.low
  end.

(** ** The risk level as it is described *)

(** The weight of a severity: low 1, medium 2, high 3, critical 4. *)
Definition weightOf (s : Detection.severity) : float :=
  match s with
  | Detection.low => 1
  | Detection.medium => 2
  | Detection.high => 3
  | Detection.critical => 4
  end%float.

(** The weighted sum over the threats, each threat's confidence times the
    weight of its severity, added up from 0 in the order of the list. *)
Fixpoint weightedSumFrom (sum : float) (threats : list threat) : float :=
  match threats with
  | [] => sum
  | t :: rest =>
      weightedSumFrom (sum + confidence t * weightOf (severity t))%float rest
  end.

Definition weightedSum (threats : list threat) : float := weightedSumFrom 0%float threats.

(** [x] is at least [bound]. *)
Definition atLeast (x bound : float) : Prop := (bound <=? x)%float = true.

(** Ten threats of low severity and confidence 0.1 (the float next to
    it). *)
Definition tenTenths : list threat :=
  repeat (mkThreat (Some (u "phishing")) 0x1.999999999999ap-4%float [] Detection.low) 10.

(** ** Proofs *)

Lemma fold_weightedSum (threats : list threat) : forall sum,
  fold_left
    (fun score t => (score + confidence t * severityWeights (severity t))%float)
    threats sum
  = weightedSumFrom sum threats.
Proof.
  induction threats as [|t threats IH]; intros sum; cbn [fold_left weightedSumFrom].
  - reflexivity.
  - rewrite IH. destruct (severity t); reflexivity.
Qed.

(** C3.  [determineRiskLevel] answers [low] for the empty list.  For any
    other list it goes by the weighted sum over the threats of the
    confidence times the weight of the severity, the weights being 1 for
    low, 2 for medium, 3 for high and 4 for critical: [critical] when the
    sum is at least 3, [high] when it is not but is at least 2, [medium]
    when it is not but is at least 1, and [low] otherwise. *)
Theorem determineRiskLevel_by_weighted_sum (threats : list threat) :
  map severityWeights
    [Detection.low; Detection.medium; Detection.high; Detection.critical]
  = [1; 2; 3; 4]%float
  /\ (threats = [] -> determineRiskLevel threats = Detection.low)
  /\ (threats <> [] ->
      let sum := weightedSum threats in
      (atLeast sum 3 -> determineRiskLevel threats = Detection.critical)
      /\ (~ atLeast sum 3 -> atLeast sum 2 ->
          determineRiskLevel threats = Detection.high)
      /\ (~ atLeast sum 3 -> ~ atLeast sum 2 -> atLeast sum 1 ->
          determineRiskLevel threats = Detection.medium)
      /\ (~ atLeast sum 3 -> ~ atLeast sum 2 -> ~ atLeast sum 1 ->
          determineRiskLevel threats = Detection.low)).
Proof.
  split; [reflexivity|]. split; [intros ->; reflexivity|].
  intros Hne. destruct threats as [|t0 threats]; [congruence|].
  cbv zeta. unfold determineRiskLevel, weightedSum, atLeast.
  rewrite fold_weightedSum.
  set (sum := weightedSumFrom 0%float (t0 :: threats)).
  destruct (3 <=? sum)%float, (2 <=? sum)%float, (1 <=? sum)%float;
    repeat split; intros; try reflexivity; try congruence; exfalso; auto.
Qed.

(** The sum is the sum of floats: ten times 0.1 at weight 1 add up to the
    float below 1, and the risk level is [low], not [medium]. *)
Lemma tenTenths_low :
  (weightedSum tenTenths <? 1)%float = true
  /\ determineRiskLevel tenTenths = Detection.low.
Proof. split; vm_compute; reflexivity. Qed.

End RiskLevel.
(* ================================================================== *)
(** * utils/helpers.js: the other helpers *)
(* ================================================================== *)

Module HelperUtils.
Import JS.

(** [a < b] and [a >= b] on numbers. *)
Definition Qltb (x y : Q) : bool := negb (Qle_bool y x).
Definition Qgeb (x y : Q) : bool := Qle_bool y x.

(** ** Age groups *)

Inductive ageGroup : Type := child | teen | adult | senior | unknown.

Definition getAgeGroup (age : Q) : ageGroup :=
  if Qgeb age 6 && Qle_bool age 12 then child
  else if Qgeb age 13 && Qle_bool age 17 then teen
  else if Qgeb age 18 && Qle_bool age 64 then adult
  else if Qgeb age 65 then senior
  else unknown.

(** ** Difficulty by age group and performance *)

Definition difficulty_eqb (a b : GameSession.difficulty) : bool :=
  match a, b with
  | GameSession.easy, GameSession.easy
  | GameSession.medium, GameSession.medium
  | GameSession.hard, GameSession.hard
  | GameSession.expert, GameSession.expert => true
  | _, _ => false
  end.

(** [Array.prototype.indexOf]: the first index, or -1. *)
Fixpoint indexOfFrom (ds : list GameSession.difficulty) (d : GameSession.difficulty)
    (i : Z) : Z :=
  match ds with
  | [] => -1
  | x :: r => if difficulty_eqb x d then i else indexOfFrom r d (i + 1)
  end.

Definition indexOf (ds : list GameSession.difficulty) (d : GameSession.difficulty) : Z :=
  indexOfFrom ds d 0.

(** The table lookup [{...}[ageGroup] || 'medium'], for the age groups that
    [getAgeGroup] returns. *)
Definition baseDifficultyOf (g : ageGroup) : GameSession.difficulty :=
  match g with
  | child => GameSession.easy
  | teen => GameSession.medium
  | adult => GameSession.hard
  | senior => GameSession.medium
  | unknown => GameSession.medium
  end.

Definition difficulties : list GameSession.difficulty :=
  [GameSession.easy; GameSession.medium; GameSession.hard; GameSession.expert].

Definition calculateDifficulty (g : ageGroup) (currentPerformance : Q)
    : GameSession.difficulty :=
  let baseDifficulty := baseDifficultyOf g in
  if Detection.Qgtb currentPerformance 80 then
    let currentIndex := indexOf difficulties baseDifficulty in
    nth (Z.to_nat (Z.min (currentIndex + 1) (Z.of_nat (List.length difficulties) - 1)))
      difficulties baseDifficulty
  else if Qltb currentPerformance 40 then
    let currentIndex := indexOf difficulties baseDifficulty in
    nth (Z.to_nat (Z.max (currentIndex - 1) 0)) difficulties baseDifficulty
  else baseDifficulty.

(** The place of a difficulty in the order easy, medium, hard, expert. *)
Definition rank (d : GameSession.difficulty) : Z :=
  match d with
  | GameSession.easy => 0
  | GameSession.medium => 1
  | GameSession.hard => 2
  | GameSession.expert => 3
  end.

(** One step up and one step down in that order, staying within it. *)
Definition stepUp (d : GameSession.difficulty) : GameSession.difficulty :=
  match d with
  | GameSession.easy => GameSession.medium
  | GameSession.medium => GameSession.hard
  | _ => GameSession.expert
  end.

Definition stepDown (d : GameSession.difficulty) : GameSession.difficulty :=
  match d with
  | GameSession.expert => GameSession.hard
  | GameSession.hard => GameSession.medium
  | _ => GameSession.easy
  end.

(** ** Experience points *)

(** The table lookup [{...}[difficulty] || 1], for the four difficulties. *)
Definition xpMultiplier (d : GameSession.difficulty) : Q :=
  match d with
  | GameSession.easy => 1
  | GameSession.medium => 3 # 2
  | GameSession.hard => 2
  | GameSession.expert => 3
  end.

Definition calculateXP (score : Q) (d : GameSession.difficulty) (timeSpent : Q) : Z :=
  let baseXP := (score / 10)%Q in
  let difficultyMultiplier := xpMultiplier d in
  let timeBonus := GameSession.Qmax 0 ((300 - timeSpent) / 10) in
  GameSession.round (baseXP * difficultyMultiplier + timeBonus).

(** ** Security score *)

Section SecurityScore.

(** [Object.values(gameProgress)] is a list of games; [score] reads the
    [score] property of one. *)
Variable Game : Type.
Variable score : Game -> Q.

Definition countGame (acc : Q * Z) (game : Game) : Q * Z :=
  if Detection.Qgtb (score game) 0 then ((fst acc + score game)%Q, snd acc + 1)
  else acc.

Definition calculateSecurityScore (gameProgress : list Game) : Z :=
  let acc := fold_left countGame gameProgress (0%Q, 0) in
  let totalScore := fst acc in
  let gameCount := snd acc in
  if 0 <? gameCount then GameSession.round (totalScore / inject_Z gameCount) else 0.

End SecurityScore.

Arguments countGame {Game}.
Arguments calculateSecurityScore {Game}.

(** ** Threat level *)

Definition classifyThreatLevel (confidence : Q) (impact : jsstring) : Detection.severity :=
  if Qgeb confidence (9 # 10) && JS.eqb impact (u "high") then Detection.critical
  else if Qgeb confidence (7 # 10) && JS.eqb impact (u "high") then Detection.high
  else if Qgeb confidence (7 # 10) && JS.eqb impact (u "medium") then Detection.high
  else if Qgeb confidence (1 # 2) then Detection.medium
  else Detection.low.

(** The place of a threat level in the order low, medium, high, critical. *)
Definition severityRank (s : Detection.severity) : Z :=
  match s with
  | Detection.low => 0
  | Detection.medium => 1
  | Detection.high => 2
  | Detection.critical => 3
  end.

(** ** Sanitising input *)

Fixpoint trimStart (s : jsstring) : jsstring :=
  match s with
  | c :: r => if Regex.isSpace c then trimStart r else s
  | [] => []
  end.

Definition trimEnd (s : jsstring) : jsstring := rev (trimStart (rev s)).

(** [String.prototype.trim]: white space and line terminators are taken off
    both ends. *)
Definition trim (s : jsstring) : jsstring := trimEnd (trimStart s).

(** The code units of [<] and [>]. *)
Definition isAngle (c : Z) : bool := (c =? 60) || (c =? 62).

(** [s.replace(/[<>]/g, '')]. *)
Definition removeAngles (s : jsstring) : jsstring :=
  filter (fun c => negb (isAngle c)) s.

(** [s.substring(0, n)]. *)
Definition substring0 (s : jsstring) (n : nat) : jsstring := firstn n s.

(** The input is a string or some other value. *)
Definition sanitizeInput {A : Type} (input : jsstring + A) : jsstring + A :=
  match input with
  | inl s => inl (substring0 (removeAngles (trim s)) 5000)
  | inr v => inr v
  end.

(** A string without white space at either end, without [<] and [>], and
    of at most 5000 code units. *)
Definition tidy (s : jsstring) : Prop :=
  match s with c :: _ => Regex.isSpace c = false | [] => True end
  /\ match rev s with c :: _ => Regex.isSpace c = false | [] => True end
  /\ Forall (fun c => isAngle c = false) s
  /\ (List.length s <= 5000)%nat.

(** ** Shuffling *)

Section Shuffle.

Variable A : Type.

(** [random k] is what the call number [k] of [Math.random()] returns. *)
Variable random : nat -> Q.

(** [l[i] = x] for an index of the array. *)
Fixpoint update (l : list A) (i : nat) (x : A) : list A :=
  match l, i with
  | [], _ => []
  | _ :: r, O => x :: r
  | y :: r, S i' => y :: update r i' x
  end.

(** [[l[i], l[j]] = [l[j], l[i]]]: both elements are read, then [l[i]] and
    [l[j]] are written, in this order.  The model follows the call as long
    as both indices are indices of the array, and stops ([None]) when one
    is not. *)
Definition swap (l : list A) (i j : nat) : option (list A) :=
  match nth_error l i, nth_error l j with
  | Some a, Some b => Some (update (update l i b) j a)
  | _, _ => None
  end.

(** The loop [for (let i = length - 1; i > 0; i--)], from [i] on, when the
    call number [k] of [Math.random()] is due. *)
Fixpoint shuffleFrom (i k : nat) (shuffled : list A) : option (list A) :=
  match i with
  | O => Some shuffled
  | S i' =>
      let j := Z.to_nat (Qfloor (random k * inject_Z (Z.of_nat (i + 1)))) in
      match swap shuffled i j with
      | Some shuffled' => shuffleFrom i' (S k) shuffled'
      | None => None
      end
  end.

Definition shuffleArray (array : list A) : option (list A) :=
  shuffleFrom (List.length array - 1) 0 array.

(** The questions the start route hands out:
    [shuffleArray(questions).slice(0, 5)]. *)
Definition selectedQuestions (questions : list A) : option (list A) :=
  option_map (fun shuffled => Helpers.slice shuffled 0 5) (shuffleArray questions).

End Shuffle.

Arguments update {A}.
Arguments swap {A}.
Arguments shuffleFrom {A}.
Arguments shuffleArray {A}.
Arguments selectedQuestions {A}.

(** A source of random numbers for examples: every call returns 1/2. *)
Definition halves (k : nat) : Q := 1 # 2.

End HelperUtils.

Module HelperUtilsFacts.
Import JS JSFacts HelperUtils.

(** ** Comparisons *)

Lemma Qltb_lt (x y : Q) : Qltb x y = true <-> (x < y)%Q.
Proof.
  unfold Qltb. rewrite negb_true_iff. split; intros H.
  - apply Qnot_le_lt. intros Hle. apply Qle_bool_iff in Hle. congruence.
  - destruct (Qle_bool y x) eqn:E; [|reflexivity].
    apply Qle_bool_iff in E. exfalso. exact (Qlt_not_le _ _ H E).
Qed.

Lemma Qltb_ge (x y : Q) : Qltb x y = false <-> (y <= x)%Q.
Proof.
  unfold Qltb. rewrite negb_false_iff. apply Qle_bool_iff.
Qed.

Lemma Qgeb_ge (x y : Q) : Qgeb x y = true <-> (y <= x)%Q.
Proof. unfold Qgeb. apply Qle_bool_iff. Qed.

Lemma Qgeb_lt (x y : Q) : Qgeb x y = false <-> (x < y)%Q.
Proof.
  unfold Qgeb. split; intros H.
  - apply Qnot_le_lt. intros Hle. apply Qle_bool_iff in Hle. congruence.
  - destruct (Qle_bool y x) eqn:E; [|reflexivity].
    apply Qle_bool_iff in E. exfalso. exact (Qlt_not_le _ _ H E).
Qed.

Lemma Qgtb_true (x y : Q) : Detection.Qgtb x y = true <-> (y < x)%Q.
Proof.
  unfold Detection.Qgtb. rewrite negb_true_iff. split; intros H.
  - apply Qnot_le_lt. intros Hle. apply Qle_bool_iff in Hle. congruence.
  - destruct (Qle_bool x y) eqn:E; [|reflexivity].
    apply Qle_bool_iff in E. exfalso. exact (Qlt_not_le _ _ H E).
Qed.

Lemma Qgtb_false (x y : Q) : Detection.Qgtb x y = false <-> (x <= y)%Q.
Proof.
  unfold Detection.Qgtb. rewrite negb_false_iff. apply Qle_bool_iff.
Qed.

(** Every test of the helpers, turned into the order it decides. *)
Ltac tests :=
  repeat match goal with
         | |- context [Detection.Qgtb ?x ?y] =>
             let E := fresh "E" in
             destruct (Detection.Qgtb x y) eqn:E;
             [apply Qgtb_true in E | apply Qgtb_false in E]
         | |- context [Qltb ?x ?y] =>
             let E := fresh "E" in
             destruct (Qltb x y) eqn:E; [apply Qltb_lt in E | apply Qltb_ge in E]
         | |- context [Qgeb ?x ?y] =>
             let E := fresh "E" in
             destruct (Qgeb x y) eqn:E; [apply Qgeb_ge in E | apply Qgeb_lt in E]
         | |- context [Qle_bool ?x ?y] =>
             let E := fresh "E" in
             destruct (Qle_bool x y) eqn:E;
             [apply Qle_bool_iff in E | apply DetectionFacts.Qle_bool_false in E]
         end.

Lemma round_mono (x y : Q) : (x <= y)%Q -> GameSession.round x <= GameSession.round y.
Proof.
  intros H. unfold GameSession.round. apply Qfloor_resp_le. lra.
Qed.

Lemma round_nonneg (x : Q) : (0 <= x)%Q -> 0 <= GameSession.round x.
Proof. intros H. exact (round_mono 0 x H). Qed.

Lemma round_Z (z : Z) : GameSession.round (inject_Z z) = z.
Proof.
  unfold GameSession.round.
  assert (H1 : z <= Qfloor (inject_Z z + (1 # 2))).
  { rewrite <- (Qfloor_Z z) at 1. apply Qfloor_resp_le. lra. }
  assert (H2 : (inject_Z (Qfloor (inject_Z z + (1 # 2))) < inject_Z (z + 1))%Q).
  { eapply Qle_lt_trans; [apply Qfloor_le|]. rewrite inject_Z_plus.
    change (inject_Z 1) with 1%Q. lra. }
  rewrite <- Zlt_Qlt in H2. lia.
Qed.

Lemma Qmax_cases (x y : Q) :
  ((x <= y)%Q /\ GameSession.Qmax x y = y) \/ ((y < x)%Q /\ GameSession.Qmax x y = x).
Proof.
  unfold GameSession.Qmax. destruct (Qle_bool x y) eqn:E.
  - left. split; [now apply Qle_bool_iff | reflexivity].
  - right. split; [now apply DetectionFacts.Qle_bool_false | reflexivity].
Qed.

(** ** calculateDifficulty *)

Lemma calculateDifficulty_cases (g : ageGroup) (p : Q) :
  ((80 < p)%Q /\ calculateDifficulty g p = stepUp (baseDifficultyOf g))
  \/ ((p < 40)%Q /\ calculateDifficulty g p = stepDown (baseDifficultyOf g))
  \/ ((40 <= p <= 80)%Q /\ calculateDifficulty g p = baseDifficultyOf g).
Proof.
  unfold calculateDifficulty. tests.
  - left. split; [exact E|]. destruct g; reflexivity.
  - right; left. split; [exact E0|]. destruct g; reflexivity.
  - right; right. split; [split; assumption | reflexivity].
Qed.

(** [calculateDifficulty] never moves more than one step from the base
    difficulty of the age group and is monotone in the performance; it
    answers [expert] only to adults performing above 80, and [easy] only to
    children performing at most 80 and to teens, seniors and unknown age
    groups performing below 40. *)
Theorem calculateDifficulty_steps (g : ageGroup) (p : Q) :
  rank (baseDifficultyOf g) - 1 <= rank (calculateDifficulty g p)
    <= rank (baseDifficultyOf g) + 1
  /\ (forall p', (p <= p')%Q ->
        rank (calculateDifficulty g p) <= rank (calculateDifficulty g p'))
  /\ (calculateDifficulty g p = GameSession.expert <-> g = adult /\ (80 < p)%Q)
  /\ (calculateDifficulty g p = GameSession.easy <->
        (g = child /\ (p <= 80)%Q) \/ (g <> child /\ g <> adult /\ (p < 40)%Q)).
Proof.
  split; [|split; [|split]].
  - destruct (calculateDifficulty_cases g p) as [[_ ->]|[[_ ->]|[_ ->]]];
      destruct g; cbn; lia.
  - intros p' Hp.
    destruct (calculateDifficulty_cases g p) as [[H ->]|[[H ->]|[H ->]]];
    destruct (calculateDifficulty_cases g p') as [[H' ->]|[[H' ->]|[H' ->]]];
    destruct g; cbn; try lia; exfalso; lra.
  - destruct (calculateDifficulty_cases g p) as [[H ->]|[[H ->]|[H ->]]];
      destruct g; cbn; split;
      try discriminate;
      try (intros [? ?]; try discriminate; exfalso; lra);
      intros _; split; [reflexivity | assumption].
  - destruct (calculateDifficulty_cases g p) as [[H ->]|[[H ->]|[H ->]]];
      destruct g; cbn; split; try discriminate;
      try (intros [[? ?]|(? & ? & ?)]; try discriminate; try congruence; exfalso; lra);
      intros _;
      try (left; split; [reflexivity | lra]);
      try (right; split; [discriminate | split; [discriminate | lra]]).
Qed.

(** ** calculateXP *)

Lemma xpMultiplier_pos (d : GameSession.difficulty) : (1 <= xpMultiplier d)%Q.
Proof. destruct d; cbn; lra. Qed.

Lemma tenth (x : Q) : (x / 10 == x * (1 # 10))%Q.
Proof. reflexivity. Qed.

Lemma xp_arg_mono (s s' t t' : Q) (d : GameSession.difficulty) :
  (s <= s')%Q -> (t' <= t)%Q ->
  (s / 10 * xpMultiplier d + GameSession.Qmax 0 ((300 - t) / 10)
   <= s' / 10 * xpMultiplier d + GameSession.Qmax 0 ((300 - t') / 10))%Q.
Proof.
  intros Hs Ht. pose proof (xpMultiplier_pos d) as Hm.
  assert (H1 : (s / 10 * xpMultiplier d <= s' / 10 * xpMultiplier d)%Q).
  { apply Qmult_le_compat_r; [|lra]. rewrite !tenth. lra. }
  destruct (Qmax_cases 0 ((300 - t) / 10)) as [[Ha ->]|[Ha ->]];
  destruct (Qmax_cases 0 ((300 - t') / 10)) as [[Hb ->]|[Hb ->]];
  rewrite ?tenth in *; lra.
Qed.

(** [calculateXP] is not negative for a score that is not negative,
    grows with the score and shrinks with the time spent; from 300 seconds
    on there is no time bonus, and the points are those of the score
    alone. *)
Theorem calculateXP_monotone (score timeSpent : Q) (d : GameSession.difficulty) :
  ((0 <= score)%Q -> 0 <= calculateXP score d timeSpent)
  /\ (forall score' timeSpent',
        (score <= score')%Q -> (timeSpent' <= timeSpent)%Q ->
        calculateXP score d timeSpent <= calculateXP score' d timeSpent')
  /\ ((300 <= timeSpent)%Q ->
      calculateXP score d timeSpent = GameSession.round (score / 10 * xpMultiplier d)).
Proof.
  split; [|split].
  - intros Hs. unfold calculateXP. apply round_nonneg. pose proof (xpMultiplier_pos d) as Hm.
    pose proof (GameSession.Qmax_lower 0 ((300 - timeSpent) / 10)) as Hb.
    assert (H1 : (0 <= score / 10 * xpMultiplier d)%Q).
    { apply Qmult_le_0_compat; [|lra]. rewrite tenth. lra. }
    cbv zeta.
    set (a := (score / 10 * xpMultiplier d)%Q) in *.
    set (b := GameSession.Qmax 0 ((300 - timeSpent) / 10)) in *. lra.
  - intros s' t' Hs Ht. unfold calculateXP. apply round_mono. now apply xp_arg_mono.
  - intros Ht. unfold calculateXP.
    destruct (Qmax_cases 0 ((300 - timeSpent) / 10)) as [[Ha ->]|[Ha ->]].
    + unfold GameSession.round. apply Qfloor_comp.
      assert (H : ((300 - timeSpent) / 10 == 0)%Q) by (rewrite tenth in *; lra).
      rewrite H. ring.
    + unfold GameSession.round. apply Qfloor_comp. ring.
Qed.

(** ** calculateSecurityScore *)

Section SecurityScoreFacts.

Variable Game : Type.
Variable score : Game -> Q.

Lemma countGame_fold (bound : Q) (games : list Game) :
  Forall (fun g => (score g <= bound)%Q) games ->
  forall acc,
    (0 <= snd acc) -> (0 <= fst acc <= inject_Z (snd acc) * bound)%Q ->
    let acc' := fold_left (countGame score) games acc in
    0 <= snd acc'
    /\ (0 <= fst acc' <= inject_Z (snd acc') * bound)%Q
    /\ (snd acc' = 0 -> snd acc = 0 /\ Forall (fun g => (score g <= 0)%Q) games).
Proof.
  induction 1 as [|g games Hg _ IH]; intros acc Hn Hacc; cbn [fold_left].
  - cbv zeta. split; [exact Hn|]. split; [exact Hacc|]. intros E. now split.
  - change (countGame score acc g)
      with (if Detection.Qgtb (score g) 0
            then ((fst acc + score g)%Q, snd acc + 1) else acc).
    destruct (Detection.Qgtb (score g) 0) eqn:E;
      [apply Qgtb_true in E | apply Qgtb_false in E].
    + destruct (IH ((fst acc + score g)%Q, snd acc + 1)) as (H1 & H2 & H3).
      * cbn [snd]. lia.
      * cbn [fst snd]. rewrite inject_Z_plus. change (inject_Z 1) with 1%Q. lra.
      * cbv zeta. split; [exact H1|]. split; [exact H2|].
        intros E0. destruct (H3 E0) as [E1 _]. cbn [snd] in E1. lia.
    + destruct (IH acc Hn Hacc) as (H1 & H2 & H3).
      cbv zeta. split; [exact H1|]. split; [exact H2|].
      intros E0. destruct (H3 E0) as [E1 Hall]. split; [exact E1|].
      constructor; assumption.
Qed.

Lemma securityScore_bounds (games : list Game) (bound : Z) :
  Forall (fun g => (score g <= inject_Z bound)%Q) games ->
  0 <= calculateSecurityScore score games <= Z.max 0 bound
  /\ (Forall (fun g => (score g <= 0)%Q) games ->
      calculateSecurityScore score games = 0).
Proof.
  intros Hall.
  destruct (countGame_fold (inject_Z bound) games Hall (0%Q, 0)) as (Hn & Hb & Hz).
  { cbn. lia. }
  { cbn [fst snd]. change (inject_Z 0) with 0%Q. lra. }
  unfold calculateSecurityScore.
  set (acc := fold_left (countGame score) games (0%Q, 0)) in *.
  split.
  - destruct (Z.ltb_spec 0 (snd acc)) as [Hpos|Hle]; [|lia].
    assert (Hq : (0 < inject_Z (snd acc))%Q).
    { change 0%Q with (inject_Z 0). now rewrite <- Zlt_Qlt. }
    assert (Hlo : (0 <= fst acc / inject_Z (snd acc))%Q).
    { apply Qle_shift_div_l; [exact Hq|]. lra. }
    assert (Hhi : (fst acc / inject_Z (snd acc) <= inject_Z bound)%Q).
    { apply Qle_shift_div_r; [exact Hq|]. lra. }
    split.
    + now apply round_nonneg.
    + transitivity (GameSession.round (inject_Z bound)); [now apply round_mono|].
      rewrite round_Z. lia.
  - intros Hnone.
    destruct (Z.ltb_spec 0 (snd acc)) as [Hpos|Hle]; [|reflexivity].
    exfalso.
    assert (Hfix : forall a, fold_left (countGame score) games a = a).
    { clear -Hnone. induction Hnone as [|g games Hg _ IH]; intros a; [reflexivity|].
      cbn [fold_left].
      change (countGame score a g)
        with (if Detection.Qgtb (score g) 0
              then ((fst a + score g)%Q, snd a + 1) else a).
      apply Qgtb_false in Hg. rewrite Hg. apply IH. }
    unfold acc in Hpos. rewrite Hfix in Hpos. cbn in Hpos. lia.
Qed.

Lemma securityScore_nonneg (games : list Game) :
  0 <= calculateSecurityScore score games.
Proof.
  assert (Hb : exists bound : Z,
             Forall (fun g => (score g <= inject_Z bound)%Q) games).
  { induction games as [|g games' (b & Hb)]; [exists 0; constructor|].
    exists (Z.max b (Qceiling (score g))). constructor.
    - eapply Qle_trans; [apply Qle_ceiling|]. rewrite <- Zle_Qle. lia.
    - eapply Forall_impl; [|exact Hb]. cbn. intros a Ha.
      eapply Qle_trans; [exact Ha|]. rewrite <- Zle_Qle. lia. }
  destruct Hb as (b & Hb). now destruct (securityScore_bounds games b Hb) as [[? _] _].
Qed.

(** [calculateSecurityScore] is never negative; it is 0 when no game
    has a positive score, and it does not exceed a whole number that no
    score exceeds (games without a positive score are not counted). *)
Theorem calculateSecurityScore_bounds (games : list Game) :
  0 <= calculateSecurityScore score games
  /\ (forall bound : Z,
        Forall (fun g => (score g <= inject_Z bound)%Q) games ->
        calculateSecurityScore score games <= Z.max 0 bound)
  /\ (Forall (fun g => (score g <= 0)%Q) games ->
      calculateSecurityScore score games = 0).
Proof.
  split; [|split].
  - apply securityScore_nonneg.
  - intros bound Hb. now destruct (securityScore_bounds games bound Hb) as [[_ ?] _].
  - intros Hn.
    assert (Hb : Forall (fun g => (score g <= inject_Z 0)%Q) games) by exact Hn.
    destruct (securityScore_bounds games 0 Hb) as [_ H]. exact (H Hn).
Qed.

End SecurityScoreFacts.

(** ** classifyThreatLevel *)

(** [classifyThreatLevel] is monotone in the confidence; below 0.5 it
    answers [low] whatever the impact, it answers [critical] only for the
    impact 'high', and from 0.7 on the impacts 'medium' and 'high' both
    give at least [high]. *)
Theorem classifyThreatLevel_monotone (c : Q) (impact : jsstring) :
  (forall c', (c <= c')%Q ->
     severityRank (classifyThreatLevel c impact)
     <= severityRank (classifyThreatLevel c' impact))
  /\ ((c < 1 # 2)%Q <-> classifyThreatLevel c impact = Detection.low)
  /\ (classifyThreatLevel c impact = Detection.critical <->
      (9 # 10 <= c)%Q /\ impact = u "high")
  /\ ((7 # 10 <= c)%Q -> impact = u "medium" ->
      classifyThreatLevel c impact = Detection.high).
Proof.
  assert (Hm : JS.eqb (u "medium") (u "high") = false) by reflexivity.
  split; [|split; [|split]].
  - intros c' Hc. unfold classifyThreatLevel.
    destruct (JS.eqb impact (u "high")), (JS.eqb impact (u "medium"));
      tests; cbn; try lia; exfalso; lra.
  - unfold classifyThreatLevel.
    destruct (JS.eqb impact (u "high")), (JS.eqb impact (u "medium"));
      tests; cbn; split; intros; try discriminate; try reflexivity; try assumption;
      exfalso; lra.
  - unfold classifyThreatLevel.
    destruct (JS.eqb impact (u "high")) eqn:Eh;
      [apply eqb_eq in Eh|];
      destruct (JS.eqb impact (u "medium"));
      tests; cbn; split; try discriminate; try (intros [? ?]); try (exfalso; lra);
      try (split; assumption);
      try (subst impact; rewrite eqb_refl in Eh; discriminate).
  - intros Hc ->. unfold classifyThreatLevel. rewrite Hm.
    change (JS.eqb (u "medium") (u "medium")) with true.
    tests; cbn; try reflexivity; exfalso; lra.
Qed.

(** ** sanitizeInput *)

Lemma trimStart_length (s : jsstring) :
  (List.length (trimStart s) <= List.length s)%nat.
Proof.
  induction s as [|c s IH]; cbn [trimStart]; [lia|].
  destruct (Regex.isSpace c); cbn [List.length]; lia.
Qed.

Lemma trim_length (s : jsstring) : (List.length (trim s) <= List.length s)%nat.
Proof.
  unfold trim, trimEnd. rewrite length_rev.
  eapply Nat.le_trans; [apply trimStart_length|]. rewrite length_rev.
  apply trimStart_length.
Qed.

Lemma trimStart_head (s : jsstring) :
  match trimStart s with
  | c :: _ => Regex.isSpace c = false
  | [] => True
  end.
Proof.
  induction s as [|c s IH]; cbn [trimStart]; [exact I|].
  destruct (Regex.isSpace c) eqn:E; [exact IH | exact E].
Qed.

Lemma trimStart_id (s : jsstring) :
  match s with
  | c :: _ => Regex.isSpace c = false
  | [] => True
  end -> trimStart s = s.
Proof.
  destruct s as [|c s]; cbn [trimStart]; [reflexivity|]. now intros ->.
Qed.

Lemma removeAngles_clean (s : jsstring) :
  Forall (fun c => isAngle c = false) (removeAngles s).
Proof.
  apply Forall_forall. intros c Hc. apply filter_In in Hc.
  destruct Hc as [_ Hc]. now apply negb_true_iff.
Qed.

Lemma removeAngles_id (s : jsstring) :
  Forall (fun c => isAngle c = false) s -> removeAngles s = s.
Proof.
  induction 1 as [|c s Hc _ IH]; [reflexivity|].
  unfold removeAngles in *. cbn [filter]. rewrite Hc. cbn [negb]. now rewrite IH.
Qed.

Lemma Forall_firstn {A : Type} (P : A -> Prop) (n : nat) (l : list A) :
  Forall P l -> Forall P (firstn n l).
Proof.
  intros H. rewrite <- (firstn_skipn n l) in H. now apply Forall_app in H.
Qed.

(** [sanitizeInput] leaves a value that is not a string alone.  What
    it returns for a string has no [<] and no [>], has at most 5000 code
    units and no more than the string had; a tidy string (nothing to trim,
    no [<] or [>], at most 5000 code units) is returned as it is. *)
Theorem sanitizeInput_string {A : Type} (s : jsstring) :
  (forall v : A, sanitizeInput (inr v) = inr v)
  /\ exists out,
      sanitizeInput (A := A) (inl s) = inl out
      /\ Forall (fun c => isAngle c = false) out
      /\ (List.length out <= 5000)%nat
      /\ (List.length out <= List.length s)%nat
      /\ (tidy s -> out = s).
Proof.
  split; [reflexivity|].
  exists (substring0 (removeAngles (trim s)) 5000). split; [reflexivity|].
  split; [apply Forall_firstn, removeAngles_clean|].
  split; [apply firstn_le_length|].
  split.
  { unfold substring0. rewrite length_firstn.
    pose proof (filter_length_le (fun c => negb (isAngle c)) (trim s)) as H1.
    pose proof (trim_length s) as H2. unfold removeAngles. lia. }
  intros (Hh & Hl & Ha & Hn).
  unfold substring0, trim, trimEnd. rewrite (trimStart_id s Hh).
  rewrite (trimStart_id (rev s) Hl), rev_involutive, (removeAngles_id s Ha).
  now apply firstn_all2.
Qed.

(** ** shuffleArray *)

Section ShuffleFacts.

Variable A : Type.
Variable random : nat -> Q.

Lemma update_length (l : list A) : forall i x,
  List.length (update l i x) = List.length l.
Proof.
  induction l as [|y l IH]; intros [|i] x; cbn; auto.
Qed.

Lemma update_same (l : list A) : forall i x,
  (i < List.length l)%nat -> nth_error (update l i x) i = Some x.
Proof.
  induction l as [|y l IH]; intros [|i] x H; cbn in *; try lia; [reflexivity|].
  apply IH. lia.
Qed.

Lemma update_other (l : list A) : forall i j x,
  i <> j -> nth_error (update l i x) j = nth_error l j.
Proof.
  induction l as [|y l IH]; intros [|i] [|j] x H; cbn; try reflexivity; try congruence.
  apply IH. congruence.
Qed.

Lemma update_perm (l : list A) : forall i a x,
  nth_error l i = Some a -> Permutation (a :: update l i x) (x :: l).
Proof.
  induction l as [|y l IH]; intros [|i] a x H; cbn in *; try discriminate.
  - inversion H; subst. apply perm_swap.
  - eapply perm_trans; [apply perm_swap|].
    eapply perm_trans; [apply perm_skip, IH, H|]. apply perm_swap.
Qed.

Lemma swap_perm (l l' : list A) (i j : nat) :
  swap l i j = Some l' -> Permutation l l'.
Proof.
  unfold swap. destruct (nth_error l i) as [a|] eqn:Ei; [|discriminate].
  destruct (nth_error l j) as [b|] eqn:Ej; [|discriminate].
  intros H. inversion H; subst l'; clear H.
  assert (Hi : (i < List.length l)%nat) by (apply nth_error_Some; congruence).
  assert (Hj : nth_error (update l i b) j = Some b).
  { destruct (Nat.eq_dec i j) as [<-|Hne].
    - now apply update_same.
    - now rewrite update_other. }
  pose proof (update_perm l i a b Ei) as H1.
  pose proof (update_perm (update l i b) j b a Hj) as H2.
  apply Permutation_cons_inv with (a := b). symmetry.
  eapply perm_trans; [exact H2|]. exact H1.
Qed.

Lemma swap_defined (l : list A) (i j : nat) :
  (i < List.length l)%nat -> (j < List.length l)%nat ->
  exists l', swap l i j = Some l'.
Proof.
  intros Hi Hj. unfold swap.
  destruct (nth_error l i) eqn:Ei; [|apply nth_error_None in Ei; lia].
  destruct (nth_error l j) eqn:Ej; [|apply nth_error_None in Ej; lia].
  eauto.
Qed.

Hypothesis random_range : forall k, (0 <= random k < 1)%Q.

Lemma index_range (i k : nat) :
  (Z.to_nat (Qfloor (random k * inject_Z (Z.of_nat (i + 1)))) <= i)%nat.
Proof.
  destruct (random_range k) as [H0 H1].
  set (n := inject_Z (Z.of_nat (i + 1))).
  assert (Hn : (0 < n)%Q).
  { unfold n. change 0%Q with (inject_Z 0). rewrite <- Zlt_Qlt. lia. }
  assert (Hlt : (inject_Z (Qfloor (random k * n)) < n)%Q).
  { eapply Qle_lt_trans; [apply Qfloor_le|].
    rewrite <- (Qmult_1_l n) at 2. apply Qmult_lt_compat_r; assumption. }
  unfold n in *. rewrite <- Zlt_Qlt in Hlt. lia.
Qed.

Lemma shuffleFrom_perm : forall i k (l : list A),
  (i < List.length l)%nat \/ i = 0%nat ->
  exists l', shuffleFrom random i k l = Some l' /\ Permutation l l'.
Proof.
  induction i as [|i IH]; intros k l Hi; cbn [shuffleFrom].
  - exists l. split; [reflexivity | apply Permutation_refl].
  - destruct Hi as [Hi|Hi]; [|discriminate].
    pose proof (index_range (S i) k) as Hj. cbv zeta.
    set (j := Z.to_nat (Qfloor (random k * inject_Z (Z.of_nat (S i + 1))))) in *.
    destruct (swap_defined l (S i) j Hi ltac:(lia)) as (l1 & Hl1).
    rewrite Hl1.
    pose proof (swap_perm _ _ _ _ Hl1) as Hp.
    destruct (IH (S k) l1) as (l' & Hl' & Hp').
    { left. rewrite <- (Permutation_length Hp). lia. }
    exists l'. split; [exact Hl'|]. eapply perm_trans; eassumption.
Qed.

Lemma shuffleArray_perm (array : list A) :
  exists shuffled,
    shuffleArray random array = Some shuffled /\ Permutation array shuffled.
Proof.
  unfold shuffleArray. apply shuffleFrom_perm.
  destruct array as [|x array]; [now right | left; cbn; lia].
Qed.

(** With [Math.random()] in [0, 1), every index [shuffleArray] draws
    is an index of the array, and the array it returns is a permutation of
    its argument: the same elements, as often, so also as many. *)
Theorem shuffleArray_permutation (array : list A) :
  exists shuffled,
    shuffleArray random array = Some shuffled
    /\ Permutation array shuffled
    /\ List.length shuffled = List.length array.
Proof.
  destruct (shuffleArray_perm array) as (shuffled & Hs & Hp).
  exists shuffled. split; [exact Hs|]. split; [exact Hp|].
  symmetry. now apply Permutation_length.
Qed.

(** The questions of the start route, [shuffleArray(questions)
    .slice(0, 5)]: five of the pool, or all of them when the pool has fewer;
    every one is a question of the pool, and none is handed out twice
    unless the pool lists it twice. *)
Theorem selectedQuestions_from_pool (questions : list A) :
  exists selected,
    selectedQuestions random questions = Some selected
    /\ List.length selected = Nat.min 5 (List.length questions)
    /\ incl selected questions
    /\ (NoDup questions -> NoDup selected).
Proof.
  destruct (shuffleArray_perm questions) as (shuffled & Hs & Hp).
  unfold selectedQuestions. rewrite Hs. cbn [option_map].
  exists (Helpers.slice shuffled 0 5). split; [reflexivity|].
  rewrite Helpers.slice_in_range by lia.
  change (Z.to_nat (5 - 0)) with 5%nat. change (Z.to_nat 0) with 0%nat.
  cbn [skipn]. split; [|split].
  - rewrite length_firstn, (Permutation_length Hp). reflexivity.
  - intros x Hx. apply (Permutation_in x (Permutation_sym Hp)).
    rewrite <- (firstn_skipn 5 shuffled). apply in_or_app. now left.
  - intros Hnd. assert (Hnd' : NoDup shuffled) by exact (Permutation_NoDup Hp Hnd).
    rewrite <- (firstn_skipn 5 shuffled) in Hnd'.
    exact (NoDup_app_remove_r _ _ Hnd').
Qed.

End ShuffleFacts.

Lemma halves_range (k : nat) : (0 <= halves k < 1)%Q.
Proof. unfold halves. lra. Qed.

Lemma shuffleArray_permutation_witness :
  exists shuffled,
    shuffleArray halves [1; 2; 3; 4; 5; 6; 7] = Some shuffled
    /\ Permutation [1; 2; 3; 4; 5; 6; 7] shuffled
    /\ List.length shuffled = 7%nat.
Proof.
  exact (shuffleArray_permutation Z halves halves_range [1; 2; 3; 4; 5; 6; 7]).
Defined.

Lemma selectedQuestions_from_pool_witness :
  exists selected,
    selectedQuestions halves [1; 2; 3; 4; 5; 6; 7] = Some selected
    /\ List.length selected = 5%nat
    /\ incl selected [1; 2; 3; 4; 5; 6; 7]
    /\ (NoDup [1; 2; 3; 4; 5; 6; 7] -> NoDup selected).
Proof.
  exact (selectedQuestions_from_pool Z halves halves_range [1; 2; 3; 4; 5; 6; 7]).
Defined.

(** ** paginate, for any page *)

(** For a limit that is not negative and any page number,
    [paginate] returns as [data] a run of consecutive elements of the array,
    at most [limit] of them; a page that starts at or after the end of the
    array has no data and no [next] marker. *)
Theorem paginate_any_page {A : Type} (array : list A) (page limit : Z) :
  0 <= limit ->
  let r := Helpers.paginate array page limit in
  (Z.of_nat (List.length (Helpers.data r)) <= limit)
  /\ (exists before after, array = before ++ Helpers.data r ++ after)
  /\ (1 <= page -> Z.of_nat (List.length array) <= (page - 1) * limit ->
      Helpers.data r = [] /\ Helpers.next r = None).
Proof.
  intros Hl r. subst r. unfold Helpers.paginate. cbn [Helpers.data Helpers.next].
  unfold Helpers.slice.
  set (len := Z.of_nat (List.length array)).
  set (k := if (page - 1) * limit <? 0 then Z.max (len + (page - 1) * limit) 0
            else Z.min ((page - 1) * limit) len).
  set (final := if page * limit <? 0 then Z.max (len + page * limit) 0
                else Z.min (page * limit) len).
  assert (Hfk : final - k <= limit).
  { unfold k, final.
    destruct (Z.ltb_spec ((page - 1) * limit) 0), (Z.ltb_spec (page * limit) 0); nia. }
  split; [|split].
  - rewrite length_firstn. lia.
  - exists (firstn (Z.to_nat k) array),
      (skipn (Z.to_nat (final - k)) (skipn (Z.to_nat k) array)).
    now rewrite firstn_skipn, firstn_skipn.
  - intros Hp Hlen.
    assert (Hk : k = len).
    { unfold k. destruct (Z.ltb_spec ((page - 1) * limit) 0); nia. }
    split.
    + rewrite skipn_all2 by (rewrite Hk; unfold len; lia). apply firstn_nil.
    + destruct (Z.ltb_spec (page * limit) len) as [H|H]; [nia | reflexivity].
Qed.

Lemma paginate_any_page_witness :
  let r := Helpers.paginate [1; 2; 3; 4; 5] 4 2 in
  (Z.of_nat (List.length (Helpers.data r)) <= 2)
  /\ (exists before after, [1; 2; 3; 4; 5] = before ++ Helpers.data r ++ after)
  /\ (1 <= 4 -> Z.of_nat (List.length [1; 2; 3; 4; 5]) <= (4 - 1) * 2 ->
      Helpers.data r = [] /\ Helpers.next r = None).
Proof.
  exact (paginate_any_page [1; 2; 3; 4; 5] 4 2 ltac:(lia)).
Defined.

End HelperUtilsFacts.

(* ================================================================== *)
(** * models/User.js: age group, levels, achievements, security score *)
(* ================================================================== *)

Module UserModel.
Import JS.

Record achievement : Type := mkAchievement {
  achievementId : jsstring;
  a_name : jsstring;
  a_description : jsstring;
  a_icon : jsstring
}.

(** One entry of [gameProgress]; [completedAt] is absent until it is set. *)
Record gameEntry : Type := mkGameEntry {
  g_completed : bool;
  g_score : Q;
  g_level : Z;
  completedAt : option Z
}.

(** The fields of a user document that the methods below read or write.
    [gameProgress] is the nested object, its properties in schema order. *)
Record user : Type := mkUser {
  age : Q;
  ageGroup : HelperUtils.ageGroup;
  securityScore : Z;
  level : Z;
  experience : Z;
  achievements : list achievement;
  gameProgress : list (jsstring * gameEntry)
}.

(** The property names of [gameProgress] in the schema. *)
Definition progressKeys : list jsstring :=
  [ u "scamSpotter"; u "threatHunter"; u "firewallCommander";
    u "privacyGuardian"; u "cryptoDefender"; u "socialSentinel" ].

(** The schema's defaults. *)
Definition defaultEntry : gameEntry := mkGameEntry false 0 1 None.

Definition defaultProgress : list (jsstring * gameEntry) :=
  map (fun k => (k, defaultEntry)) progressKeys.

(** A user as [User.create] leaves it, for an age and the age group given. *)
Definition newUser (a : Q) (g : HelperUtils.ageGroup) : user :=
  mkUser a g 0 1 0 [] defaultProgress.

(** The branch of the [pre('save')] hook taken when [age] is modified. *)
Definition ageGroupOnSave (a : Q) : HelperUtils.ageGroup :=
  if HelperUtils.Qgeb a 6 && Qle_bool a 12 then HelperUtils.child
  else if HelperUtils.Qgeb a 13 && Qle_bool a 17 then HelperUtils.teen
  else if HelperUtils.Qgeb a 18 && Qle_bool a 64 then HelperUtils.adult
  else HelperUtils.senior.

Definition preSaveAgeGroup (ageModified : bool) (usr : user) : user :=
  if ageModified then
    mkUser (age usr) (ageGroupOnSave (age usr)) (securityScore usr) (level usr)
      (experience usr) (achievements usr) (gameProgress usr)
  else usr.

(** [Object.values(this.gameProgress)]. *)
Definition values {V : Type} (obj : list (jsstring * V)) : list V := map snd obj.

Definition updateSecurityScore (usr : user) : user * Z :=
  let acc :=
    fold_left
      (fun (acc : Q * Z) game =>
         if Detection.Qgtb (g_score game) 0
         then ((fst acc + g_score game)%Q, snd acc + 1)
         else acc)
      (values (gameProgress usr)) (0%Q, 0) in
  let totalScore := fst acc in
  let gameCount := snd acc in
  let s :=
    if 0 <? gameCount then GameSession.round (totalScore / inject_Z gameCount) else 0 in
  (mkUser (age usr) (ageGroup usr) s (level usr) (experience usr)
     (achievements usr) (gameProgress usr), s).

Definition checkLevelUp (usr : user) : user * bool :=
  let requiredXP := level usr * 100 in
  if requiredXP <=? experience usr then
    (mkUser (age usr) (ageGroup usr) (securityScore usr) (level usr + 1)
       (experience usr - requiredXP) (achievements usr) (gameProgress usr), true)
  else (usr, false).

Definition addAchievement (usr : user) (a : achievement) : user :=
  let pushed :=
    mkUser (age usr) (ageGroup usr) (securityScore usr) (level usr)
      (experience usr + 100) (achievements usr ++ [a]) (gameProgress usr) in
  fst (checkLevelUp pushed).

(** The experience a user has gathered in all: the points the levels
    reached have cost (100 for level 1, 200 for level 2, ...) and the
    points at hand. *)
Definition gathered (usr : user) : Z :=
  50 * level usr * (level usr - 1) + experience usr.

(** ** routes/games.js: achievements *)

Definition firstGame : achievement :=
  mkAchievement (u "first_game") (u "First Steps")
    (u "Complete your first security game") [63743; 252; 233; 198].

Definition perfectScore : achievement :=
  mkAchievement (u "perfect_score") (u "Flawless Victory")
    (u "Get a perfect score in any game") [8218; 8800; 234].

Definition speedRunner : achievement :=
  mkAchievement (u "speed_runner") (u "Speed Runner")
    (u "Complete a game in under 1 minute") [].

(** [ids.includes(id)] on an array of strings. *)
Definition holds (ids : list jsstring) (id : jsstring) : bool :=
  existsb (JS.eqb id) ids.

(** [checkAchievements(user, gameSession)]: the user after the calls of
    [addAchievement], the achievements returned, and whether the user was
    saved. *)
Definition checkAchievements (usr : user) (s : GameSession.session)
    : user * list achievement * bool :=
  let userAchievementIds := map achievementId (achievements usr) in
  let a1 :=
    if negb (holds userAchievementIds (u "first_game")) then [firstGame] else [] in
  let a2 :=
    if (GameSession.accuracy s =? 100)
       && negb (holds userAchievementIds (u "perfect_score"))
    then a1 ++ [perfectScore] else a1 in
  let a3 :=
    if (GameSession.timeSpent s <? 60)
       && negb (holds userAchievementIds (u "speed_runner"))
    then a2 ++ [speedRunner] else a2 in
  (fold_left addAchievement a3 usr, a3, (0 <? Z.of_nat (List.length a3))).

End UserModel.

Module UserModelFacts.
Import JS JSFacts HelperUtils HelperUtilsFacts UserModel.

(** [getAgeGroup] and the [pre('save')] hook of the user model agree
    on every age for which [getAgeGroup] names a group, so on every whole
    age from 6 on; [getAgeGroup] answers 'unknown' exactly below 6 and
    strictly between 12 and 13, 17 and 18, 64 and 65, where the hook says
    'senior'. *)
Theorem getAgeGroup_and_hook (a : Q) :
  (getAgeGroup a <> unknown -> ageGroupOnSave a = getAgeGroup a)
  /\ (getAgeGroup a = unknown -> ageGroupOnSave a = senior)
  /\ (getAgeGroup a = unknown <->
      (a < 6 \/ 12 < a < 13 \/ 17 < a < 18 \/ 64 < a < 65)%Q)
  /\ (forall n : Z, 6 <= n -> a = inject_Z n -> getAgeGroup a <> unknown).
Proof.
  split; [|split; [|split]].
  - unfold getAgeGroup, ageGroupOnSave. tests; cbn; congruence.
  - unfold getAgeGroup, ageGroupOnSave. tests; cbn; congruence.
  - unfold getAgeGroup. tests; cbn; split; intros H; try discriminate;
      try reflexivity;
      try (destruct H as [H|[H|[H|H]]]; exfalso; lra);
      first [left; lra | right; left; lra | right; right; left; lra
            | right; right; right; lra].
  - intros n Hn ->. unfold getAgeGroup.
    tests; cbn; try discriminate.
    all: unfold Qlt, Qle, inject_Z in *; cbn [Qnum Qden] in *; lia.
Qed.

Lemma checkLevelUp_spec (usr : user) :
  let r := checkLevelUp usr in
  gathered (fst r) = gathered usr
  /\ (snd r = true <-> level usr * 100 <= experience usr)
  /\ level (fst r) = (if snd r then level usr + 1 else level usr)
  /\ (1 <= level usr -> 0 <= experience usr ->
      1 <= level (fst r) /\ 0 <= experience (fst r))
  /\ achievements (fst r) = achievements usr
  /\ gameProgress (fst r) = gameProgress usr.
Proof.
  unfold checkLevelUp, gathered.
  destruct (Z.leb_spec (level usr * 100) (experience usr)) as [H|H];
    cbn [fst snd level experience achievements gameProgress].
  - repeat split; try lia; auto.
  - repeat split; try lia; auto; try discriminate.
Qed.

(** [checkLevelUp] turns experience into at most one level: it
    answers [true] exactly when the experience covers 100 times the level,
    and then the level grows by one and the experience shrinks by that
    cost; the experience gathered in all is kept, and experience that is
    not negative stays so.  [addAchievement] appends the achievement and
    adds exactly 100 to the experience gathered in all. *)
Theorem checkLevelUp_keeps_experience (usr : user) (a : achievement) :
  let r := checkLevelUp usr in
  gathered (fst r) = gathered usr
  /\ (snd r = true <-> level usr * 100 <= experience usr)
  /\ level (fst r) = (if snd r then level usr + 1 else level usr)
  /\ (1 <= level usr -> 0 <= experience usr ->
      1 <= level (fst r) /\ 0 <= experience (fst r))
  /\ gathered (addAchievement usr a) = gathered usr + 100
  /\ achievements (addAchievement usr a) = achievements usr ++ [a]
  /\ level usr <= level (addAchievement usr a) <= level usr + 1.
Proof.
  cbv zeta.
  destruct (checkLevelUp_spec usr) as (H1 & H2 & H3 & H4 & _).
  split; [exact H1|]. split; [exact H2|]. split; [exact H3|]. split; [exact H4|].
  unfold addAchievement.
  set (pushed := mkUser _ _ _ _ _ _ _).
  destruct (checkLevelUp_spec pushed) as (P1 & _ & P3 & _ & P5 & _).
  cbv zeta in P1, P3, P5. rewrite P1, P3, P5.
  split; [unfold gathered, pushed; cbn [level experience]; lia|].
  split; [reflexivity|].
  destruct (snd (checkLevelUp pushed)); unfold pushed; cbn [level]; lia.
Qed.

(** ** checkAchievements *)

Lemma holds_In (ids : list jsstring) (id : jsstring) :
  holds ids id = true <-> In id ids.
Proof.
  unfold holds. rewrite existsb_exists. split.
  - intros (y & Hy & E). apply eqb_eq in E. now subst.
  - intros H. exists id. split; [exact H | apply eqb_refl].
Qed.

Lemma addAchievements_spec (awards : list achievement) : forall usr,
  achievements (fold_left addAchievement awards usr) = achievements usr ++ awards
  /\ gathered (fold_left addAchievement awards usr)
     = gathered usr + 100 * Z.of_nat (List.length awards)
  /\ gameProgress (fold_left addAchievement awards usr) = gameProgress usr.
Proof.
  induction awards as [|a awards IH]; intros usr; cbn [fold_left].
  - rewrite app_nil_r. cbn. repeat split. lia.
  - destruct (IH (addAchievement usr a)) as (H1 & H2 & H3).
    rewrite H1, H2, H3. unfold addAchievement.
    set (pushed := mkUser _ _ _ _ _ _ _).
    destruct (checkLevelUp_spec pushed) as (P1 & _ & _ & _ & P5 & P6).
    cbv zeta in P1, P5, P6. rewrite P1, P5, P6. unfold pushed at 1 3.
    cbn [achievements gameProgress]. rewrite <- app_assoc. cbn [app].
    split; [reflexivity|]. split; [|reflexivity].
    unfold gathered, pushed. cbn [level experience List.length]. lia.
Qed.

(** [checkAchievements] awards only what the user does not hold yet:
    no identifier returned is among the user's, none is returned twice, and
    each is one of 'first_game', 'perfect_score' and 'speed_runner'.  The
    user then holds the old achievements followed by the new ones, among
    them 'first_game', and has gathered 100 experience for each; a second
    call for the same session awards nothing and does not save. *)
Theorem checkAchievements_awards_once (usr : user) (s : GameSession.session) :
  let r := checkAchievements usr s in
  let usr' := fst (fst r) in
  let awards := snd (fst r) in
  let ids := map achievementId (achievements usr) in
  (forall a, In a awards -> ~ In (achievementId a) ids)
  /\ NoDup (map achievementId awards)
  /\ incl awards [firstGame; perfectScore; speedRunner]
  /\ achievements usr' = achievements usr ++ awards
  /\ In (u "first_game") (map achievementId (achievements usr'))
  /\ gathered usr' = gathered usr + 100 * Z.of_nat (List.length awards)
  /\ (snd r = true <-> awards <> [])
  /\ checkAchievements usr' s = (usr', [], false).
Proof.
  cbv zeta. unfold checkAchievements.
  set (ids := map achievementId (achievements usr)).
  destruct (holds ids (u "first_game")) eqn:E1;
  destruct (GameSession.accuracy s =? 100) eqn:Ea;
  destruct (holds ids (u "perfect_score")) eqn:E2;
  destruct (GameSession.timeSpent s <? 60) eqn:Et;
  destruct (holds ids (u "speed_runner")) eqn:E3;
  cbn [negb andb app fst snd];
  match goal with
  | |- context [fold_left addAchievement ?aw usr] =>
      destruct (addAchievements_spec aw usr) as (H1 & H2 & H3);
      set (usr' := fold_left addAchievement aw usr) in *
  end;
  (split; [intros a Ha; cbn [In] in Ha; intros Hin; apply holds_In in Hin;
           repeat (destruct Ha as [<-|Ha]; [cbn [achievementId firstGame
             perfectScore speedRunner] in Hin; congruence|]); exact Ha|]);
  (split; [cbn; repeat constructor; cbn; intuition discriminate|]);
  (split; [intros a Ha; cbn [In] in *; intuition auto|]);
  (split; [exact H1|]);
  (split; [rewrite H1, map_app, in_app_iff; try (left; apply holds_In; exact E1);
           right; cbn; auto|]);
  (split; [exact H2|]);
  (split; [cbn; split; [intros; try discriminate | intros H; try reflexivity;
           try congruence]|]);
  rewrite H1, map_app; fold ids;
  repeat match goal with
         | |- context [holds (ids ++ ?l) ?id] =>
             let v := fresh "v" in
             assert (v : holds (ids ++ l) id = true)
               by (apply holds_In, in_app_iff;
                   first [left; apply holds_In; assumption
                         | right; cbn; tauto]);
             rewrite v; clear v
         end;
  rewrite ?andb_false_r; cbn [negb andb]; reflexivity.
Qed.

(** The method [updateSecurityScore] of the user model stores and
    returns what [calculateSecurityScore] of the helpers computes from the
    same [gameProgress], and changes nothing else. *)
Theorem updateSecurityScore_is_helper (usr : user) :
  let r := updateSecurityScore usr in
  snd r = calculateSecurityScore g_score (values (gameProgress usr))
  /\ securityScore (fst r) = snd r
  /\ 0 <= snd r
  /\ level (fst r) = level usr /\ experience (fst r) = experience usr
  /\ achievements (fst r) = achievements usr
  /\ gameProgress (fst r) = gameProgress usr.
Proof.
  cbv zeta. split; [reflexivity|]. split; [reflexivity|].
  split; [|repeat split].
  change (snd (updateSecurityScore usr))
    with (calculateSecurityScore g_score (values (gameProgress usr))).
  apply securityScore_nonneg.
Qed.

End UserModelFacts.

(* ================================================================== *)
(** * middleware/auth.js on the user model of the repository *)
(* ================================================================== *)

Module AuthGuards.
Import JS Auth.

(** The instance methods the user schema defines
    ([userSchema.methods.<name> = ...]). *)
Definition userMethods : list jsstring :=
  [ u "correctPassword"; u "updateSecurityScore"; u "addAchievement"; u "checkLevelUp" ].

(** The paths of the user schema, at top level. *)
Definition userPaths : list jsstring :=
  [ u "email"; u "password"; u "firstName"; u "lastName"; u "age"; u "ageGroup";
    u "persona"; u "securityScore"; u "level"; u "experience"; u "achievements";
    u "gameProgress"; u "family"; u "enterprise"; u "settings"; u "lastActive";
    u "isVerified"; u "verificationToken"; u "resetPasswordToken";
    u "resetPasswordExpires" ].

Definition defines (names : list jsstring) (name : jsstring) : bool :=
  existsb (JS.eqb name) names.

Section Guards.

Variable User : Type.
Variable JWT_SECRET : jsstring.
Variable verify : jsstring -> jsstring -> option decoded.
Variable findById : jsstring -> @lookup User.

(** [user.changedPasswordAfter(decoded.iat)] on a document of a model with
    the instance methods [methods]: the call of a method the model does not
    define throws a [TypeError] ([None]); [impl] is the body of the method
    where there is one. *)
Definition callChangedPasswordAfter (methods : list jsstring)
    (impl : User -> Z -> bool) (usr : User) (issued : Z) : option bool :=
  if defines methods (u "changedPasswordAfter") then Some (impl usr issued) else None.

(** [protect], with the call of the method as it may end; what the call
    throws is caught by the inner [try]. *)
Definition protectOn (changedPasswordAfter : User -> Z -> option bool)
    (req : @request User) : @outcome User :=
  match extractToken (req_headers req) with
  | Some token =>
      if negb (truthy (Some token)) then notAuthorized User
      else
        match verify token JWT_SECRET with
        | None => notAuthorized User
        | Some d =>
            match findById (id d) with
            | Rejects => notAuthorized User
            | Missing =>
                Responds 401 (mkErrorBody (u "error") (u "User no longer exists"))
            | Found usr =>
                match changedPasswordAfter usr (iat d) with
                | None => notAuthorized User
                | Some true =>
                    Responds 401
                      (mkErrorBody (u "error")
                         (u "User recently changed password. Please log in again."))
                | Some false => Next (mkRequest (req_headers req) (Some usr))
                end
            end
        end
  | None => notAuthorized User
  end.

(** ** authorize *)

(** What a middleware without a [try] of its own can do. *)
Inductive guard : Type :=
| Answers (code : Z) (body : errorBody)
| Continues (req : @request User)
| Raises.

(** [req.user.role]: [None] when the document has no such property. *)
Variable role : User -> option jsstring.

(** [String(role)] in the template of the message. *)
Definition roleText (r : option jsstring) : jsstring :=
  match r with
  | Some s => s
  | None => u "undefined"
  end.

(** [roles.includes(req.user.role)] for a list of role names. *)
Definition includesRole (roles : list jsstring) (r : option jsstring) : bool :=
  match r with
  | Some s => existsb (JS.eqb s) roles
  | None => false
  end.

Definition authorize (roles : list jsstring) (req : @request User) : guard :=
  match user req with
  | None => Raises
  | Some usr =>
      if negb (includesRole roles (role usr)) then
        Answers 403
          (mkErrorBody (u "error")
             (u "User role " ++ roleText (role usr)
                ++ u " is not authorized to access this route"))
      else Continues req
  end.

End Guards.

Arguments protectOn {User}.
Arguments callChangedPasswordAfter {User}.
Arguments authorize {User}.
Arguments Answers {User}.
Arguments Continues {User}.
Arguments Raises {User}.

(** ** Proofs *)

Lemma protectOn_total_method {User : Type} (secret : jsstring)
    (verify : jsstring -> jsstring -> option decoded)
    (findById : jsstring -> @lookup User)
    (changed : User -> Z -> bool) (req : @request User) :
  protectOn secret verify findById (fun usr issued => Some (changed usr issued)) req
  = protect secret verify findById changed req.
Proof.
  unfold protectOn, protect.
  destruct (extractToken (req_headers req)) as [token|]; [|reflexivity].
  destruct (negb (truthy (Some token))); [reflexivity|].
  destruct (verify token secret) as [d|]; [|reflexivity].
  destruct (findById (id d)) as [usr| |]; reflexivity.
Qed.

Lemma protect_answers_401 {User : Type} (secret : jsstring)
    (verify : jsstring -> jsstring -> option decoded)
    (findById : jsstring -> @lookup User)
    (impl : User -> Z -> bool) (req : @request User) :
  exists body,
    protectOn secret verify findById (callChangedPasswordAfter userMethods impl) req
    = Responds 401 body.
Proof.
  unfold protectOn, callChangedPasswordAfter.
  change (defines userMethods (u "changedPasswordAfter")) with false. cbv iota.
  unfold notAuthorized.
  destruct (extractToken (req_headers req)) as [token|]; [|eauto].
  destruct (negb (truthy (Some token))); [eauto|].
  destruct (verify token secret) as [d|]; [|eauto].
  destruct (findById (id d)) as [usr| |]; eauto.
Qed.

(** C8.  [protect], as it runs on the user model of the repository, answers
    401 and does not call [next()] when the request carries no bearer token,
    when the token fails verification against the secret, and when the user
    of the token no longer exists; it never answers but with 401; and a
    request is passed on to the handler only with a bearer token that
    verifies for an existing user.  (On this model no request is passed on
    at all: the call of [changedPasswordAfter], a method the model does not
    define, throws for every user found, and the inner [catch] answers 401;
    so the second source of the token in the code, the [x-truthshield-token]
    header, lets no request through either.) *)
Theorem protect_guard {User : Type} (secret : jsstring)
    (verify : jsstring -> jsstring -> option decoded)
    (findById : jsstring -> @lookup User)
    (impl : User -> Z -> bool) (req : @request User) :
  let run :=
    protectOn secret verify findById (callChangedPasswordAfter userMethods impl) in
  (bearerToken (req_headers req) = None -> responseCode (run req) = Some 401)
  /\ (forall token, extractToken (req_headers req) = Some token ->
        verify token secret = None -> responseCode (run req) = Some 401)
  /\ (forall token d, extractToken (req_headers req) = Some token ->
        verify token secret = Some d -> findById (id d) = Missing ->
        responseCode (run req) = Some 401)
  /\ (forall code body, run req = Responds code body -> code = 401)
  /\ (forall req', run req = Next req' ->
        exists token d usr,
          bearerToken (req_headers req) = Some token
          /\ verify token secret = Some d
          /\ findById (id d) = Found usr
          /\ req' = mkRequest (req_headers req) (Some usr))
  /\ (x_truthshield_token (req_headers req) <> None ->
      responseCode (run req) = Some 401).
Proof.
  cbv zeta. destruct (protect_answers_401 secret verify findById impl req) as (b & ->).
  cbn [responseCode]. repeat split; try reflexivity.
  - intros code body H. now inversion H.
  - intros req' H. discriminate.
Qed.

(** The user schema of the repository defines the methods
    [correctPassword], [updateSecurityScore], [addAchievement] and
    [checkLevelUp], and no [changedPasswordAfter].  On its documents the
    call [user.changedPasswordAfter(decoded.iat)] of [protect] throws, the
    inner [catch] answers, and so [protect] answers 401 to every request
    and never calls [next()], whatever the token.  (With a model that
    defines the method, [protectOn] is the [protect] of the guarded
    routes.) *)
Theorem protect_on_user_model {User : Type} (secret : jsstring)
    (verify : jsstring -> jsstring -> option decoded)
    (findById : jsstring -> @lookup User)
    (impl : User -> Z -> bool) (req : @request User) :
  defines userMethods (u "changedPasswordAfter") = false
  /\ (exists body,
        protectOn secret verify findById (callChangedPasswordAfter userMethods impl) req
        = Responds 401 body)
  /\ protectOn secret verify findById
       (callChangedPasswordAfter (u "changedPasswordAfter" :: userMethods) impl) req
     = protect secret verify findById impl req.
Proof.
  split; [reflexivity|]. split.
  - unfold protectOn, callChangedPasswordAfter.
    change (defines userMethods (u "changedPasswordAfter")) with false. cbv iota.
    unfold notAuthorized.
    destruct (extractToken (req_headers req)) as [token|]; [|eauto].
    destruct (negb (truthy (Some token))); [eauto|].
    destruct (verify token secret) as [d|]; [|eauto].
    destruct (findById (id d)) as [usr| |]; eauto.
  - rewrite <- protectOn_total_method. unfold callChangedPasswordAfter.
    change (defines (u "changedPasswordAfter" :: userMethods) (u "changedPasswordAfter"))
      with true.
    reflexivity.
Qed.


End AuthGuards.

(* ================================================================== *)
(** * routes/games.js: completing a session *)
(* ================================================================== *)

Module GameRoutes.
Import JS UserModel AuthGuards.

(** The game types of the session schema. *)
Inductive gameType : Type :=
| scam_spotter | threat_hunter | firewall_commander
| privacy_guardian | crypto_defender | social_sentinel.

Definition gameTypeName (g : gameType) : jsstring :=
  match g with
  | scam_spotter => u "scam_spotter"
  | threat_hunter => u "threat_hunter"
  | firewall_commander => u "firewall_commander"
  | privacy_guardian => u "privacy_guardian"
  | crypto_defender => u "crypto_defender"
  | social_sentinel => u "social_sentinel"
  end.

(** A session document: its game type, level and feedback beside the
    fields its methods work on. *)
Record gameSession : Type := mkGameSession {
  gameType_ : gameType;
  s_level : Z;
  feedback : option jsstring;
  doc : GameSession.session
}.

(** [obj[key]]: the value of the property, [None] for [undefined]. *)
Fixpoint getProperty {V : Type} (obj : list (jsstring * V)) (key : jsstring) : option V :=
  match obj with
  | [] => None
  | (k, v) :: r => if JS.eqb k key then Some v else getProperty r key
  end.

(** The entry of [gameProgress] is an object the route writes to: the
    writes reach the user's [gameProgress] under the key. *)
Fixpoint setProperty {V : Type} (obj : list (jsstring * V)) (key : jsstring) (v : V)
    : list (jsstring * V) :=
  match obj with
  | [] => []
  | (k, w) :: r => if JS.eqb k key then (k, v) :: r else (k, w) :: setProperty r key v
  end.

(** The data of the 200 response. *)
Record completion : Type := mkCompletion {
  finalScore : Q;
  c_accuracy : Z;
  c_timeSpent : Z;
  xpGained : Z;
  newLevel : Z;
  leveledUp : bool;
  c_achievements : list achievement;
  c_securityScore : Z
}.

(** What a request to the route leaves behind: the status of the response,
    its data when it is a success, and the documents saved. *)
Record routeOutcome : Type := mkOutcome {
  status : Z;
  body : option completion;
  savedSession : option gameSession;
  savedUser : option user
}.

Section Complete.

(** The database, as the route meets it:
    - [saveSession d] is [d.save()]: the document as the hooks and the store
      leave it, or [None] when the promise rejects;
    - [saveUser] likewise for a user document;
    - [findSession usr] is what [GameSession.findOne] resolves with for the
      session id of the request and the user [req.user], and [findUser usr]
      what [User.findById(req.user.id)] resolves with. *)
Variable saveSession : gameSession -> option gameSession.
Variable saveUser : user -> option user.
Variable findSession : user -> option gameSession.
Variable findUser : user -> option user.

(** What [protect] needs: the secret, [jwt.verify], its own user lookup and
    the call of [changedPasswordAfter] on the document found. *)
Variable JWT_SECRET : jsstring.
Variable verify : jsstring -> jsstring -> option Auth.decoded.
Variable findById : jsstring -> @Auth.lookup user.
Variable changedPasswordAfter : user -> Z -> option bool.

Definition failed (s : option gameSession) (usr : option user) : routeOutcome :=
  mkOutcome 500 None s usr.

(** The handler of [POST /:sessionId/complete], the function declared
    after the [protect] guard: [found] is what [GameSession.findOne]
    resolves with, [bodyFeedback] the [feedback] of the request body,
    [foundUser] what [User.findById] resolves with, and [now], [later] the
    two readings of the clock. *)
Definition completeHandler (found : option gameSession) (bodyFeedback : option jsstring)
    (foundUser : option user) (now later : Z) : routeOutcome :=
  match found with
  | None => mkOutcome 404 None None None
  | Some gs =>
      if GameSession.completed (doc gs) then mkOutcome 400 None None None
      else
        let completed :=
          mkGameSession (gameType_ gs) (s_level gs)
            (if Auth.truthy bodyFeedback then bodyFeedback else feedback gs)
            (GameSession.completeSession (doc gs) now) in
        match saveSession completed with
        | None => failed None None
        | Some gs' =>
            match foundUser with
            | None => failed (Some gs') None
            | Some usr =>
                let key := gameTypeName (gameType_ gs') in
                match getProperty (gameProgress usr) key with
                | None => failed (Some gs') None
                | Some gp =>
                    let s := doc gs' in
                    let gp1 :=
                      if Detection.Qgtb (GameSession.score s) (g_score gp)
                      then mkGameEntry (g_completed gp) (GameSession.score s)
                             (Z.max (g_level gp) (s_level gs')) (completedAt gp)
                      else gp in
                    let gp2 :=
                      if GameSession.correctAnswers s =? GameSession.totalQuestions s
                      then mkGameEntry true (g_score gp1) (g_level gp1) (Some later)
                      else gp1 in
                    let xp :=
                      HelperUtils.calculateXP (GameSession.score s)
                        (GameSession.s_difficulty s)
                        (inject_Z (GameSession.timeSpent s)) in
                    let usr1 :=
                      mkUser (age usr) (ageGroup usr) (securityScore usr) (level usr)
                        (experience usr + xp) (achievements usr)
                        (setProperty (gameProgress usr) key gp2) in
                    let levelled := checkLevelUp usr1 in
                    let usr2 := fst (updateSecurityScore (fst levelled)) in
                    match saveUser usr2 with
                    | None => failed (Some gs') None
                    | Some usr3 =>
                        let checked := checkAchievements usr3 s in
                        let usr4 := fst (fst checked) in
                        let reply :=
                          mkOutcome 200
                            (Some (mkCompletion (GameSession.score s)
                                     (GameSession.accuracy s)
                                     (GameSession.timeSpent s) xp (level usr4)
                                     (snd levelled) (snd (fst checked))
                                     (securityScore usr4)))
                            (Some gs') in
                        if snd checked then
                          match saveUser usr4 with
                          | None => failed (Some gs') (Some usr3)
                          | Some usr5 => reply (Some usr5)
                          end
                        else reply (Some usr3)
                    end
                end
            end
        end
  end.

(** The route as it is declared, [router.post('/:sessionId/complete',
    protect, handler)]: [protect] runs first, and the handler runs on the
    request [protect] passes on, if it calls [next()].  A request without a
    user would make the handler throw at [req.user.id], inside its [try]. *)
Definition completeRoute (req : @Auth.request user) (bodyFeedback : option jsstring)
    (now later : Z) : routeOutcome :=
  match protectOn JWT_SECRET verify findById changedPasswordAfter req with
  | Auth.Responds code _ => mkOutcome code None None None
  | Auth.Next req' =>
      match Auth.user req' with
      | Some usr =>
          completeHandler (findSession usr) bodyFeedback (findUser usr) now later
      | None => failed None None
      end
  end.

End Complete.

(** A store that keeps what it is given. *)
Definition keepSession (d : gameSession) : option gameSession := Some d.
Definition keepUser (usr : user) : option user := Some usr.

End GameRoutes.

Module GameRoutesFacts.
Import JS JSFacts UserModel AuthGuards GameRoutes.

Lemma no_progress_entry (g : gameType) (obj : list (jsstring * gameEntry)) :
  map fst obj = progressKeys -> getProperty obj (gameTypeName g) = None.
Proof.
  intros H.
  destruct obj as [|[k1 v1] [|[k2 v2] [|[k3 v3] [|[k4 v4] [|[k5 v5] [|[k6 v6] [|]]]]]]];
    try discriminate H.
  cbn [map fst] in H. inversion H; subst.
  destruct g; reflexivity.
Qed.

(** The route is declared behind [protect], and on the user model of the
    repository [protect] answers 401 to every request: the route answers
    401, its handler is not reached and nothing is saved.  The handler, were
    it reached, would not do what it is written for either: a user document
    has the [gameProgress] properties of the user schema ([scamSpotter],
    [threatHunter], ...), while the handler reads the property named by the
    session's game type ([scam_spotter], [threat_hunter], ...).  So the
    handler never answers 200 and never saves the user: it answers 404
    without a session, 400 for a completed one and 500 otherwise; when the
    session was saved, it stays saved as completed although the answer is
    500. *)
Theorem complete_never_succeeds
    (saveSession : gameSession -> option gameSession)
    (saveUser : user -> option user)
    (found : option gameSession) (bodyFeedback : option jsstring)
    (foundUser : option user) (now later : Z) :
  (forall usr, foundUser = Some usr -> map fst (gameProgress usr) = progressKeys) ->
  let r := completeHandler saveSession saveUser found bodyFeedback foundUser now later in
  (forall findSession findUser secret verify findById impl req,
     completeRoute saveSession saveUser findSession findUser secret verify findById
       (callChangedPasswordAfter userMethods impl) req bodyFeedback now later
     = mkOutcome 401 None None None)
  /\ In (status r) [404; 400; 500]
  /\ body r = None
  /\ savedUser r = None
  /\ (status r = 404 <-> found = None)
  /\ (status r = 400 <-> exists gs, found = Some gs /\ GameSession.completed (doc gs) = true)
  /\ (forall gs gs',
        found = Some gs -> GameSession.completed (doc gs) = false ->
        saveSession
          (mkGameSession (gameType_ gs) (s_level gs)
             (if Auth.truthy bodyFeedback then bodyFeedback else feedback gs)
             (GameSession.completeSession (doc gs) now)) = Some gs' ->
        status r = 500 /\ savedSession r = Some gs').
Proof.
  intros Hkeys. cbv zeta.
  split.
  { intros findSession findUser secret verify findById impl req. unfold completeRoute.
    destruct (protect_answers_401 secret verify findById impl req) as (b & ->).
    reflexivity. }
  unfold completeHandler.
  destruct found as [gs|].
  - cbn [status body savedUser savedSession].
    destruct (GameSession.completed (doc gs)) eqn:Ec.
    + cbn [status body savedUser savedSession].
      split; [cbn; auto|]. split; [reflexivity|]. split; [reflexivity|].
      split; [split; discriminate|].
      split; [split; [intros _; now exists gs | reflexivity]|].
      intros gs0 gs' H. inversion H; subst. congruence.
    + destruct (saveSession _) as [gs'|] eqn:Es.
      * assert (Hr : match foundUser with
                     | Some usr =>
                         getProperty (gameProgress usr) (gameTypeName (gameType_ gs'))
                         = None
                     | None => True
                     end).
        { destruct foundUser as [usr|]; [|exact I].
          exact (no_progress_entry _ _ (Hkeys usr eq_refl)). }
        destruct foundUser as [usr|]; [rewrite Hr|];
          cbn [failed status body savedUser savedSession];
          (split; [cbn; auto|]); (split; [reflexivity|]); (split; [reflexivity|]);
          (split; [split; discriminate|]);
          (split; [split; [discriminate|];
                   intros (gs0 & H & Hc); inversion H; subst; congruence|]);
          intros gs0 gs'' H; inversion H; subst; intros _ Hs;
          rewrite Es in Hs; inversion Hs; subst; split; reflexivity.
      * cbn [failed status body savedUser savedSession].
        split; [cbn; auto|]. split; [reflexivity|]. split; [reflexivity|].
        split; [split; discriminate|].
        split; [split; [discriminate|];
                intros (gs0 & H & Hc); inversion H; subst; congruence|].
        intros gs0 gs'' H. inversion H; subst. intros _ Hs.
        rewrite Es in Hs. discriminate.
  - cbn [status body savedUser savedSession].
    split; [cbn; auto|]. split; [reflexivity|]. split; [reflexivity|].
    split; [split; reflexivity|].
    split; [split; [discriminate | intros (gs & H & _); discriminate]|].
    intros gs gs' H. discriminate.
Qed.

Lemma complete_never_succeeds_witness :
  let gs := mkGameSession scam_spotter 1 None (GameSession.create GameSession.easy 0) in
  let usr := newUser 30 HelperUtils.adult in
  let r := completeHandler keepSession keepUser (Some gs) None (Some usr) 5000 5001 in
  (forall findSession findUser secret verify findById impl req,
     completeRoute keepSession keepUser findSession findUser secret verify findById
       (callChangedPasswordAfter userMethods impl) req None 5000 5001
     = mkOutcome 401 None None None)
  /\ In (status r) [404; 400; 500]
  /\ body r = None
  /\ savedUser r = None
  /\ (status r = 404 <-> Some gs = None)
  /\ (status r = 400 <-> exists gs0, Some gs = Some gs0
                                   /\ GameSession.completed (doc gs0) = true)
  /\ (forall gs0 gs',
        Some gs = Some gs0 -> GameSession.completed (doc gs0) = false ->
        keepSession
          (mkGameSession (gameType_ gs0) (s_level gs0)
             (if Auth.truthy None then None else feedback gs0)
             (GameSession.completeSession (doc gs0) 5000)) = Some gs' ->
        status r = 500 /\ savedSession r = Some gs').
Proof.
  exact (complete_never_succeeds keepSession keepUser
           (Some (mkGameSession scam_spotter 1 None
                    (GameSession.create GameSession.easy 0)))
           None (Some (newUser 30 HelperUtils.adult)) 5000 5001
           ltac:(intros usr H; inversion H; reflexivity)).
Defined.

End GameRoutesFacts.


(* ================================================================== *)
(** * utils/encryption.js: hashes, tokens, random numbers, user data *)
(* ================================================================== *)

Module EncryptionUtils.
Import JS Encryption.

(** ** hashData and validateHash *)

Section Hash.

(** The digest of [crypto.createHash('sha256')], from bytes to bytes. *)
Variable sha256 : list Z -> list Z.

(** [hashData(data)] for a string: [update] takes it as UTF-8. *)
Definition hashData (data : jsstring) : jsstring := toHex (sha256 (utf8Encode data)).

(** [crypto.timingSafeEqual(a, b)]: it throws when the lengths differ. *)
Definition timingSafeEqual (a b : list Z) : result bool :=
  if (List.length a =? List.length b)%nat then Returns (JS.eqb a b) else Throws.

Definition validateHash (data hash : jsstring) : result bool :=
  let dataHash := hashData data in
  timingSafeEqual (fromHex dataHash) (fromHex hash).

End Hash.

(** ** Tokens and keys *)

(** [generateSecureToken(length)], for the bytes [crypto.randomBytes(length)]
    drew. *)
Definition generateSecureToken (randomBytes : list Z) : jsstring := toHex randomBytes.

(** [generateAPIKey()], for the sixteen bytes drawn. *)
Definition generateAPIKey (randomBytes : list Z) : jsstring :=
  u "ts_" ++ generateSecureToken randomBytes.

(** ** generateSecureRandom *)

(** [bytes.readUInt32BE(0)] *)
Definition readUInt32BE (bytes : list Z) : Z :=
  nth 0 bytes 0 * 16777216 + nth 1 bytes 0 * 65536 + nth 2 bytes 0 * 256 + nth 3 bytes 0.

(** [generateSecureRandom(min, max)] for integers, and the four bytes
    drawn; the remainder by 0 is [NaN]. *)
Definition generateSecureRandom (min max : Z) (randomBytes : list Z) : Helpers.jsnum :=
  let range := max - min + 1 in
  let random := readUInt32BE randomBytes in
  if range =? 0 then Helpers.NaN else Helpers.Int (min + Z.rem random range).

(** ** encryptUserData and decryptUserData *)

(** The value of a sensitive field: absent, a string, or the object
    [encrypt] returns. *)
Inductive field : Type :=
| Absent
| Text (s : jsstring)
| Sealed (e : encrypted).

(** The user data: the three sensitive fields and the other properties. *)
Record userData (R : Type) : Type := mkUserData {
  email : field;
  firstName : field;
  lastName : field;
  rest : R
}.

Arguments mkUserData {R}.
Arguments email {R}.
Arguments firstName {R}.
Arguments lastName {R}.
Arguments rest {R}.

(** [if (value)]: absent values and the empty string are falsy. *)
Definition truthyField (f : field) : bool :=
  match f with
  | Absent => false
  | Text [] => false
  | Text (_ :: _) => true
  | Sealed _ => true
  end.

(** [typeof value === 'object'] *)
Definition isObject (f : field) : bool :=
  match f with
  | Sealed _ => true
  | _ => false
  end.

Section UserData.

Variable gcmEncrypt : list Z -> list Z -> list Z * list Z.
Variable gcmDecrypt : list Z -> list Z -> list Z -> option (list Z).
Variable key : jsstring.

(** [this.encrypt(value)]: [cipher.update] throws for a value that is not a
    string, and [encrypt] then throws its own error. *)
Definition encryptValue (randomIv : list Z) (f : field) : result field :=
  match f with
  | Text s => Returns (Sealed (encrypt gcmEncrypt key randomIv s))
  | _ => Throws
  end.

Definition encryptField (randomIv : list Z) (f : field) : result field :=
  if truthyField f then encryptValue randomIv f else Returns f.

(** [encryptUserData(userData)]; [iv1], [iv2], [iv3] are the bytes drawn
    for the three fields. *)
Definition encryptUserData {R : Type} (iv1 iv2 iv3 : list Z) (d : userData R)
    : result (userData R) :=
  bind (encryptField iv1 (email d)) (fun e =>
  bind (encryptField iv2 (firstName d)) (fun f =>
  bind (encryptField iv3 (lastName d)) (fun l =>
  Returns (mkUserData e f l (rest d))))).

Definition decryptField (f : field) : result field :=
  if truthyField f && isObject f then
    match f with
    | Sealed e => bind (decrypt gcmDecrypt key e) (fun s => Returns (Text s))
    | _ => Returns f
    end
  else Returns f.

Definition decryptUserData {R : Type} (d : userData R) : result (userData R) :=
  bind (decryptField (email d)) (fun e =>
  bind (decryptField (firstName d)) (fun f =>
  bind (decryptField (lastName d)) (fun l =>
  Returns (mkUserData e f l (rest d))))).

End UserData.

(** A field as a caller has it before encryption: absent, or a well-formed
    string. *)
Definition plain (f : field) : Prop :=
  match f with
  | Absent => True
  | Text s => wellFormed s = true
  | Sealed _ => False
  end.

(** A digest for examples: the first 32 bytes of the message, padded with
    zeros. *)
Definition toyDigest (message : list Z) : list Z :=
  firstn 32 (map (fun b => b mod 256) message ++ repeat 0 32).

End EncryptionUtils.

Module EncryptionUtilsFacts.
Import JS JSFacts Encryption EncryptionFacts EncryptionUtils.

Lemma toHex_length (bytes : list Z) :
  List.length (toHex bytes) = (2 * List.length bytes)%nat.
Proof.
  induction bytes as [|b bytes IH]; [reflexivity|].
  cbn [toHex flat_map app List.length] in *. fold (toHex bytes). rewrite IH. lia.
Qed.

Lemma fromHex_toHex_app (bytes : list Z) (junk : jsstring) :
  Forall isByte bytes -> fromHex (toHex bytes ++ junk) = bytes ++ fromHex junk.
Proof.
  induction 1 as [|b bytes Hb _ IH]; [reflexivity|].
  unfold isByte in Hb. cbn [toHex flat_map app fromHex].
  rewrite !hexValue_hexDigit by dlia. fold (toHex bytes). rewrite IH.
  cbn [app]. f_equal. dlia.
Qed.

Section HashFacts.

Variable sha256 : list Z -> list Z.
Hypothesis digest_bytes :
  forall message, Forall isByte (sha256 message) /\ List.length (sha256 message) = 32%nat.

(** With a digest of 32 bytes: [validateHash] accepts the hash
    [hashData] computes for the same data; it returns [true] exactly when
    the hash decodes, as hexadecimal, to the digest of the data, so also for
    that hash followed by text that is not hexadecimal; and it throws,
    rather than return [false], for every hash that does not decode to 32
    bytes. *)
Theorem validateHash_hashData (data hash : jsstring) :
  validateHash sha256 data (hashData sha256 data) = Returns true
  /\ (validateHash sha256 data hash = Returns true
      <-> fromHex hash = sha256 (utf8Encode data))
  /\ (forall junk, fromHex junk = [] ->
        validateHash sha256 data (hashData sha256 data ++ junk) = Returns true)
  /\ (List.length (fromHex hash) <> 32%nat <-> validateHash sha256 data hash = Throws).
Proof.
  destruct (digest_bytes (utf8Encode data)) as [Hb Hl].
  assert (Hown : fromHex (hashData sha256 data) = sha256 (utf8Encode data)).
  { unfold hashData. now apply fromHex_toHex. }
  unfold validateHash, timingSafeEqual. rewrite Hown, Hl.
  split; [|split; [|split]].
  - cbn [Nat.eqb]. now rewrite eqb_refl.
  - destruct (Nat.eqb_spec 32 (List.length (fromHex hash))) as [E|E].
    + split.
      * intros H. inversion H as [H1]. apply eqb_eq in H1. now symmetry.
      * intros ->. now rewrite eqb_refl.
    + split; [discriminate|]. intros H. rewrite H, Hl in E. congruence.
  - intros junk Hj. unfold hashData. rewrite fromHex_toHex_app by assumption.
    rewrite Hj, app_nil_r, Hl. cbn [Nat.eqb]. now rewrite eqb_refl.
  - destruct (Nat.eqb_spec 32 (List.length (fromHex hash))) as [E|E].
    + split; [congruence | discriminate].
    + split; [reflexivity | congruence].
Qed.

End HashFacts.

Lemma toyDigest_bytes (message : list Z) :
  Forall isByte (toyDigest message) /\ List.length (toyDigest message) = 32%nat.
Proof.
  unfold toyDigest. split.
  - apply HelperUtilsFacts.Forall_firstn, Forall_app. split.
    + apply Forall_forall. intros b Hb. apply in_map_iff in Hb.
      destruct Hb as (x & <- & _). unfold isByte. apply Z.mod_pos_bound. lia.
    + repeat constructor; unfold isByte; lia.
  - rewrite length_firstn, length_app, repeat_length. lia.
Qed.

Lemma validateHash_hashData_witness :
  validateHash toyDigest (u "abc") (hashData toyDigest (u "abc")) = Returns true
  /\ (validateHash toyDigest (u "abc") (u "zz") = Returns true
      <-> fromHex (u "zz") = toyDigest (utf8Encode (u "abc")))
  /\ (forall junk, fromHex junk = [] ->
        validateHash toyDigest (u "abc") (hashData toyDigest (u "abc") ++ junk)
        = Returns true)
  /\ (List.length (fromHex (u "zz")) <> 32%nat
      <-> validateHash toyDigest (u "abc") (u "zz") = Throws).
Proof.
  exact (validateHash_hashData toyDigest toyDigest_bytes (u "abc") (u "zz")).
Defined.

(** ** API keys *)

Lemma hexDigit_lower (d : Z) :
  0 <= d < 16 ->
  let c := hexDigit d in (48 <= c <= 57) \/ (97 <= c <= 102).
Proof.
  intros H. unfold hexDigit. destruct (Z.ltb_spec d 10); cbv zeta; lia.
Qed.

Lemma toHex_digits (bytes : list Z) :
  Forall isByte bytes ->
  Forall (fun c => (48 <= c <= 57) \/ (97 <= c <= 102)) (toHex bytes).
Proof.
  induction 1 as [|b bytes Hb _ IH]; [constructor|].
  unfold isByte in Hb. cbn [toHex flat_map app]. fold (toHex bytes).
  constructor; [apply hexDigit_lower; dlia|].
  constructor; [apply hexDigit_lower; dlia | exact IH].
Qed.

(** For the sixteen bytes drawn, [generateAPIKey] returns 'ts_'
    followed by 32 digits from 0-9a-f that spell the bytes: 35 code units,
    from which the bytes are read back, so that different draws give
    different keys. *)
Theorem generateAPIKey_shape (randomBytes : list Z) :
  Forall isByte randomBytes -> List.length randomBytes = 16%nat ->
  let key := generateAPIKey randomBytes in
  List.length key = 35%nat
  /\ startsWith key (u "ts_") = true
  /\ Forall (fun c => (48 <= c <= 57) \/ (97 <= c <= 102)) (skipn 3 key)
  /\ fromHex (skipn 3 key) = randomBytes
  /\ (forall other, Forall isByte other ->
        generateAPIKey other = key -> other = randomBytes).
Proof.
  intros Hb Hl key. subst key. unfold generateAPIKey, generateSecureToken.
  change (u "ts_") with [116; 115; 95].
  split; [rewrite length_app, toHex_length, Hl; reflexivity|].
  split; [cbn; now destruct (toHex randomBytes)|].
  change (skipn 3 ([116; 115; 95] ++ toHex randomBytes)) with (toHex randomBytes).
  split; [now apply toHex_digits|].
  split; [now apply fromHex_toHex|].
  intros other Ho H. apply app_inv_head in H.
  rewrite <- (fromHex_toHex other Ho), H. now apply fromHex_toHex.
Qed.

Lemma generateAPIKey_shape_witness :
  let key := generateAPIKey (repeat 171 16) in
  List.length key = 35%nat
  /\ startsWith key (u "ts_") = true
  /\ Forall (fun c => (48 <= c <= 57) \/ (97 <= c <= 102)) (skipn 3 key)
  /\ fromHex (skipn 3 key) = repeat 171 16
  /\ (forall other, Forall isByte other ->
        generateAPIKey other = key -> other = repeat 171 16).
Proof.
  exact (generateAPIKey_shape (repeat 171 16)
           ltac:(repeat constructor; unfold isByte; lia) eq_refl).
Defined.

(** ** generateSecureRandom *)

(** For [min <= max] and four bytes drawn, [generateSecureRandom]
    returns an integer from [min] to [max]; for [max = min - 1] the range is
    0 and it returns [NaN]. *)
Theorem generateSecureRandom_range (min max : Z) (randomBytes : list Z) :
  Forall isByte randomBytes -> List.length randomBytes = 4%nat ->
  (min <= max ->
   exists r, generateSecureRandom min max randomBytes = Helpers.Int r /\ min <= r <= max)
  /\ (max = min - 1 -> generateSecureRandom min max randomBytes = Helpers.NaN).
Proof.
  intros Hb Hl.
  destruct randomBytes as [|b0 [|b1 [|b2 [|b3 [|]]]]]; try discriminate Hl.
  inversion Hb as [|? ? H0 Hb1]; subst. inversion Hb1 as [|? ? H1 Hb2]; subst.
  inversion Hb2 as [|? ? H2 Hb3]; subst. inversion Hb3 as [|? ? H3 _]; subst.
  unfold isByte in *. unfold generateSecureRandom, readUInt32BE. cbn [nth].
  split.
  - intros Hm. destruct (Z.eqb_spec (max - min + 1) 0) as [E|E]; [lia|].
    eexists. split; [reflexivity|].
    pose proof (Z.rem_bound_pos (b0 * 16777216 + b1 * 65536 + b2 * 256 + b3)
                  (max - min + 1) ltac:(lia) ltac:(lia)).
    lia.
  - intros ->. replace (min - 1 - min + 1) with 0 by lia. reflexivity.
Qed.

Lemma generateSecureRandom_range_witness :
  (1 <= 6 ->
   exists r, generateSecureRandom 1 6 [18; 52; 86; 120] = Helpers.Int r /\ 1 <= r <= 6)
  /\ (6 = 1 - 1 -> generateSecureRandom 1 6 [18; 52; 86; 120] = Helpers.NaN).
Proof.
  exact (generateSecureRandom_range 1 6 [18; 52; 86; 120]
           ltac:(repeat constructor; unfold isByte; lia) eq_refl).
Defined.

(** ** User data *)

Section UserDataFacts.

Variable gcmEncrypt : list Z -> list Z -> list Z * list Z.
Variable gcmDecrypt : list Z -> list Z -> list Z -> option (list Z).
Variable key : jsstring.
Hypothesis cipher_correct : cipherCorrect gcmEncrypt gcmDecrypt.

Lemma field_round_trip (randomIv : list Z) (f : field) :
  plain f ->
  exists f',
    encryptField gcmEncrypt key randomIv f = Returns f'
    /\ decryptField gcmDecrypt key f' = Returns f
    /\ (truthyField f = true -> isObject f' = true)
    /\ (truthyField f' = true -> encryptField gcmEncrypt key randomIv f' = Throws).
Proof.
  intros Hp. destruct f as [|s|e]; cbn [plain] in Hp; [| |contradiction].
  - exists Absent. repeat split; try reflexivity; discriminate.
  - destruct s as [|c s].
    + exists (Text []). repeat split; try reflexivity; discriminate.
    + exists (Sealed (encrypt gcmEncrypt key randomIv (c :: s))).
      split; [reflexivity|]. split; [|split; reflexivity].
      unfold decryptField. cbn [truthyField isObject andb].
      unfold decrypt, encrypt. cbn [Encryption.data authTag].
      destruct (cipher_correct (fromHex key) (utf8Encode (c :: s))
                  (utf8Encode_bytes (c :: s) Hp)) as (Hc & Ht & Hd).
      rewrite !fromHex_toHex by assumption. rewrite Hd. cbn [bind].
      now rewrite utf8_round_trip.
Qed.

(** With a cipher that deciphers what it enciphered, and user data
    whose [email], [firstName] and [lastName] are absent or well-formed
    strings: [encryptUserData] returns, leaving an object in place of every
    such string that is not empty and everything else as it was;
    [decryptUserData] gives the user data back; and a second
    [encryptUserData] throws as soon as one of the three fields had been
    encrypted. *)
Theorem decryptUserData_encryptUserData {R : Type} (iv1 iv2 iv3 : list Z)
    (d : userData R) :
  plain (email d) -> plain (firstName d) -> plain (lastName d) ->
  exists sealed,
    encryptUserData gcmEncrypt key iv1 iv2 iv3 d = Returns sealed
    /\ rest sealed = rest d
    /\ (truthyField (email d) = true -> isObject (email sealed) = true)
    /\ (truthyField (firstName d) = true -> isObject (firstName sealed) = true)
    /\ (truthyField (lastName d) = true -> isObject (lastName sealed) = true)
    /\ decryptUserData gcmDecrypt key sealed = Returns d
    /\ (truthyField (email d) || truthyField (firstName d) || truthyField (lastName d)
        = true ->
        forall iv4 iv5 iv6,
          encryptUserData gcmEncrypt key iv4 iv5 iv6 sealed = Throws).
Proof.
  intros H1 H2 H3.
  destruct (field_round_trip iv1 (email d) H1) as (e & He & Hde & Hoe & Hte).
  destruct (field_round_trip iv2 (firstName d) H2) as (f & Hf & Hdf & Hof & Htf).
  destruct (field_round_trip iv3 (lastName d) H3) as (l & Hl & Hdl & Hol & Htl).
  exists (mkUserData e f l (rest d)).
  unfold encryptUserData, decryptUserData. rewrite He, Hf, Hl.
  cbn [bind email firstName lastName rest]. rewrite Hde, Hdf, Hdl. cbn [bind].
  split; [reflexivity|]. split; [reflexivity|].
  split; [exact Hoe|]. split; [exact Hof|]. split; [exact Hol|].
  split; [destruct d; reflexivity|].
  intros Hany iv4 iv5 iv6.
  assert (Hsealed : forall iv g g', plain g ->
            encryptField gcmEncrypt key iv g = Returns g' ->
            (truthyField g = true ->
             forall iv', encryptField gcmEncrypt key iv' g' = Throws)
            /\ (truthyField g = false ->
                forall iv', encryptField gcmEncrypt key iv' g' = Returns g')).
  { intros iv g g' Hp Hg. destruct g as [|[|c s]|e0]; cbn [plain] in Hp; try contradiction;
      cbn in Hg; inversion Hg; subst g'; split; intros Ht iv'; try discriminate;
      reflexivity. }
  destruct (Hsealed iv1 _ _ H1 He) as [Ee1 Ee0].
  destruct (Hsealed iv2 _ _ H2 Hf) as [Ef1 Ef0].
  destruct (Hsealed iv3 _ _ H3 Hl) as [El1 El0].
  destruct (truthyField (email d)); [now rewrite Ee1|rewrite Ee0 by reflexivity].
  cbn [bind]. destruct (truthyField (firstName d));
    [now rewrite Ef1|rewrite Ef0 by reflexivity].
  cbn [bind]. destruct (truthyField (lastName d)); [now rewrite El1|discriminate].
Qed.

End UserDataFacts.

Lemma decryptUserData_encryptUserData_witness :
  let d := mkUserData (Text (u "ann@example.org")) (Text [233; 55357; 56832]) Absent 7 in
  exists sealed,
    encryptUserData toyEncrypt (u "00ff") [1] [2] [3] d = Returns sealed
    /\ rest sealed = rest d
    /\ (truthyField (email d) = true -> isObject (email sealed) = true)
    /\ (truthyField (firstName d) = true -> isObject (firstName sealed) = true)
    /\ (truthyField (lastName d) = true -> isObject (lastName sealed) = true)
    /\ decryptUserData toyDecrypt (u "00ff") sealed = Returns d
    /\ (truthyField (email d) || truthyField (firstName d) || truthyField (lastName d)
        = true ->
        forall iv4 iv5 iv6,
          encryptUserData toyEncrypt (u "00ff") iv4 iv5 iv6 sealed = Throws).
Proof.
  exact (decryptUserData_encryptUserData toyEncrypt toyDecrypt (u "00ff")
           toy_cipher_correct [1] [2] [3]
           (mkUserData (Text (u "ann@example.org")) (Text [233; 55357; 56832]) Absent 7)
           eq_refl eq_refl I).
Defined.

End EncryptionUtilsFacts.

(* ================================================================== *)
(** * models/GameSession.js: what a session counts *)
(* ================================================================== *)

Module GameSessionCounts.
Import JS GameSession.

(** The questions answered and the completions among a sequence of calls. *)
Definition answered (calls : list call) : list questionData :=
  flat_map (fun c => match c with AddQuestionResult q => [q] | _ => [] end) calls.

Definition completions (calls : list call) : list Z :=
  flat_map (fun c => match c with CompleteSession now => [now] | _ => [] end) calls.

(** What the methods keep of the bookkeeping of a session. *)
Definition counted (s : session) : Prop :=
  totalQuestions s = Z.of_nat (List.length (questions s))
  /\ correctAnswers s = Z.of_nat (List.length (filter isCorrect (questions s)))
  /\ (completed s = true <-> endTime s <> None).

Lemma last_cons {A : Type} (l : list A) : forall x d, last (x :: l) d = last l x.
Proof.
  induction l as [|y l IH]; intros x d; [reflexivity|].
  change (last (x :: y :: l) d) with (last (y :: l) d). now rewrite !IH.
Qed.

Lemma step_counted (s : session) (c : call) :
  counted s ->
  counted (step s c)
  /\ questions (step s c) = questions s ++ answered [c]
  /\ startTime (step s c) = startTime s
  /\ s_difficulty (step s c) = s_difficulty s
  /\ endTime (step s c) = match completions [c] with
                          | now :: _ => Some now
                          | [] => endTime s
                          end.
Proof.
  intros (Ht & Hc & He). unfold counted.
  destruct c as [q|now|]; cbn [step answered completions flat_map app].
  - unfold addQuestionResult, calculateScore.
    cbn [totalQuestions correctAnswers questions completed endTime startTime
         s_difficulty].
    split; [|repeat split].
    split; [rewrite length_app, Ht; cbn; lia|]. split; [|exact He].
    rewrite filter_app, length_app. cbn [filter].
    destruct (isCorrect q); cbn [List.length]; lia.
  - unfold completeSession, calculateScore.
    cbn [totalQuestions correctAnswers questions completed endTime startTime
         s_difficulty].
    rewrite app_nil_r. split; [|repeat split].
    split; [exact Ht|]. split; [exact Hc|]. split; [discriminate | reflexivity].
  - unfold preSave. rewrite app_nil_r.
    destruct (0 <? totalQuestions s);
      cbn [totalQuestions correctAnswers questions completed endTime startTime
           s_difficulty];
      (split; [|repeat split]); repeat split; try assumption; apply He.
Qed.

(** A session reached from a fresh one by [addQuestionResult],
    [completeSession] and saves holds the questions answered, in order;
    [totalQuestions] is their number and [correctAnswers] the number of the
    correct ones; it is [completed] exactly when it has an [endTime], which
    is the clock of the last [completeSession]; start time and difficulty
    are those it was created with. *)
Theorem reachable_counts (d : difficulty) (start : Z) (calls : list call) :
  let s := after (create d start) calls in
  questions s = answered calls
  /\ totalQuestions s = Z.of_nat (List.length (answered calls))
  /\ correctAnswers s = Z.of_nat (List.length (filter isCorrect (answered calls)))
  /\ (completed s = true <-> completions calls <> [])
  /\ endTime s = last (map Some (completions calls)) None
  /\ startTime s = start
  /\ s_difficulty s = d.
Proof.
  cbv zeta. unfold after.
  assert (Hgen : forall calls s,
            counted s ->
            let s' := fold_left step calls s in
            counted s'
            /\ questions s' = questions s ++ answered calls
            /\ startTime s' = startTime s
            /\ s_difficulty s' = s_difficulty s
            /\ endTime s' = last (map Some (completions calls)) (endTime s)).
  { clear. induction calls as [|c calls IH]; intros s Hs; cbn [fold_left].
    - cbv zeta. rewrite app_nil_r. repeat split; try apply Hs.
    - destruct (step_counted s c Hs) as (Hs1 & Hq & Hst & Hd & He).
      destruct (IH (step s c) Hs1) as (Hs2 & Hq2 & Hst2 & Hd2 & He2).
      cbv zeta. split; [exact Hs2|].
      split.
      { rewrite Hq2, Hq, <- app_assoc. f_equal. cbn [answered flat_map].
        now rewrite app_nil_r. }
      split; [congruence|]. split; [congruence|].
      rewrite He2, He. destruct c as [q|now|]; cbn [completions flat_map app map];
        try reflexivity.
      fold (completions calls). now rewrite last_cons. }
  assert (H0 : counted (create d start)).
  { unfold counted, create; cbn. repeat split; try discriminate. congruence. }
  destruct (Hgen calls (create d start) H0) as ((Ht & Hc & Hcompl) & Hq & Hst & Hd & He).
  cbn [create questions startTime s_difficulty endTime app] in Hq, Hst, Hd, He.
  split; [exact Hq|]. split; [rewrite Ht, Hq; reflexivity|].
  split; [rewrite Hc, Hq; reflexivity|].
  split; [|split; [exact He | split; [exact Hst | exact Hd]]].
  rewrite Hcompl, He.
  destruct (completions calls) as [|t ts] eqn:E.
  - cbn. split; intros H; congruence.
  - split; [discriminate|]. intros _.
    assert (Hl : exists x, last (map Some (t :: ts)) None = Some x).
    { clear. revert t. induction ts as [|t' ts IH]; intros t; [now exists t|].
      destruct (IH t') as (x & Hx). exists x.
      cbn [map] in *. cbn [last]. exact Hx. }
    destruct Hl as (x & ->). discriminate.
Qed.

End GameSessionCounts.

(* ================================================================== *)
(** * utils/ai-detection.js: behavioural patterns *)
(* ================================================================== *)

Module Behaviour.
Import JS.

Record patterns : Type := mkPatterns {
  unusualTiming : bool;
  rapidMessages : bool;
  informationGathering : bool;
  pressureTactics : bool
}.

Record behaviour : Type := mkBehaviour {
  behavioralRisks : list jsstring;
  overallBehavioralRisk : Detection.severity;
  found : patterns
}.

(** The [context] argument: [messageHistory] is the list of the [timestamp]s
    of its messages, and a property that is absent is [None]. *)
Record context (Timestamp : Type) : Type := mkContext {
  timestamp : Timestamp;
  messageHistory : option (list Z);
  conversation : option jsstring;
  content : option jsstring
}.

Arguments mkContext {Timestamp}.
Arguments timestamp {Timestamp}.
Arguments messageHistory {Timestamp}.
Arguments conversation {Timestamp}.
Arguments content {Timestamp}.

Section Patterns.

(** [new Date(timestamp).getHours()]: the hour of the day in local time,
    [None] for [NaN] (an invalid date). *)
Variable Timestamp : Type.
Variable getHours : Timestamp -> option Z.

Definition checkUnusualTiming (t : Timestamp) : bool :=
  match getHours t with
  | Some hour => (hour <? 6) || (23 <? hour)
  | None => false
  end.

Definition checkRapidMessaging (history : option (list Z)) : bool :=
  match history with
  | None => false
  | Some h =>
      if Z.of_nat (List.length h) <? 3 then false
      else
        let recentMessages := Helpers.slice h (-3) (Z.of_nat (List.length h)) in
        let timeDiff := nth 2 recentMessages 0 - nth 0 recentMessages 0 in
        timeDiff <? 30000
  end.

Definition infoQuestions : list jsstring :=
  [ u "where do you live"; u "what school"; u "how old are you";
    u "your parents"; u "home alone"; u "your address" ].

Definition pressureIndicators : list jsstring :=
  [ u "right now"; u "immediately"; u "hurry";
    u "last chance"; u "limited time"; u "now or never" ].

(** [list.some(x => text.toLowerCase().includes(x))]; the call of
    [toLowerCase] on [undefined] throws. *)
Definition someIncluded (list : list jsstring) (text : option jsstring) : result bool :=
  match text with
  | Some s => Returns (existsb (fun x => includes (toLowerCase s) x) list)
  | None => Throws
  end.

Definition checkInformationGathering (c : option jsstring) : result bool :=
  someIncluded infoQuestions c.

Definition checkPressureTactics (c : option jsstring) : result bool :=
  someIncluded pressureIndicators c.

(** [Object.entries(patterns)], in the order of the literal. *)
Definition entries (p : patterns) : list (jsstring * bool) :=
  [ (u "unusualTiming", unusualTiming p); (u "rapidMessages", rapidMessages p);
    (u "informationGathering", informationGathering p);
    (u "pressureTactics", pressureTactics p) ].

Definition analyzeBehavioralPatterns (ctx : context Timestamp) : result behaviour :=
  let t := checkUnusualTiming (timestamp ctx) in
  let r := checkRapidMessaging (messageHistory ctx) in
  bind (checkInformationGathering (conversation ctx)) (fun i =>
  bind (checkPressureTactics (content ctx)) (fun p =>
    let pats := mkPatterns t r i p in
    let riskFactors := map fst (filter snd (entries pats)) in
    Returns
      (mkBehaviour riskFactors
         (if 2 <? Z.of_nat (List.length riskFactors) then Detection.high
          else if 0 <? Z.of_nat (List.length riskFactors) then Detection.medium
          else Detection.low)
         pats))).

End Patterns.

Arguments checkUnusualTiming {Timestamp}.
Arguments analyzeBehavioralPatterns {Timestamp}.

(** The number of checks that fired. *)
Definition fired (p : patterns) : Z :=
  Z.b2z (unusualTiming p) + Z.b2z (rapidMessages p)
  + Z.b2z (informationGathering p) + Z.b2z (pressureTactics p).

(** A clock for examples: the timestamp counts the hours. *)
Definition hourOf (t : Z) : option Z := Some (t mod 24).

(** Three messages within two seconds, one hour before midnight. *)
Definition lateChat : context Z :=
  mkContext 23 (Some [0; 1000; 2000]) (Some (u "Where do you live?"))
    (Some (u "Hurry, last chance")).

(** ** Proofs *)

(** [analyzeBehavioralPatterns] throws exactly when the context has
    no [conversation] or no [content]; otherwise the overall risk is [high]
    when three or four of the checks fire, [medium] for one or two and
    [low] for none.  With the hour of the day in 0 .. 23, the timing is
    unusual exactly before 6 o'clock (the hour from 23 to midnight is not);
    without a history, or with fewer than three messages, the messages are
    not rapid, and otherwise they are exactly when the last message is less
    than 30000 ms after the last but two. *)
Theorem analyzeBehavioralPatterns_risk {Timestamp : Type}
    (getHours : Timestamp -> option Z) (ctx : context Timestamp) :
  (forall t hour, getHours t = Some hour -> 0 <= hour <= 23) ->
  (analyzeBehavioralPatterns getHours ctx = Throws
   <-> conversation ctx = None \/ content ctx = None)
  /\ (forall b, analyzeBehavioralPatterns getHours ctx = Returns b ->
        (overallBehavioralRisk b = Detection.high <-> 3 <= fired (found b))
        /\ (overallBehavioralRisk b = Detection.medium <-> 1 <= fired (found b) <= 2)
        /\ (overallBehavioralRisk b = Detection.low <-> fired (found b) = 0)
        /\ Z.of_nat (List.length (behavioralRisks b)) = fired (found b)
        /\ (unusualTiming (found b) = true <->
            exists hour, getHours (timestamp ctx) = Some hour /\ hour < 6)
        /\ (rapidMessages (found b) = true <->
            exists before t1 t2 t3,
              messageHistory ctx = Some (before ++ [t1; t2; t3])
              /\ t3 - t1 < 30000)).
Proof.
  intros Hh. unfold analyzeBehavioralPatterns.
  destruct (conversation ctx) as [conv|]; cbn [checkInformationGathering someIncluded bind].
  2:{ split; [split; [now left | reflexivity]|]. intros b H. discriminate. }
  destruct (content ctx) as [cont|]; cbn [checkPressureTactics someIncluded bind].
  2:{ split; [split; [now right | reflexivity]|]. intros b H. discriminate. }
  split; [split; [discriminate | intros [H|H]; discriminate]|].
  cbv zeta.
  set (t := checkUnusualTiming getHours (timestamp ctx)).
  set (r := checkRapidMessaging (messageHistory ctx)).
  set (i := existsb (fun x => includes (toLowerCase conv) x) infoQuestions).
  set (p := existsb (fun x => includes (toLowerCase cont) x) pressureIndicators).
  intros b H. injection H as <-.
  assert (Hcount :
    let b := mkBehaviour (map fst (filter snd (entries (mkPatterns t r i p))))
               (if 2 <? Z.of_nat (List.length
                                    (map fst (filter snd (entries (mkPatterns t r i p)))))
                then Detection.high
                else if 0 <? Z.of_nat (List.length
                                    (map fst (filter snd (entries (mkPatterns t r i p)))))
                     then Detection.medium else Detection.low)
               (mkPatterns t r i p) in
    (overallBehavioralRisk b = Detection.high <-> 3 <= fired (found b))
    /\ (overallBehavioralRisk b = Detection.medium <-> 1 <= fired (found b) <= 2)
    /\ (overallBehavioralRisk b = Detection.low <-> fired (found b) = 0)
    /\ Z.of_nat (List.length (behavioralRisks b)) = fired (found b)).
  { clearbody t r i p. destruct t, r, i, p; cbn;
      repeat split; intros; try discriminate; try reflexivity; lia. }
  cbv zeta in Hcount. destruct Hcount as (C1 & C2 & C3 & C4).
  cbn [found unusualTiming rapidMessages].
  split; [exact C1|]. split; [exact C2|]. split; [exact C3|]. split; [exact C4|].
  split.
  - unfold t, checkUnusualTiming.
    destruct (getHours (timestamp ctx)) as [hour|] eqn:E.
    + pose proof (Hh _ _ E) as Hr. split.
      * intros H. exists hour. split; [reflexivity|].
        apply orb_true_iff in H. destruct H as [H|H]; lia.
      * intros (h & Hs & Hlt). inversion Hs; subst h.
        apply orb_true_iff. left. lia.
    + split; [discriminate | intros (h & Hs & _); discriminate].
  - unfold r, checkRapidMessaging.
    destruct (messageHistory ctx) as [h|].
    2:{ split; [discriminate | intros (b0 & t1 & t2 & t3 & H & _); discriminate]. }
    destruct (Z.ltb_spec (Z.of_nat (List.length h)) 3) as [Hlt|Hge].
    { split; [discriminate|]. intros (b0 & t1 & t2 & t3 & H & _).
      inversion H; subst h. rewrite length_app in Hlt. cbn in Hlt. lia. }
    assert (Hsplit : exists before t1 t2 t3, h = before ++ [t1; t2; t3]).
    { rewrite <- (firstn_skipn (List.length h - 3) h).
      assert (Hl : List.length (skipn (List.length h - 3) h) = 3%nat)
        by (rewrite length_skipn; lia).
      destruct (skipn (List.length h - 3) h) as [|t1 [|t2 [|t3 [|]]]];
        try discriminate Hl.
      now exists (firstn (List.length h - 3) h), t1, t2, t3. }
    destruct Hsplit as (before & t1 & t2 & t3 & ->).
    assert (Hslice : Helpers.slice (before ++ [t1; t2; t3]) (-3)
                       (Z.of_nat (List.length (before ++ [t1; t2; t3])))
                     = [t1; t2; t3]).
    { unfold Helpers.slice. rewrite length_app. cbn [List.length].
      change (-3 <? 0) with true. cbv iota.
      destruct (Z.ltb_spec (Z.of_nat (List.length before + 3)) 0) as [?|_]; [lia|].
      rewrite Z.max_l by lia. rewrite Z.min_id.
      replace (Z.to_nat (Z.of_nat (List.length before + 3) + -3))
        with (List.length before + 0)%nat by lia.
      rewrite skipn_app, Nat.add_0_r, skipn_all.
      replace (List.length before - List.length before)%nat with 0%nat by lia.
      cbn [app skipn].
      replace (Z.to_nat (Z.of_nat (List.length before + 3)
                         - (Z.of_nat (List.length before + 3) + -3)))
        with 3%nat by lia.
      reflexivity. }
    cbv zeta. rewrite Hslice. cbn [nth]. split.
    + intros H. exists before, t1, t2, t3. split; [reflexivity|]. lia.
    + intros (b0 & s1 & s2 & s3 & H & Hd). inversion H as [H1].
      assert (Hrev : rev (before ++ [t1; t2; t3]) = rev (b0 ++ [s1; s2; s3]))
        by now rewrite H1.
      rewrite !rev_app_distr in Hrev. cbn in Hrev. inversion Hrev; subst. lia.
Qed.

Lemma hourOf_range (t hour : Z) : hourOf t = Some hour -> 0 <= hour <= 23.
Proof.
  intros H. inversion H; subst. pose proof (Z.mod_pos_bound t 24). lia.
Qed.

Lemma analyzeBehavioralPatterns_risk_witness :
  (analyzeBehavioralPatterns hourOf lateChat = Throws
   <-> conversation lateChat = None \/ content lateChat = None)
  /\ (forall b, analyzeBehavioralPatterns hourOf lateChat = Returns b ->
        (overallBehavioralRisk b = Detection.high <-> 3 <= fired (found b))
        /\ (overallBehavioralRisk b = Detection.medium <-> 1 <= fired (found b) <= 2)
        /\ (overallBehavioralRisk b = Detection.low <-> fired (found b) = 0)
        /\ Z.of_nat (List.length (behavioralRisks b)) = fired (found b)
        /\ (unusualTiming (found b) = true <->
            exists hour, hourOf (timestamp lateChat) = Some hour /\ hour < 6)
        /\ (rapidMessages (found b) = true <->
            exists before t1 t2 t3,
              messageHistory lateChat = Some (before ++ [t1; t2; t3])
              /\ t3 - t1 < 30000)).
Proof.
  exact (analyzeBehavioralPatterns_risk hourOf lateChat hourOf_range).
Defined.

End Behaviour.

(* ================================================================== *)
(** * models/Family.js: children of a family *)
(* ================================================================== *)

Module FamilyModel.
Import JS.

Record permissions : Type := mkPermissions {
  gaming : bool;
  socialMedia : bool;
  webBrowsing : bool;
  maxScreenTime : Z
}.

(** The [permissions] argument of [addChild]: an object that has some of
    the four properties. *)
Record given : Type := mkGiven {
  g_gaming : option bool;
  g_socialMedia : option bool;
  g_webBrowsing : option bool;
  g_maxScreenTime : option Z
}.

(** An element of [children]; [child] is the id of the user, as the string
    [toString()] gives. *)
Record member : Type := mkMember {
  child : jsstring;
  relationship : jsstring;
  m_permissions : permissions
}.

Record family : Type := mkFamily {
  familyName : jsstring;
  parent : jsstring;
  children : list member
}.

(** The default value of a parameter: taken when the argument is absent. *)
Definition orDefault {A : Type} (v : option A) (d : A) : A :=
  match v with
  | Some a => a
  | None => d
  end.

(** [{ ...first, ...permissions }] *)
Definition spread (first : permissions) (p : given) : permissions :=
  mkPermissions (orDefault (g_gaming p) (gaming first))
    (orDefault (g_socialMedia p) (socialMedia first))
    (orDefault (g_webBrowsing p) (webBrowsing first))
    (orDefault (g_maxScreenTime p) (maxScreenTime first)).

(** [addChild(childId, relationship = 'other', permissions = {})]: the
    document it hands to [save()], or [Throws] when it throws before; the
    element to push is built first, from [this.children[0]]. *)
Definition addChild (f : family) (childId : jsstring) (rel : option jsstring)
    (perms : option given) : result family :=
  match nth_error (children f) 0 with
  | None => Throws
  | Some first =>
      Returns
        (mkFamily (familyName f) (parent f)
           (children f
            ++ [mkMember childId (orDefault rel (u "other"))
                  (spread (m_permissions first)
                     (orDefault perms (mkGiven None None None None)))]))
  end.

(** [removeChild(childId)]: the document it hands to [save()]. *)
Definition removeChild (f : family) (childId : jsstring) : family :=
  mkFamily (familyName f) (parent f)
    (filter (fun c => negb (JS.eqb (child c) childId)) (children f)).

(** The family the create route stores for a request without children. *)
Definition created (name owner : jsstring) : family := mkFamily name owner [].

End FamilyModel.

Module FamilyModelFacts.
Import JS JSFacts FamilyModel.

Lemma filter_all {A : Type} (keep : A -> bool) (l : list A) :
  Forall (fun x => keep x = true) l -> filter keep l = l.
Proof.
  induction 1 as [|x l Hx _ IH]; [reflexivity|].
  cbn [filter]. now rewrite Hx, IH.
Qed.


End FamilyModelFacts.
